(** * Patient intake chatbot: slot engine, state machine and turn dispatcher

    A shallow embedding of the core of [assort_intake_bot]:
    - [state_machine.py]: the phase enumeration, the phase requirement
      table, the conversation state, the completion check and the merge
      engine;
    - [slot_extractor.py]: phone normalisation;
    - [main.py]: the per-phase handlers, address validation
      orchestration and the reverse parser of suggested addresses;
    - [conversation.py]: the interpretation of a selection reply;
    - [provider_repository.py]: the conditional booking update.

    Python text is modelled by [string] over 7-bit ASCII: the character
    classes below ([isdigit], [isspace], [isalpha], case mapping) are the
    ASCII restrictions of Python's Unicode classes, and a character above
    127 belongs to none of them.  Python dictionaries with string keys are
    finite maps ([gmap string _]) when only lookups matter and association
    lists when the iteration order is observable. *)

From Stdlib Require Import ZArith Ascii String List Bool Lia DecimalString.
From stdpp Require Import gmap strings list fin_maps sorting.

Local Open Scope string_scope.
Local Open Scope Z_scope.

(** ** Python text primitives *)

Module PyStr.

Definition code (c : ascii) : N := N_of_ascii c.

Definition in_range (lo hi : N) (c : ascii) : bool :=
  ((lo <=? code c) && (code c <=? hi))%N.

(** [str.isdigit] on one character, also the class [\d] of [re]. *)
Definition is_digit (c : ascii) : bool := in_range 48 57 c.

Definition is_upper (c : ascii) : bool := in_range 65 90 c.
Definition is_lower (c : ascii) : bool := in_range 97 122 c.
Definition is_alpha (c : ascii) : bool := is_upper c || is_lower c.

(** [str.isspace] on one character, also the class [\s] of [re]:
    tab, line feed, vertical tab, form feed, carriage return, the four
    separators 28..31 and the space. *)
Definition is_space (c : ascii) : bool :=
  in_range 9 13 c || in_range 28 31 c || (code c =? 32)%N.

Definition upper_char (c : ascii) : ascii :=
  if is_lower c then ascii_of_N (code c - 32) else c.
Definition lower_char (c : ascii) : ascii :=
  if is_upper c then ascii_of_N (code c + 32) else c.

Fixpoint map_chars (f : ascii -> ascii) (s : string) : string :=
  match s with
  | EmptyString => EmptyString
  | String c r => String (f c) (map_chars f r)
  end.

Definition upper (s : string) : string := map_chars upper_char s.
Definition lower (s : string) : string := map_chars lower_char s.

Fixpoint all_chars (p : ascii -> bool) (s : string) : bool :=
  match s with
  | EmptyString => true
  | String c r => p c && all_chars p r
  end.

Definition nonempty (s : string) : bool :=
  match s with EmptyString => false | _ => true end.

(** [s.isdigit()] and [s.isalpha()]: every character in the class and
    at least one character. *)
Definition isdigit (s : string) : bool := nonempty s && all_chars is_digit s.
Definition isalpha (s : string) : bool := nonempty s && all_chars is_alpha s.

(** [s.replace(c, "")] for a one-character pattern. *)
Fixpoint remove_char (x : ascii) (s : string) : string :=
  match s with
  | EmptyString => EmptyString
  | String c r =>
      if Ascii.eqb c x then remove_char x r else String c (remove_char x r)
  end.

Fixpoint lstrip (s : string) : string :=
  match s with
  | String c r => if is_space c then lstrip r else s
  | EmptyString => EmptyString
  end.

(** Removal of trailing white space, right to left. *)
Fixpoint rstrip (s : string) : string :=
  match s with
  | EmptyString => EmptyString
  | String c r =>
      match rstrip r with
      | EmptyString => if is_space c then EmptyString else String c EmptyString
      | r' => String c r'
      end
  end.

(** [s.strip()] *)
Definition strip (s : string) : string := rstrip (lstrip s).

(** [s.split(sep)] for a one-character separator: always at least one
    part, empty parts kept. *)
Fixpoint split_on (sep : ascii) (s : string) : list string :=
  match s with
  | EmptyString => [EmptyString]
  | String c r =>
      if Ascii.eqb c sep then EmptyString :: split_on sep r
      else match split_on sep r with
           | p :: ps => String c p :: ps
           | [] => [String c EmptyString]
           end
  end.

(** [s.split()]: maximal runs of non-space characters. *)
Fixpoint words_aux (cur : string) (s : string) : list string :=
  match s with
  | EmptyString => if nonempty cur then [cur] else []
  | String c r =>
      if is_space c
      then (if nonempty cur then cur :: words_aux EmptyString r
            else words_aux EmptyString r)
      else words_aux (cur +:+ String c EmptyString) r
  end.
Definition split (s : string) : list string := words_aux EmptyString s.

(** [x in l] for a list of strings. *)
Definition mem (x : string) (l : list string) : bool :=
  existsb (String.eqb x) l.

(** [str(n)] for an integer. *)
Definition str_of_Z (n : Z) : string := NilZero.string_of_int (Z.to_int n).

(** [int(s)] for a run of decimal digits. *)
Fixpoint int_of_digits (acc : Z) (s : string) : Z :=
  match s with
  | EmptyString => acc
  | String c r => int_of_digits (10 * acc + Z.of_N (code c - 48)) r
  end.

Fixpoint take_while (p : ascii -> bool) (s : string) : string :=
  match s with
  | String c r => if p c then String c (take_while p r) else EmptyString
  | EmptyString => EmptyString
  end.

Fixpoint drop_while (p : ascii -> bool) (s : string) : string :=
  match s with
  | String c r => if p c then drop_while p r else s
  | EmptyString => EmptyString
  end.

Fixpoint filter_chars (p : ascii -> bool) (s : string) : string :=
  match s with
  | EmptyString => EmptyString
  | String c r =>
      if p c then String c (filter_chars p r) else filter_chars p r
  end.

End PyStr.

(** ** Dynamic values held by the slot record *)

Inductive Value :=
| VNone
| VStr (s : string)
| VInt (n : Z)
| VBool (b : bool).

#[global] Instance Value_eq_dec : EqDecision Value.
Proof. solve_decision. Defined.

(** Truth value of an object: [None], [""], [0] and [False] are false. *)
Definition py_truthy (v : Value) : bool :=
  match v with
  | VNone => false
  | VStr s => PyStr.nonempty s
  | VInt n => negb (n =? 0)
  | VBool b => b
  end.

(** [str(v)] *)
Definition py_str (v : Value) : string :=
  match v with
  | VNone => "None"
  | VStr s => s
  | VInt n => PyStr.str_of_Z n
  | VBool true => "True"
  | VBool false => "False"
  end.

Definition Z_of_bool (b : bool) : Z := if b then 1 else 0.

(** [a == b]: booleans are integers, every other pair of different types
    is unequal. *)
Definition py_eq (a b : Value) : bool :=
  match a, b with
  | VNone, VNone => true
  | VStr x, VStr y => String.eqb x y
  | VInt x, VInt y => x =? y
  | VBool x, VBool y => Bool.eqb x y
  | VInt x, VBool y => x =? Z_of_bool y
  | VBool x, VInt y => Z_of_bool x =? y
  | _, _ => false
  end.

Definition of_opt (o : option string) : Value :=
  match o with Some s => VStr s | None => VNone end.

(** Truth value of a [str | None] attribute. *)
Definition opt_truthy (o : option string) : bool := py_truthy (of_opt o).

(** ** Records of the persistence layer *)

Module Repo.

(** [patient_repository.Patient] (time stamps left out: no handler
    reads them). *)
Record Patient := {
  id : string;
  first_name : string;
  last_name : string;
  date_of_birth : string;
  phone : string;
  email : option string;
  address_line1 : option string;
  address_line2 : option string;
  city : option string;
  state : option string;
  zip_code : option string;
  address_validated : bool;
  insurance_payer : option string;
  insurance_plan : option string;
  insurance_member_id : option string;
  insurance_group_id : option string
}.

End Repo.

(** ** state_machine.py *)

Inductive State :=
| GREET | CHECK_PATIENT | VERIFY_DOB | CONFIRM_RETURNING
| COLLECT_PATIENT | CONFIRM_PATIENT
| COLLECT_INSURANCE | CONFIRM_INSURANCE
| COLLECT_ADDRESS | VALIDATE_ADDRESS | CONFIRM_ADDRESS
| COLLECT_MEDICAL | QUERY_PROVIDERS | SELECT_PROVIDER | SELECT_TIME
| CONFIRM | END.

#[global] Instance State_eq_dec : EqDecision State.
Proof. solve_decision. Defined.

(** The phase requirement table: a dictionary with four keys. *)
Definition PHASE_REQUIREMENTS (phase : State) : option (list string) :=
  match phase with
  | COLLECT_PATIENT => Some ["first_name"; "last_name"; "date_of_birth"; "phone"]
  | COLLECT_INSURANCE => Some ["insurance_payer"; "insurance_member_id"]
  | COLLECT_ADDRESS => Some ["address_line1"; "city"; "state"; "zip_code"]
  | COLLECT_MEDICAL => Some ["chief_complaint"]
  | _ => None
  end.

(** One entry of [matched_providers] and of [available_slots]; the
    rating is carried, never computed on. *)
Record ProviderOption := {
  po_id : string;
  po_name : string;
  po_specialty : option string;
  po_rating : Z
}.

Record SlotOption := {
  so_id : string;
  so_date : string;
  so_time : string
}.

Record ConversationState := {
  current_state : State;
  patient_id : option string;
  is_returning : bool;
  slots : gmap string Value;
  address_validation_attempts : Z;
  pending_address_suggestion : option string;
  pending_name_matches : list Repo.Patient;
  matched_providers : list ProviderOption;
  selected_provider_id : option string;
  selected_provider_name : option string;
  available_slots : list SlotOption;
  selected_appointment_id : option string;
  selected_date : option string;
  selected_time : option string;
  messages : list string
}.

(** The default factory of [slots]. *)
Definition default_slots : gmap string Value :=
  list_to_map
    [ ("first_name", VNone); ("last_name", VNone); ("date_of_birth", VNone);
      ("phone", VNone); ("email", VNone);
      ("address_line1", VNone); ("address_line2", VNone); ("city", VNone);
      ("state", VNone); ("zip_code", VNone); ("address_validated", VBool false);
      ("insurance_payer", VNone); ("insurance_plan", VNone);
      ("insurance_member_id", VNone); ("insurance_group_id", VNone);
      ("chief_complaint", VNone); ("symptoms", VNone);
      ("symptom_duration", VNone); ("severity", VNone) ].

(** [ConversationState()] *)
Definition new_state : ConversationState :=
  {| current_state := GREET; patient_id := None; is_returning := false;
     slots := default_slots; address_validation_attempts := 0;
     pending_address_suggestion := None; pending_name_matches := [];
     matched_providers := []; selected_provider_id := None;
     selected_provider_name := None; available_slots := [];
     selected_appointment_id := None; selected_date := None;
     selected_time := None; messages := [] |}.

(** [d.get(k)]: [None] for a missing key. *)
Definition dict_get (d : gmap string Value) (k : string) : Value :=
  default VNone (d !! k).

(** [k in d] *)
Definition dict_has (d : gmap string Value) (k : string) : bool :=
  bool_decide (is_Some (d !! k)).

(** [d.update(items)] *)
Definition dict_update (d : gmap string Value) (items : list (string * Value))
  : gmap string Value :=
  fold_left (fun acc kv => <[kv.1 := kv.2]> acc) items d.

(** Attribute assignments. *)
Definition set_current_state (v : State) (s : ConversationState) :=
  {| current_state := v; patient_id := patient_id s;
     is_returning := is_returning s; slots := slots s;
     address_validation_attempts := address_validation_attempts s;
     pending_address_suggestion := pending_address_suggestion s;
     pending_name_matches := pending_name_matches s;
     matched_providers := matched_providers s;
     selected_provider_id := selected_provider_id s;
     selected_provider_name := selected_provider_name s;
     available_slots := available_slots s;
     selected_appointment_id := selected_appointment_id s;
     selected_date := selected_date s; selected_time := selected_time s;
     messages := messages s |}.

Definition set_slots (v : gmap string Value) (s : ConversationState) :=
  {| current_state := current_state s; patient_id := patient_id s;
     is_returning := is_returning s; slots := v;
     address_validation_attempts := address_validation_attempts s;
     pending_address_suggestion := pending_address_suggestion s;
     pending_name_matches := pending_name_matches s;
     matched_providers := matched_providers s;
     selected_provider_id := selected_provider_id s;
     selected_provider_name := selected_provider_name s;
     available_slots := available_slots s;
     selected_appointment_id := selected_appointment_id s;
     selected_date := selected_date s; selected_time := selected_time s;
     messages := messages s |}.

(** [state.slots[k] = v] *)
Definition set_slot (k : string) (v : Value) (s : ConversationState) :=
  set_slots (<[k := v]> (slots s)) s.

Definition set_attempts (v : Z) (s : ConversationState) :=
  {| current_state := current_state s; patient_id := patient_id s;
     is_returning := is_returning s; slots := slots s;
     address_validation_attempts := v;
     pending_address_suggestion := pending_address_suggestion s;
     pending_name_matches := pending_name_matches s;
     matched_providers := matched_providers s;
     selected_provider_id := selected_provider_id s;
     selected_provider_name := selected_provider_name s;
     available_slots := available_slots s;
     selected_appointment_id := selected_appointment_id s;
     selected_date := selected_date s; selected_time := selected_time s;
     messages := messages s |}.

Definition set_pending_address_suggestion (v : option string)
    (s : ConversationState) :=
  {| current_state := current_state s; patient_id := patient_id s;
     is_returning := is_returning s; slots := slots s;
     address_validation_attempts := address_validation_attempts s;
     pending_address_suggestion := v;
     pending_name_matches := pending_name_matches s;
     matched_providers := matched_providers s;
     selected_provider_id := selected_provider_id s;
     selected_provider_name := selected_provider_name s;
     available_slots := available_slots s;
     selected_appointment_id := selected_appointment_id s;
     selected_date := selected_date s; selected_time := selected_time s;
     messages := messages s |}.

Definition set_pending_name_matches (v : list Repo.Patient)
    (s : ConversationState) :=
  {| current_state := current_state s; patient_id := patient_id s;
     is_returning := is_returning s; slots := slots s;
     address_validation_attempts := address_validation_attempts s;
     pending_address_suggestion := pending_address_suggestion s;
     pending_name_matches := v;
     matched_providers := matched_providers s;
     selected_provider_id := selected_provider_id s;
     selected_provider_name := selected_provider_name s;
     available_slots := available_slots s;
     selected_appointment_id := selected_appointment_id s;
     selected_date := selected_date s; selected_time := selected_time s;
     messages := messages s |}.

(** [state.is_returning = True; state.patient_id = pid] *)
Definition set_returning (pid : string) (s : ConversationState) :=
  {| current_state := current_state s; patient_id := Some pid;
     is_returning := true; slots := slots s;
     address_validation_attempts := address_validation_attempts s;
     pending_address_suggestion := pending_address_suggestion s;
     pending_name_matches := pending_name_matches s;
     matched_providers := matched_providers s;
     selected_provider_id := selected_provider_id s;
     selected_provider_name := selected_provider_name s;
     available_slots := available_slots s;
     selected_appointment_id := selected_appointment_id s;
     selected_date := selected_date s; selected_time := selected_time s;
     messages := messages s |}.

Definition set_matched_providers (v : list ProviderOption)
    (s : ConversationState) :=
  {| current_state := current_state s; patient_id := patient_id s;
     is_returning := is_returning s; slots := slots s;
     address_validation_attempts := address_validation_attempts s;
     pending_address_suggestion := pending_address_suggestion s;
     pending_name_matches := pending_name_matches s;
     matched_providers := v;
     selected_provider_id := selected_provider_id s;
     selected_provider_name := selected_provider_name s;
     available_slots := available_slots s;
     selected_appointment_id := selected_appointment_id s;
     selected_date := selected_date s; selected_time := selected_time s;
     messages := messages s |}.

(** [state.selected_provider_id = i; state.selected_provider_name = n] *)
Definition set_selected_provider (i n : string) (s : ConversationState) :=
  {| current_state := current_state s; patient_id := patient_id s;
     is_returning := is_returning s; slots := slots s;
     address_validation_attempts := address_validation_attempts s;
     pending_address_suggestion := pending_address_suggestion s;
     pending_name_matches := pending_name_matches s;
     matched_providers := matched_providers s;
     selected_provider_id := Some i;
     selected_provider_name := Some n;
     available_slots := available_slots s;
     selected_appointment_id := selected_appointment_id s;
     selected_date := selected_date s; selected_time := selected_time s;
     messages := messages s |}.

Definition set_available_slots (v : list SlotOption) (s : ConversationState) :=
  {| current_state := current_state s; patient_id := patient_id s;
     is_returning := is_returning s; slots := slots s;
     address_validation_attempts := address_validation_attempts s;
     pending_address_suggestion := pending_address_suggestion s;
     pending_name_matches := pending_name_matches s;
     matched_providers := matched_providers s;
     selected_provider_id := selected_provider_id s;
     selected_provider_name := selected_provider_name s;
     available_slots := v;
     selected_appointment_id := selected_appointment_id s;
     selected_date := selected_date s; selected_time := selected_time s;
     messages := messages s |}.

(** The three assignments of a chosen appointment slot. *)
Definition set_selected_appointment (o : SlotOption) (s : ConversationState) :=
  {| current_state := current_state s; patient_id := patient_id s;
     is_returning := is_returning s; slots := slots s;
     address_validation_attempts := address_validation_attempts s;
     pending_address_suggestion := pending_address_suggestion s;
     pending_name_matches := pending_name_matches s;
     matched_providers := matched_providers s;
     selected_provider_id := selected_provider_id s;
     selected_provider_name := selected_provider_name s;
     available_slots := available_slots s;
     selected_appointment_id := Some (so_id o);
     selected_date := Some (so_date o); selected_time := Some (so_time o);
     messages := messages s |}.


(** *** Regular-expression steps used by the shape checks *)

(** [\d{n}]: exactly [n] digits, returning the rest. *)
Fixpoint eat_digits (n : nat) (s : string) : option string :=
  match n with
  | O => Some s
  | S n' =>
      match s with
      | String c r => if PyStr.is_digit c then eat_digits n' r else None
      | EmptyString => None
      end
  end.

(** One literal character. *)
Definition eat_char (x : ascii) (s : string) : option string :=
  match s with
  | String c r => if Ascii.eqb c x then Some r else None
  | EmptyString => None
  end.

(** [$] without [re.MULTILINE]: the end of the text, or the position of a
    line feed that is the last character. *)
Definition at_dollar (s : string) : bool :=
  match s with
  | EmptyString => true
  | String c EmptyString => Ascii.eqb c "010"%char
  | _ => false
  end.

(** [re.match(r"^\d{4}-\d{2}-\d{2}$", s)] *)
Definition match_dob (s : string) : bool :=
  match
    r1 ← eat_digits 4 s; r2 ← eat_char "-" r1;
    r3 ← eat_digits 2 r2; r4 ← eat_char "-" r3;
    eat_digits 2 r4
  with
  | Some rest => at_dollar rest
  | None => false
  end.

(** *** Methods of [ConversationState] *)

Definition _is_valid_slot (slot : string) (value : Value) : bool :=
  if negb (py_truthy value) then false
  else if String.eqb slot "phone" then
    let digits := py_str value in
    (0 <? Z.of_nat (String.length digits))
    && PyStr.isdigit (PyStr.remove_char " " (PyStr.remove_char "-" digits))
  else if String.eqb slot "date_of_birth" then match_dob (py_str value)
  else if String.eqb slot "zip_code" then PyStr.isdigit (py_str value)
  else true.

(** The test of the loop body of [get_missing_slots]. *)
Definition slot_is_missing (s : ConversationState) (slot : string) : bool :=
  let value := dict_get (slots s) slot in
  negb (py_truthy value) || negb (_is_valid_slot slot value).

Definition get_missing_slots (s : ConversationState) (phase : State)
  : list string :=
  match PHASE_REQUIREMENTS phase with
  | None => []
  | Some required =>
      fold_left
        (fun missing slot =>
           if slot_is_missing s slot then (missing ++ [slot])%list else missing)
        required []
  end.

Definition get_invalid_slots (s : ConversationState) (phase : State)
  : list (string * string) := [].

Definition is_phase_complete (s : ConversationState) (phase : State) : bool :=
  (length (get_missing_slots s phase) =? 0)%nat.

Definition is_not_None (v : Value) : bool :=
  match v with VNone => false | _ => true end.

(** One iteration of the loop of [merge_slots] over [extracted.items()]. *)
Definition merge_step (acc : ConversationState * list string)
    (item : string * Value) : ConversationState * list string :=
  let '(st, changed) := acc in
  let '(key, value) := item in
  if is_not_None value && dict_has (slots st) key then
    if negb (py_eq (dict_get (slots st) key) value)
    then (set_slot key value st, (changed ++ [key])%list)
    else (st, changed)
  else (st, changed).

(** [merge_slots]: the mutated state and the list of changed slots.  The
    payload is a dictionary, given by its items in iteration order. *)
Definition merge_slots (s : ConversationState) (extracted : list (string * Value))
  : ConversationState * list string :=
  fold_left merge_step extracted (s, []).

Definition nonempty_list {A} (l : list A) : bool :=
  match l with [] => false | _ => true end.

Definition get_next_state (s : ConversationState) : State :=
  match current_state s with
  | GREET => CHECK_PATIENT
  | CHECK_PATIENT => if is_returning s then CONFIRM_RETURNING else COLLECT_PATIENT
  | CONFIRM_RETURNING => COLLECT_MEDICAL
  | COLLECT_PATIENT =>
      if is_phase_complete s COLLECT_PATIENT then CONFIRM_PATIENT
      else COLLECT_PATIENT
  | CONFIRM_PATIENT => COLLECT_INSURANCE
  | COLLECT_INSURANCE =>
      if is_phase_complete s COLLECT_INSURANCE then CONFIRM_INSURANCE
      else COLLECT_INSURANCE
  | CONFIRM_INSURANCE => COLLECT_ADDRESS
  | COLLECT_ADDRESS =>
      if is_phase_complete s COLLECT_ADDRESS then VALIDATE_ADDRESS
      else COLLECT_ADDRESS
  | VALIDATE_ADDRESS =>
      if is_not_None (dict_get (slots s) "address_validated")
      then CONFIRM_ADDRESS else COLLECT_ADDRESS
  | CONFIRM_ADDRESS => COLLECT_MEDICAL
  | COLLECT_MEDICAL =>
      if is_phase_complete s COLLECT_MEDICAL then QUERY_PROVIDERS
      else COLLECT_MEDICAL
  | QUERY_PROVIDERS =>
      if nonempty_list (matched_providers s) then SELECT_PROVIDER
      else QUERY_PROVIDERS
  | SELECT_PROVIDER =>
      if opt_truthy (selected_provider_id s) then SELECT_TIME
      else SELECT_PROVIDER
  | SELECT_TIME =>
      if opt_truthy (selected_appointment_id s) then CONFIRM else SELECT_TIME
  | CONFIRM => END
  | VERIFY_DOB | END => END
  end.

(** ** slot_extractor.py *)

(** [re.sub(pattern, repl, s)] for a pattern that is one character class:
    the scan replaces every character of the class and copies the others. *)
Fixpoint re_sub_class (cls : ascii -> bool) (repl : string) (s : string)
  : string :=
  match s with
  | EmptyString => EmptyString
  | String c r =>
      if cls c then repl +:+ re_sub_class cls repl r
      else String c (re_sub_class cls repl r)
  end.

(** The class [\D]. *)
Definition non_digit (c : ascii) : bool := negb (PyStr.is_digit c).

(** [s.startswith(c)] for a one-character prefix. *)
Definition startswith_char (x : ascii) (s : string) : bool :=
  match s with
  | String c _ => Ascii.eqb c x
  | EmptyString => false
  end.

(** [s[1:]] *)
Definition drop_first (s : string) : string :=
  match s with
  | String _ r => r
  | EmptyString => EmptyString
  end.

(** [ExtractedSlots.normalize_phone]; the argument is the raw field, a
    string or [None]. *)
Definition normalize_phone (v : option string) : option string :=
  match v with
  | None => None
  | Some v =>
      if negb (PyStr.nonempty v) then None
      else
        let digits := re_sub_class non_digit "" v in
        if negb (PyStr.nonempty digits) then None
        else if (String.length digits =? 11)%nat && startswith_char "1" digits
        then Some (drop_first digits)
        else Some digits
  end.

(** [UserIntent] without the nested [extracted_slots], which no handler
    reads. *)
Record UserIntent := {
  is_affirmative : bool;
  is_negative : bool;
  wants_to_update : bool;
  field_to_update : option string;
  is_greeting : bool
}.

(** ** address_validator.py: the result record *)

Record AddressValidationResult := {
  is_valid : bool;
  input_address : string;
  suggested_address : option string;
  corrected_components : option (list (string * Value))
}.

(** ** conversation.py *)

Definition FIELD_NAMES : list (string * string) :=
  [ ("first_name", "first name"); ("last_name", "last name");
    ("date_of_birth", "date of birth"); ("phone", "phone number");
    ("email", "email address"); ("address_line1", "street address");
    ("address_line2", "apartment/suite"); ("city", "city");
    ("state", "state"); ("zip_code", "ZIP code");
    ("insurance_payer", "insurance provider");
    ("insurance_plan", "insurance plan type");
    ("insurance_member_id", "member ID"); ("insurance_group_id", "group ID");
    ("chief_complaint", "reason for visit"); ("symptoms", "symptoms");
    ("symptom_duration", "symptom duration"); ("severity", "severity (1-10)") ].

(** [FIELD_NAMES.get(f, f)] *)
Definition field_name (f : string) : string :=
  match find (fun kv => String.eqb (fst kv) f) FIELD_NAMES with
  | Some kv => snd kv
  | None => f
  end.

(** [sep.join(parts)] *)
Fixpoint str_join (sep : string) (parts : list string) : string :=
  match parts with
  | [] => ""
  | [p] => p
  | p :: ps => p +:+ sep +:+ str_join sep ps
  end.

(** The first element of [re.findall(r'\d+', text)]: the first maximal
    run of digits, if the text has a digit. *)
Definition first_number (text : string) : option string :=
  let rest := PyStr.drop_while non_digit text in
  if PyStr.nonempty rest then Some (PyStr.take_while PyStr.is_digit rest)
  else None.

(** [interpret_selection]: [content] is the text returned by the language
    model for the prompt built from the utterance and the options; the
    function parses it into a zero-based index. *)
Definition interpret_selection {A} (user_input : string) (options : list A)
    (option_type : string) (content : string) : option Z :=
  if negb (nonempty_list options) then None
  else
    let result := PyStr.strip content in
    match first_number result with
    | Some number =>
        let selection := PyStr.int_of_digits 0 number in
        if (1 <=? selection) && (selection <=? Z.of_nat (length options))
        then Some (selection - 1)
        else None
    | None => None
    end.

(** What a handler returns: text of the generation layer, which reads the
    state and never writes it.  [Generated] is a call of
    [generate_response], [Llm] a call of [generate_llm_response] with the
    given task. *)
Inductive Reply :=
| Generated (newly_filled : list string)
| Llm (task : string)
| Said (text : string)
| Cat (a b : Reply).

(** ** main.py: the reverse parser of a suggested address *)

(** A literal matched with [re.IGNORECASE]. *)
Fixpoint eat_literal_ci (lit s : string) : option string :=
  match lit with
  | EmptyString => Some s
  | String l lit' =>
      match s with
      | String c r =>
          if Ascii.eqb (PyStr.lower_char c) (PyStr.lower_char l)
          then eat_literal_ci lit' r else None
      | EmptyString => None
      end
  end.

(** The alternation [(USA|US|United States)] followed by [$], tried in
    the order written; the result is the text left after the match. *)
Definition match_country_token (s : string) : option string :=
  let try lit :=
    match eat_literal_ci lit s with
    | Some rest => if at_dollar rest then Some rest else None
    | None => None
    end in
  match try "USA" with
  | Some rest => Some rest
  | None =>
      match try "US" with
      | Some rest => Some rest
      | None => try "United States"
      end
  end.

(** [,?\s*(USA|US|United States)$] at the start of [s].  Both [,?] and
    [\s*] are greedy and what follows each of them can start neither with
    a comma nor with white space, so giving back a character never helps:
    the comma is taken when present and the white space is taken whole. *)
Definition match_country_suffix (s : string) : option string :=
  let after_comma :=
    match eat_char "," s with Some r => r | None => s end in
  match_country_token (PyStr.drop_while PyStr.is_space after_comma).

(** [re.sub(r",?\s*(USA|US|United States)$", "", s, flags=re.IGNORECASE)]:
    the scan looks for a match at every position from the left; a match
    reaches the end of the text (or the final line feed), which is kept. *)
Fixpoint sub_country (s : string) : string :=
  match match_country_suffix s with
  | Some rest => rest
  | None =>
      match s with
      | EmptyString => EmptyString
      | String c r => String c (sub_country r)
      end
  end.

(** [[A-Z]{2}]: two upper-case letters, returned with the rest. *)
Definition eat_two_upper (s : string) : option (string * string) :=
  match s with
  | String a (String b r) =>
      if PyStr.is_upper a && PyStr.is_upper b
      then Some (String a (String b EmptyString), r) else None
  | _ => None
  end.

(** [\s+]: at least one white-space character; the digits that follow
    cannot start with white space, so the run is taken whole. *)
Definition eat_spaces1 (s : string) : option string :=
  match s with
  | String c r =>
      if PyStr.is_space c then Some (PyStr.drop_while PyStr.is_space r)
      else None
  | EmptyString => None
  end.

(** [\d{5}] as a group: the five digits and the rest. *)
Definition eat_zip (s : string) : option (string * string) :=
  match eat_digits 5 s with
  | Some rest => Some (substring 0 5 s, rest)
  | None => None
  end.

(** [(?:-\d{4})?$]: the optional group is tried first, then skipped. *)
Definition match_plus4_end (s : string) : bool :=
  match r ← eat_char "-" s; eat_digits 4 r with
  | Some rest => at_dollar rest || at_dollar s
  | None => at_dollar s
  end.

(** [re.match(r"^([A-Z]{2})\s+(\d{5})(?:-\d{4})?$", s)]: the two groups. *)
Definition match_state_zip (s : string) : option (string * string) :=
  match eat_two_upper s with
  | Some (st, r1) =>
      match r2 ← eat_spaces1 r1; eat_zip r2 with
      | Some (zip, r3) => if match_plus4_end r3 then Some (st, zip) else None
      | None => None
      end
  | None => None
  end.

(** [parse_suggested_address]: the resulting dictionary by its items in
    insertion order, or [None]. *)
Definition parse_suggested_address (suggested : string)
  : option (list (string * Value)) :=
  let suggested := sub_country (PyStr.strip suggested) in
  let parts := map PyStr.strip (PyStr.split_on "," suggested) in
  match parts with
  | p0 :: p1 :: p2 :: _ =>
      let result := [("address_line1", VStr p0); ("city", VStr p1)] in
      let state_zip := PyStr.strip p2 in
      match match_state_zip state_zip with
      | Some (st, zip) =>
          Some (result ++ [("state", VStr st); ("zip_code", VStr zip)])%list
      | None =>
          if (String.length state_zip =? 2)%nat && PyStr.isalpha state_zip
          then Some (result ++ [("state", VStr (PyStr.upper state_zip))])%list
          else None
      end
  | _ => None
  end.

(** ** provider_repository.py *)

Module ProviderRepo.

(** The columns of a provider that the handlers read. *)
Record Provider := {
  id : string;
  name : string;
  specialty : option string;
  rating : Z
}.

(** A row of the table [appointments]; [id] is its primary key. *)
Record Appointment := {
  appt_id : string;
  provider_id : string;
  date : string;
  time : string;
  status : string;
  patient_id : option string;
  visit_id : option string;
  reason : option string;
  notes : option string;
  booked_at : option string
}.

(** The [WHERE] clause of the booking update. *)
Definition bookable (appointment_id : string) (row : Appointment) : bool :=
  String.eqb (appt_id row) appointment_id
  && negb (bool_decide (is_Some (patient_id row)))
  && String.eqb (status row) "available".

(** The [SET] clause of the booking update. *)
Definition book_row (patient visit reason' now : option string)
    (row : Appointment) : Appointment :=
  {| appt_id := appt_id row; provider_id := provider_id row;
     date := date row; time := time row; status := "booked";
     patient_id := patient; visit_id := visit; reason := reason';
     notes := notes row; booked_at := now |}.

(** [UPDATE appointments SET ... WHERE ...]: the new table. *)
Definition update_where (appointment_id : string)
    (patient visit reason' now : option string) (table : list Appointment)
  : list Appointment :=
  map (fun row =>
         if bookable appointment_id row
         then book_row patient visit reason' now row else row) table.

(** [cursor.rowcount] after the update. *)
Definition rowcount (appointment_id : string) (table : list Appointment) : nat :=
  length (filter (fun row => bookable appointment_id row = true) table).

(** [get_appointment_by_id] *)
Definition get_appointment_by_id (table : list Appointment)
    (appointment_id : string) : option Appointment :=
  find (fun row => String.eqb (appt_id row) appointment_id) table.

(** [book_appointment]: the table after the call and the returned
    appointment; [now] is the time stamp taken at the start. *)
Definition book_appointment (table : list Appointment)
    (appointment_id : string) (patient : string)
    (visit reason' : option string) (now : string)
  : list Appointment * option Appointment :=
  let updated :=
    update_where appointment_id (Some patient) visit reason' (Some now) table in
  if (rowcount appointment_id table =? 0)%nat then (table, None)
  else (updated, get_appointment_by_id updated appointment_id).

End ProviderRepo.

(** ** main.py: the turn dispatcher

    The external collaborators are assumed to return.  Their answers
    during one turn are gathered in a [Turn]; a handler is a function of
    the state and of the turn.  The persistence calls of the final
    confirmation write the external store only.

    The outcome of a handler covers its own subscripts of the slot
    dictionary.  A reply [Generated] stands for the text of
    [generate_response]; the subscripts read while that text is built are
    those of [response_subscripts] below, and come after every assignment
    of the handler.  An error of the store in the final confirmation is
    raised before the assignment of the phase and leaves the state as it
    was before the turn. *)

Record Turn := {
  user_input : string;
  (** [extract_slots(user_input).model_dump(exclude_none=True)] *)
  extracted : list (string * Value);
  (** [classify_intent(user_input)] *)
  intent : UserIntent;
  (** [repo.find_existing_patient(...)] *)
  existing_patient : option Repo.Patient;
  (** [repo.find_patients_by_name(first_name, last_name)] *)
  patients_by_name : list Repo.Patient;
  (** [validate_address(...)] *)
  validation : AddressValidationResult;
  (** the three calls of [provider_repo.find_providers] *)
  providers_by_condition : list ProviderRepo.Provider;
  providers_by_insurance : list ProviderRepo.Provider;
  providers_any : list ProviderRepo.Provider;
  (** [provider_repo.get_available_slots(provider_id, limit=10)] *)
  provider_slots : list ProviderRepo.Appointment;
  (** the text of the language model inside [interpret_selection] *)
  selection_content : string
}.

Inductive Error := KeyError (key : string).

(** A handler returns a reply, or raises after some of its assignments. *)
Inductive Outcome :=
| Done (s : ConversationState) (r : Reply)
| Raised (s : ConversationState) (e : Error).

Definition final_state (o : Outcome) : ConversationState :=
  match o with Done s _ => s | Raised s _ => s end.

(** [handler(...) + text] *)
Definition then_say (o : Outcome) (text : string) : Outcome :=
  match o with
  | Done s r => Done s (Cat r (Said text))
  | Raised s e => Raised s e
  end.

(** [text + handler(...)] *)
Definition say_then (r : Reply) (o : Outcome) : Outcome :=
  match o with
  | Done s r' => Done s (Cat r r')
  | Raised s e => Raised s e
  end.

(** ["yes" in user_input.lower().split()] and the like. *)
Definition says (word : string) (t : Turn) : bool :=
  PyStr.mem word (PyStr.split (PyStr.lower (user_input t))).

Definition handle_greet (s : ConversationState) (t : Turn) : Outcome :=
  Done (set_current_state CHECK_PATIENT s) (Generated []).

Definition _set_returning_patient (s : ConversationState)
    (patient : Repo.Patient) : Outcome :=
  let s := set_returning (Repo.id patient) s in
  let s :=
    set_slots
      (dict_update (slots s)
         [ ("first_name", VStr (Repo.first_name patient));
           ("last_name", VStr (Repo.last_name patient));
           ("date_of_birth", VStr (Repo.date_of_birth patient));
           ("phone", VStr (Repo.phone patient));
           ("email", of_opt (Repo.email patient));
           ("address_line1", of_opt (Repo.address_line1 patient));
           ("address_line2", of_opt (Repo.address_line2 patient));
           ("city", of_opt (Repo.city patient));
           ("state", of_opt (Repo.state patient));
           ("zip_code", of_opt (Repo.zip_code patient));
           ("address_validated", VBool (Repo.address_validated patient));
           ("insurance_payer", of_opt (Repo.insurance_payer patient));
           ("insurance_plan", of_opt (Repo.insurance_plan patient));
           ("insurance_member_id", of_opt (Repo.insurance_member_id patient));
           ("insurance_group_id", of_opt (Repo.insurance_group_id patient)) ])
      s in
  Done (set_current_state CONFIRM_RETURNING s) (Generated []).

Definition handle_check_patient (s : ConversationState) (t : Turn) : Outcome :=
  let s := fst (merge_slots s (extracted t)) in
  match existing_patient t with
  | Some patient => _set_returning_patient s patient
  | None =>
      let first_name := dict_get (slots s) "first_name" in
      let last_name := dict_get (slots s) "last_name" in
      let name_matches :=
        if py_truthy first_name && py_truthy last_name
           && negb (py_truthy (dict_get (slots s) "date_of_birth"))
        then patients_by_name t else [] in
      if nonempty_list name_matches then
        Done (set_current_state VERIFY_DOB
                (set_pending_name_matches name_matches s))
             (Llm ("Found " +:+ PyStr.str_of_Z (Z.of_nat (length name_matches))
                   +:+ " patient(s) named " +:+ py_str first_name +:+ " "
                   +:+ py_str last_name
                   +:+ ". Ask for their date of birth to verify identity."))
      else if is_negative (intent t) || says "no" t then
        Done (set_current_state COLLECT_PATIENT s) (Generated [])
      else if py_truthy (dict_get (slots s) "phone") || py_truthy first_name then
        Done (set_current_state COLLECT_PATIENT s)
             (Llm "Patient not found in system. Let them know and start collecting their registration info (name, DOB, phone).")
      else Done s (Generated [])
  end.

Definition handle_verify_dob (s : ConversationState) (t : Turn) : Outcome :=
  let s := fst (merge_slots s (extracted t)) in
  let dob := dict_get (slots s) "date_of_birth" in
  if negb (py_truthy dob) then
    Done s (Llm "Ask for date of birth to verify identity.")
  else
    match find (fun patient => py_eq (VStr (Repo.date_of_birth patient)) dob)
               (pending_name_matches s) with
    | Some patient =>
        _set_returning_patient (set_pending_name_matches [] s) patient
    | None =>
        Done (set_current_state COLLECT_PATIENT (set_pending_name_matches [] s))
             (Llm "DOB didn't match any records. Let them know and start collecting registration info as new patient.")
    end.

Definition nl : string := String "010"%char EmptyString.
Definition dquote : string := String "034"%char EmptyString.

(** The acknowledgement prefix built by [do_address_validation]. *)
Definition validation_ack (newly_filled : list string) : string :=
  if nonempty_list newly_filled then
    if (length newly_filled <=? 3)%nat
    then "Thanks! I've recorded your "
         +:+ str_join ", " (map field_name newly_filled) +:+ ". "
    else "Thanks for all that information! "
  else "".

(** The first of the subscripted keys that the dictionary lacks. *)
Definition first_missing_key (d : gmap string Value) (keys : list string)
  : option string :=
  find (fun k => negb (dict_has d k)) keys.

Definition do_address_validation (s : ConversationState) (t : Turn)
    (newly_filled : list string) : Outcome :=
  let s := set_attempts (address_validation_attempts s + 1) s in
  match first_missing_key (slots s)
          ["address_line1"; "city"; "state"; "zip_code"] with
  | Some k => Raised s (KeyError k)
  | None =>
      let result := validation t in
      let ack := validation_ack newly_filled in
      if is_valid result then
        let s := set_slot "address_validated" (VBool true) s in
        let s :=
          match corrected_components result with
          | Some (c :: cs) => set_slots (dict_update (slots s) (c :: cs)) s
          | _ => s
          end in
        Done (set_current_state CONFIRM_ADDRESS s)
             (Cat (Said (ack +:+ "Your address has been verified. "))
                  (Generated []))
      else if 2 <=? address_validation_attempts s then
        let s := set_slot "address_validated" (VBool false) s in
        Done (set_current_state CONFIRM_ADDRESS s)
             (Cat (Said (ack +:+ "I couldn't fully verify that address, but let's continue. "))
                  (Generated []))
      else
        let s := set_pending_address_suggestion (suggested_address result) s in
        let msg :=
          ack +:+ "The address " +:+ dquote +:+ input_address result
          +:+ dquote +:+ " could not be verified." in
        let msg :=
          if opt_truthy (suggested_address result) then
            msg +:+ nl +:+ nl +:+ "Did you mean: **"
            +:+ py_str (of_opt (suggested_address result)) +:+ "**?"
            +:+ nl +:+ nl
            +:+ "Reply 'yes' to use this address, or provide the correct address."
          else
            msg +:+ nl +:+ nl
            +:+ "Please double-check and provide the correct address." in
        Done (set_current_state VALIDATE_ADDRESS s) (Said msg)
  end.

Definition provider_option (p : ProviderRepo.Provider) : ProviderOption :=
  {| po_id := ProviderRepo.id p; po_name := ProviderRepo.name p;
     po_specialty := ProviderRepo.specialty p;
     po_rating := ProviderRepo.rating p |}.

Definition slot_option (a : ProviderRepo.Appointment) : SlotOption :=
  {| so_id := ProviderRepo.appt_id a; so_date := ProviderRepo.date a;
     so_time := ProviderRepo.time a |}.

Definition handle_query_providers (s : ConversationState) (t : Turn)
  : Outcome :=
  let providers := providers_by_condition t in
  let providers :=
    if nonempty_list providers then providers else providers_by_insurance t in
  let providers :=
    if nonempty_list providers then providers else providers_any t in
  if nonempty_list providers then
    Done (set_current_state SELECT_PROVIDER
            (set_matched_providers (map provider_option providers) s))
         (Generated [])
  else
    Done (set_current_state CONFIRM s)
         (Llm "No providers available at this time. Apologize and let them know we'll contact them when slots open up.").

Definition address_fields : list string :=
  ["address_line1"; "city"; "state"; "zip_code"].

(** [bool(address_fields & set(newly_filled))] *)
Definition touches_address (newly_filled : list string) : bool :=
  existsb (fun f => PyStr.mem f newly_filled) address_fields.

Definition anything_else : string :=
  nl +:+ nl +:+ "Anything else to update?".

Definition handle_confirm_returning (s : ConversationState) (t : Turn)
  : Outcome :=
  let i := intent t in
  let '(s, newly_filled) := merge_slots s (extracted t) in
  let address_changed := touches_address newly_filled in
  let s :=
    if address_changed
    then set_attempts 0 (set_slot "address_validated" VNone s)
    else s in
  if wants_to_update i || is_negative i then
    if nonempty_list newly_filled then
      if address_changed && is_phase_complete s COLLECT_ADDRESS
      then then_say (do_address_validation s t newly_filled) anything_else
      else Done s (Cat (Generated newly_filled) (Said anything_else))
    else if opt_truthy (field_to_update i) then
      Done s (Llm ("Patient wants to update their "
                   +:+ py_str (of_opt (field_to_update i))
                   +:+ ". Ask them for the new value."))
    else
      Done s (Llm "Ask what they'd like to update - phone, address, insurance, etc.")
  else if is_affirmative i then
    Done (set_current_state COLLECT_MEDICAL s) (Generated [])
  else if nonempty_list newly_filled then
    if address_changed && is_phase_complete s COLLECT_ADDRESS
    then then_say (do_address_validation s t newly_filled) anything_else
    else Done s (Cat (Generated newly_filled)
                     (Said (nl +:+ nl +:+ "Anything else to update, or is everything correct now?")))
  else
    Done s (Llm "Ask if their information is still correct or if they'd like to update anything.").

Definition handle_collection (s : ConversationState) (t : Turn) : Outcome :=
  let '(s, newly_filled) := merge_slots s (extracted t) in
  if is_phase_complete s (current_state s) then
    let next_state := get_next_state s in
    let s := set_current_state next_state s in
    if bool_decide (next_state = VALIDATE_ADDRESS) then
      do_address_validation s t newly_filled
    else if bool_decide (next_state = QUERY_PROVIDERS) then
      say_then (Cat (Generated newly_filled) (Said (nl +:+ nl)))
               (handle_query_providers s t)
    else Done s (Generated newly_filled)
  else Done s (Generated newly_filled).

Definition handle_validate_address (s : ConversationState) (t : Turn)
  : Outcome :=
  let accept :=
    if is_affirmative (intent t) || says "yes" t
    then opt_truthy (pending_address_suggestion s) else false in
  if accept then
    let suggested := py_str (of_opt (pending_address_suggestion s)) in
    let s :=
      match parse_suggested_address suggested with
      | Some (c :: cs) => set_slots (dict_update (slots s) (c :: cs)) s
      | _ => s
      end in
    let s := set_slot "address_validated" (VBool true) s in
    let s := set_pending_address_suggestion None s in
    Done (set_current_state CONFIRM_ADDRESS s)
         (Llm ("Confirm you've updated their address to: " +:+ suggested
               +:+ ". Ask if this is correct."))
  else
    let '(s, newly_filled) := merge_slots s (extracted t) in
    let s := set_pending_address_suggestion None s in
    if is_phase_complete s COLLECT_ADDRESS
    then do_address_validation s t newly_filled
    else Done s (Generated newly_filled).

(** The loop body of [advance_to_next_actionable_state]; every branch
    returns, so the loop runs once. *)
Definition advance_to_next_actionable_state (s : ConversationState) (t : Turn)
  : Outcome :=
  match current_state s with
  | COLLECT_PATIENT =>
      if is_phase_complete s COLLECT_PATIENT
      then Done (set_current_state CONFIRM_PATIENT s) (Generated [])
      else Done s (Generated [])
  | COLLECT_INSURANCE =>
      if is_phase_complete s COLLECT_INSURANCE
      then Done (set_current_state CONFIRM_INSURANCE s) (Generated [])
      else Done s (Generated [])
  | COLLECT_ADDRESS =>
      if is_phase_complete s COLLECT_ADDRESS
      then do_address_validation (set_current_state VALIDATE_ADDRESS s) t []
      else Done s (Generated [])
  | COLLECT_MEDICAL =>
      if is_phase_complete s COLLECT_MEDICAL
      then handle_query_providers (set_current_state QUERY_PROVIDERS s) t
      else Done s (Generated [])
  | _ => Done s (Generated [])
  end.

Definition is_this_correct : string := nl +:+ nl +:+ "Is this correct now?".

Definition handle_phase_confirm (s : ConversationState) (t : Turn)
    (phase next_state : State) : Outcome :=
  let i := intent t in
  if is_affirmative i || says "yes" t then
    advance_to_next_actionable_state (set_current_state next_state s) t
  else if is_negative i || wants_to_update i then
    let '(s, newly_filled) := merge_slots s (extracted t) in
    if nonempty_list newly_filled
    then Done s (Cat (Generated newly_filled) (Said is_this_correct))
    else Done s (Llm "Ask what they'd like to correct.")
  else
    let '(s, newly_filled) := merge_slots s (extracted t) in
    if nonempty_list newly_filled
    then Done s (Cat (Generated newly_filled) (Said is_this_correct))
    else Done s (Llm "Ask them to confirm if the information is correct or what needs to be changed.").

Definition handle_confirm_patient (s : ConversationState) (t : Turn) :=
  handle_phase_confirm s t CONFIRM_PATIENT COLLECT_INSURANCE.

Definition handle_confirm_insurance (s : ConversationState) (t : Turn) :=
  handle_phase_confirm s t CONFIRM_INSURANCE COLLECT_ADDRESS.

Definition handle_confirm_address (s : ConversationState) (t : Turn) :=
  handle_phase_confirm s t CONFIRM_ADDRESS COLLECT_MEDICAL.

(** The subscript of [save_patient_data] that raises, if any: a new
    patient record reads four slots by subscript. *)
Definition save_patient_data_error (s : ConversationState) : option string :=
  if is_returning s && opt_truthy (patient_id s) then None
  else first_missing_key (slots s)
         ["first_name"; "last_name"; "date_of_birth"; "phone"].

Definition generate_end_message : string :=
  "Thank you! Your appointment has been booked. We look forward to seeing you!"
  +:+ nl +:+ nl +:+ "Take care!".

Definition handle_confirm (s : ConversationState) (t : Turn) : Outcome :=
  let i := intent t in
  if is_affirmative i || says "yes" t then
    match save_patient_data_error s with
    | Some k => Raised s (KeyError k)
    | None => Done (set_current_state END s) (Said generate_end_message)
    end
  else if is_negative i then
    Done s (Llm "Ask what they'd like to correct before booking.")
  else
    let '(s, newly_filled) := merge_slots s (extracted t) in
    if nonempty_list newly_filled
    then Done s (Llm "Show updated info and ask them to confirm everything is correct to book.")
    else Done s (Llm "Show the final appointment summary and ask them to confirm everything is correct to book it.").

(** [selected_idx is not None and 0 <= selected_idx < len(options)] *)
Definition valid_index {A} (selected_idx : option Z) (options : list A)
  : option nat :=
  match selected_idx with
  | Some i =>
      if (0 <=? i) && (i <? Z.of_nat (length options))
      then Some (Z.to_nat i) else None
  | None => None
  end.

(** The body of [handle_select_provider] after the interpretation of
    the utterance. *)
Definition select_provider (s : ConversationState) (t : Turn)
    (selected_idx : option Z) : Outcome :=
  match i ← valid_index selected_idx (matched_providers s);
        matched_providers s !! i with
  | Some provider =>
      let s := set_selected_provider (po_id provider) (po_name provider) s in
      let s := set_available_slots (map slot_option (provider_slots t)) s in
      if nonempty_list (available_slots s) then
        Done (set_current_state SELECT_TIME s) (Generated [])
      else
        Done s (Llm (po_name provider +:+ " has no available appointments. Apologize and ask them to select another provider from the list."))
  | None =>
      Done s (Llm "Couldn't understand which provider they want. Ask them to pick one from the list by number or name.")
  end.

Definition handle_select_provider (s : ConversationState) (t : Turn)
  : Outcome :=
  select_provider s t
    (interpret_selection (user_input t) (matched_providers s) "provider"
       (selection_content t)).

(** The body of [handle_select_time] after the interpretation of the
    utterance. *)
Definition select_time (s : ConversationState) (t : Turn)
    (selected_idx : option Z) : Outcome :=
  match i ← valid_index selected_idx (available_slots s);
        available_slots s !! i with
  | Some slot =>
      Done (set_current_state CONFIRM (set_selected_appointment slot s))
           (Llm "Show the final appointment summary and ask them to confirm everything is correct to book it.")
  | None =>
      Done s (Llm "Couldn't understand which time slot they want. Ask them to pick one from the list.")
  end.

Definition handle_select_time (s : ConversationState) (t : Turn) : Outcome :=
  select_time s t
    (interpret_selection (user_input t) (available_slots s) "time"
       (selection_content t)).

(** [STATE_HANDLERS.get(state.current_state)] and the call; [END] has no
    handler. *)
Definition process_input (s : ConversationState) (t : Turn) : Outcome :=
  match current_state s with
  | GREET => handle_greet s t
  | CHECK_PATIENT => handle_check_patient s t
  | VERIFY_DOB => handle_verify_dob s t
  | CONFIRM_RETURNING => handle_confirm_returning s t
  | COLLECT_PATIENT | COLLECT_INSURANCE | COLLECT_ADDRESS | COLLECT_MEDICAL =>
      handle_collection s t
  | CONFIRM_PATIENT => handle_confirm_patient s t
  | CONFIRM_INSURANCE => handle_confirm_insurance s t
  | VALIDATE_ADDRESS => handle_validate_address s t
  | CONFIRM_ADDRESS => handle_confirm_address s t
  | QUERY_PROVIDERS => handle_query_providers s t
  | SELECT_PROVIDER => handle_select_provider s t
  | SELECT_TIME => handle_select_time s t
  | CONFIRM => handle_confirm s t
  | END =>
      Done s (Llm "Something went wrong. Apologize and ask if they'd like to start over.")
  end.

(** The state at the first prompt of [main]: a new state moved to
    [CHECK_PATIENT] after the greeting. *)
Definition session_start : ConversationState :=
  set_current_state CHECK_PATIENT new_state.

(** The states of a session: [session_start] and every state after a turn
    of [process_input], whatever the collaborators answer. *)
Inductive reachable : ConversationState -> Prop :=
| reachable_start : reachable session_start
| reachable_step s t :
    reachable s -> reachable (final_state (process_input s t)).

(** ** Scenario data *)

(** The patient payload of the registration scenario. *)
Definition sample_payload : list (string * Value) :=
  [ ("first_name", VStr "Jane"); ("last_name", VStr "Smith");
    ("date_of_birth", VStr "1988-05-20"); ("phone", VStr "5559876543") ].

(** A turn in which the collaborators find nothing: only the utterance,
    the extracted payload, the intent and the validation result vary. *)
Definition quiet_intent : UserIntent :=
  {| is_affirmative := false; is_negative := false; wants_to_update := false;
     field_to_update := None; is_greeting := false |}.

Definition turn_of (text : string) (payload : list (string * Value))
    (i : UserIntent) (v : AddressValidationResult) : Turn :=
  {| user_input := text; extracted := payload; intent := i;
     existing_patient := None; patients_by_name := [];
     validation := v;
     providers_by_condition := []; providers_by_insurance := [];
     providers_any := []; provider_slots := []; selection_content := "" |}.

Definition failed_validation : AddressValidationResult :=
  {| is_valid := false; input_address := "1 Mian St, Oakland, CA 94601";
     suggested_address := None; corrected_components := None |}.

Definition city_update : Turn :=
  turn_of "I moved to Berkeley" [("city", VStr "Berkeley")] quiet_intent
    failed_validation.

(** A complete address in a new state. *)
Definition address_complete : ConversationState :=
  (merge_slots new_state
     [ ("address_line1", VStr "1 Mian St"); ("city", VStr "Oakland");
       ("state", VStr "CA"); ("zip_code", VStr "94601") ]).1.

Definition failing_turn : Turn :=
  turn_of "1 Mian St, Oakland CA 94601" [] quiet_intent failed_validation.




Definition two_providers : list ProviderOption :=
  [ {| po_id := "prov-001"; po_name := "Dr. One";
       po_specialty := Some "Family Medicine"; po_rating := 47 |};
    {| po_id := "prov-002"; po_name := "Dr. Two";
       po_specialty := None; po_rating := 45 |} ].

(** A state offering two providers. *)
Definition choosing_provider : ConversationState :=
  set_current_state SELECT_PROVIDER (set_matched_providers two_providers new_state).

(** ** Auxiliary predicates of the statements *)

(** An interpreted selection that names no option of the list: nothing,
    or an index outside the list. *)
Definition unresolved {A} (options : list A) (selected_idx : option Z) : Prop :=
  selected_idx = None
  \/ exists i, selected_idx = Some i /\ ~ (0 <= i < Z.of_nat (length options)).

(** The counter after a step: unchanged or one more. *)
Definition step_or_stay (a a' : Z) : Prop := a' = a \/ a' = a + 1.

Definition line_feed : string := String "010"%char EmptyString.

(** The language of [^([A-Z]{2})\s+(\d{5})(?:-\d{4})?$] with its two
    groups. *)
Definition state_zip_shape (s st zip : string) : Prop :=
  exists ws plus4 eol,
    s = st +:+ ws +:+ zip +:+ plus4 +:+ eol
    /\ String.length st = 2%nat /\ PyStr.all_chars PyStr.is_upper st = true
    /\ ws <> "" /\ PyStr.all_chars PyStr.is_space ws = true
    /\ String.length zip = 5%nat /\ PyStr.all_chars PyStr.is_digit zip = true
    /\ (plus4 = ""
        \/ exists d, plus4 = "-" +:+ d /\ String.length d = 4%nat
                     /\ PyStr.all_chars PyStr.is_digit d = true)
    /\ (eol = "" \/ eol = line_feed).

Definition country_tokens : list string := ["usa"; "us"; "united states"].

(** The language of [,?\s*(USA|US|United States)$] under [re.IGNORECASE];
    [eol] is the final line feed, if any, which the match leaves. *)
Definition country_suffix (x eol : string) : Prop :=
  exists comma ws tok,
    x = comma +:+ ws +:+ tok +:+ eol
    /\ (comma = "" \/ comma = ",")
    /\ PyStr.all_chars PyStr.is_space ws = true
    /\ PyStr.lower tok ∈ country_tokens
    /\ (eol = "" \/ eol = line_feed).

(** One alternative followed by [$]. *)
Definition try_token (lit s : string) : option string :=
  match eat_literal_ci lit s with
  | Some rest => if at_dollar rest then Some rest else None
  | None => None
  end.

(** The state after the turns [ts] of a session.  The main loop catches
    what a turn raises and goes on with the state as the turn left it; a
    turn in which the store fails leaves the state it started from, so the
    states of such a session are those of the session without that
    turn. *)
Definition run (ts : list Turn) : ConversationState :=
  fold_left (fun s t => final_state (process_input s t)) ts session_start.

(** The pending candidates and the pending suggestion after a turn are
    those before it, or nothing, or what the turn's collaborators gave. *)
Definition pending_ok (s : ConversationState) (t : Turn)
    (s' : ConversationState) : Prop :=
  (pending_name_matches s' = pending_name_matches s
   \/ pending_name_matches s' = []
   \/ pending_name_matches s' = patients_by_name t)
  /\ (pending_address_suggestion s' = pending_address_suggestion s
      \/ pending_address_suggestion s' = None
      \/ pending_address_suggestion s' = suggested_address (validation t)).

(** ** slot_extractor.py: the other normalisers *)

(** [s.zfill(width)]: zeros on the left up to the width, after a leading
    sign if there is one. *)
Definition zfill (width : nat) (s : string) : string :=
  let zeros := string_of_list_ascii
                 (repeat "0"%char (width - String.length s)) in
  match s with
  | String c r =>
      if Ascii.eqb c "+" || Ascii.eqb c "-" then String c (zeros +:+ r)
      else zeros +:+ s
  | EmptyString => zeros
  end.

(** [(\d{1,2})]: one or two digits, as many as there are; what follows the
    group in the patterns below is a separator, which is no digit, so a
    second digit is never given back. *)
Definition eat_digits_1_2 (s : string) : option (string * string) :=
  match s with
  | String a r =>
      if PyStr.is_digit a then
        match r with
        | String b r' =>
            if PyStr.is_digit b
            then Some (String a (String b EmptyString), r')
            else Some (String a EmptyString, r)
        | EmptyString => Some (String a EmptyString, r)
        end
      else None
  | EmptyString => None
  end.

(** [re.match(r"^(\d{1,2})SEP(\d{1,2})SEP(\d{4})$", s)]: the three
    groups. *)
Definition match_mdy (sep : ascii) (s : string)
  : option (string * string * string) :=
  match eat_digits_1_2 s with
  | Some (m, r1) =>
      match r2 ← eat_char sep r1; eat_digits_1_2 r2 with
      | Some (d, r3) =>
          match eat_char sep r3 with
          | Some r4 =>
              match eat_digits 4 r4 with
              | Some r5 =>
                  if at_dollar r5 then Some (m, d, substring 0 4 r4) else None
              | None => None
              end
          | None => None
          end
      | None => None
      end
  | None => None
  end.

(** The f-string of [normalize_dob]. *)
Definition ymd (m d y : string) : string :=
  y +:+ "-" +:+ zfill 2 m +:+ "-" +:+ zfill 2 d.

(** [ExtractedSlots.normalize_dob]; the argument is the raw field, a
    string or [None]. *)
Definition normalize_dob (v : option string) : option string :=
  match v with
  | None => None
  | Some v =>
      if negb (PyStr.nonempty v) then None
      else if match_dob v then Some v
      else
        match match_mdy "/" v with
        | Some (m, d, y) => Some (ymd m d y)
        | None =>
            match match_mdy "-" v with
            | Some (m, d, y) => Some (ymd m d y)
            | None => Some v
            end
        end
  end.

(** The table [states] of [normalize_state]. *)
Definition states : list (string * string) :=
  [ ("CALIFORNIA", "CA"); ("NEW YORK", "NY"); ("TEXAS", "TX");
    ("FLORIDA", "FL"); ("ILLINOIS", "IL"); ("PENNSYLVANIA", "PA");
    ("OHIO", "OH"); ("GEORGIA", "GA"); ("NORTH CAROLINA", "NC");
    ("MICHIGAN", "MI"); ("NEW JERSEY", "NJ"); ("VIRGINIA", "VA");
    ("WASHINGTON", "WA"); ("ARIZONA", "AZ"); ("MASSACHUSETTS", "MA");
    ("TENNESSEE", "TN"); ("INDIANA", "IN"); ("MISSOURI", "MO");
    ("MARYLAND", "MD"); ("WISCONSIN", "WI"); ("COLORADO", "CO");
    ("MINNESOTA", "MN"); ("SOUTH CAROLINA", "SC"); ("ALABAMA", "AL");
    ("LOUISIANA", "LA"); ("KENTUCKY", "KY"); ("OREGON", "OR");
    ("OKLAHOMA", "OK"); ("CONNECTICUT", "CT"); ("UTAH", "UT");
    ("IOWA", "IA"); ("NEVADA", "NV"); ("ARKANSAS", "AR");
    ("MISSISSIPPI", "MS"); ("KANSAS", "KS"); ("NEW MEXICO", "NM");
    ("NEBRASKA", "NE"); ("WEST VIRGINIA", "WV"); ("IDAHO", "ID");
    ("HAWAII", "HI"); ("NEW HAMPSHIRE", "NH"); ("MAINE", "ME");
    ("MONTANA", "MT"); ("RHODE ISLAND", "RI"); ("DELAWARE", "DE");
    ("SOUTH DAKOTA", "SD"); ("NORTH DAKOTA", "ND"); ("ALASKA", "AK");
    ("VERMONT", "VT"); ("WYOMING", "WY") ].

(** [states.get(v, v)] *)
Definition states_get (v : string) : string :=
  match find (fun kv => String.eqb (fst kv) v) states with
  | Some kv => snd kv
  | None => v
  end.

(** [ExtractedSlots.normalize_state] *)
Definition normalize_state (v : option string) : option string :=
  match v with
  | None => None
  | Some v =>
      if negb (PyStr.nonempty v) then None
      else
        let v := PyStr.upper (PyStr.strip v) in
        if (String.length v =? 2)%nat then Some v else Some (states_get v)
  end.

(** ** The order of the phases *)

(** The position of a phase in the declaration of [State]. *)
Definition phase_rank (p : State) : nat :=
  match p with
  | GREET => 0 | CHECK_PATIENT => 1 | VERIFY_DOB => 2 | CONFIRM_RETURNING => 3
  | COLLECT_PATIENT => 4 | CONFIRM_PATIENT => 5
  | COLLECT_INSURANCE => 6 | CONFIRM_INSURANCE => 7
  | COLLECT_ADDRESS => 8 | VALIDATE_ADDRESS => 9 | CONFIRM_ADDRESS => 10
  | COLLECT_MEDICAL => 11 | QUERY_PROVIDERS => 12 | SELECT_PROVIDER => 13
  | SELECT_TIME => 14 | CONFIRM => 15 | END => 16
  end.

(** ** Invariants of a session *)

(** A selection phase has something to select from: providers in both
    selection phases, and in the time selection also the slots of the
    chosen provider. *)
Definition choices_ready (s : ConversationState) : Prop :=
  (current_state s = SELECT_PROVIDER -> matched_providers s <> [])
  /\ (current_state s = SELECT_TIME ->
      matched_providers s <> [] /\ available_slots s <> []
      /\ is_Some (selected_provider_id s)).


(** ** address_validator.py *)

(** The fields of the dictionary of [validate_address_raw] that
    [validate_address] reads. *)
Record RawValidation := {
  raw_is_valid : bool;
  raw_formatted_address : option string
}.

(** [not address or not address.strip()] *)
Definition address_is_empty (address : string) : bool :=
  negb (PyStr.nonempty address) || negb (PyStr.nonempty (PyStr.strip address)).

(** [validate_address_raw]: [None] stands for [AddressValidationError];
    [api] is the request with the stripped address and the reading of
    the response. *)
Definition validate_address_raw (api : string -> option RawValidation)
    (address : string) : option RawValidation :=
  if address_is_empty address then None else api (PyStr.strip address).

(** The parts joined by [validate_address] and by
    [format_address_for_display]. *)
Definition address_parts (address_line1 city state zip_code : string)
    (address_line2 : option string) : list string :=
  (address_line1
   :: match address_line2 with
      | Some line2 => if PyStr.nonempty line2 then [line2] else []
      | None => []
      end
   ++ [city +:+ ", " +:+ state +:+ " " +:+ zip_code])%list.

Definition validate_address (api : string -> option RawValidation)
    (address_line1 city state zip_code : string)
    (address_line2 : option string) : AddressValidationResult :=
  let full_address :=
    str_join ", " (address_parts address_line1 city state zip_code address_line2) in
  match validate_address_raw api full_address with
  | Some result =>
      let suggested := raw_formatted_address result in
      let corrected :=
        if opt_truthy suggested
        then Some [ ("address_line1", VStr address_line1);
                    ("city", VStr city); ("state", VStr state);
                    ("zip_code", VStr zip_code) ]
        else None in
      {| is_valid := raw_is_valid result; input_address := full_address;
         suggested_address := suggested; corrected_components := corrected |}
  | None =>
      {| is_valid := false; input_address := full_address;
         suggested_address := None; corrected_components := None |}
  end.

Definition format_address_for_display
    (address_line1 city state zip_code : string)
    (address_line2 : option string) : string :=
  str_join nl (address_parts address_line1 city state zip_code address_line2).

(** A validator that accepts and suggests the corrected spelling. *)
Definition accepting_api (address : string) : option RawValidation :=
  Some {| raw_is_valid := true;
          raw_formatted_address := Some "1 Main St, Oakland, CA 94601, USA" |}.

Definition accepted_turn : Turn :=
  turn_of "" [] quiet_intent
    (validate_address accepting_api "1 Mian St" "Oakland" "CA" "94601" None).

(** A state that waits for the answer to a suggested address, and the
    answer that accepts it. *)
Definition suggestion_pending : ConversationState :=
  set_pending_address_suggestion (Some "1 Main St, Oakland, CA 94601, USA")
    (set_current_state VALIDATE_ADDRESS address_complete).

Definition yes_turn : Turn :=
  turn_of "yes" [("city", VStr "Berkeley")] quiet_intent failed_validation.

(** ** patient_repository.py and the update of a returning patient *)

Definition PATIENT_FIELDS : list string :=
  [ "first_name"; "last_name"; "date_of_birth"; "phone"; "email";
    "address_line1"; "address_line2"; "city"; "state"; "zip_code";
    "address_validated"; "insurance_payer"; "insurance_plan";
    "insurance_member_id"; "insurance_group_id" ].

(** A row of the table [patients], every column with the type of its
    declaration in the schema. *)
Record PatientRow := {
  row_id : string;
  row_first_name : string;
  row_last_name : string;
  row_date_of_birth : string;
  row_phone : string;
  row_email : option string;
  row_address_line1 : option string;
  row_address_line2 : option string;
  row_city : option string;
  row_state : option string;
  row_zip_code : option string;
  row_address_validated : option Z;
  row_insurance_payer : option string;
  row_insurance_plan : option string;
  row_insurance_member_id : option string;
  row_insurance_group_id : option string;
  row_created_at : option string;
  row_updated_at : option string
}.

Definition of_opt_int (o : option Z) : Value :=
  match o with Some n => VInt n | None => VNone end.

(** [dict(row)] *)
Definition dict_row (row : PatientRow) : gmap string Value :=
  list_to_map
    [ ("id", VStr (row_id row)); ("first_name", VStr (row_first_name row));
      ("last_name", VStr (row_last_name row));
      ("date_of_birth", VStr (row_date_of_birth row));
      ("phone", VStr (row_phone row)); ("email", of_opt (row_email row));
      ("address_line1", of_opt (row_address_line1 row));
      ("address_line2", of_opt (row_address_line2 row));
      ("city", of_opt (row_city row)); ("state", of_opt (row_state row));
      ("zip_code", of_opt (row_zip_code row));
      ("address_validated", of_opt_int (row_address_validated row));
      ("insurance_payer", of_opt (row_insurance_payer row));
      ("insurance_plan", of_opt (row_insurance_plan row));
      ("insurance_member_id", of_opt (row_insurance_member_id row));
      ("insurance_group_id", of_opt (row_insurance_group_id row));
      ("created_at", of_opt (row_created_at row));
      ("updated_at", of_opt (row_updated_at row)) ].

Definition _row_to_patient (row : PatientRow) : Repo.Patient :=
  {| Repo.id := row_id row; Repo.first_name := row_first_name row;
     Repo.last_name := row_last_name row;
     Repo.date_of_birth := row_date_of_birth row;
     Repo.phone := row_phone row; Repo.email := row_email row;
     Repo.address_line1 := row_address_line1 row;
     Repo.address_line2 := row_address_line2 row;
     Repo.city := row_city row; Repo.state := row_state row;
     Repo.zip_code := row_zip_code row;
     Repo.address_validated :=
       py_truthy (of_opt_int (row_address_validated row));
     Repo.insurance_payer := row_insurance_payer row;
     Repo.insurance_plan := row_insurance_plan row;
     Repo.insurance_member_id := row_insurance_member_id row;
     Repo.insurance_group_id := row_insurance_group_id row |}.

Definition medical_fields : list string :=
  ["chief_complaint"; "symptoms"; "symptom_duration"; "severity"].

(** The dictionary [updates] that [save_patient_data] passes to
    [repo.update] for a returning patient; the order of the items is left
    open. *)
Definition updates (slots : gmap string Value) : list (string * Value) :=
  filter (fun kv => is_not_None kv.2 && negb (PyStr.mem kv.1 medical_fields)
                    = true)
         (map_to_list slots).

(** One iteration of the loop of [PatientRepository.update]: the entry
    added to [valid_updates] and logged, if any. *)
Definition update_step (current : gmap string Value) (kv : string * Value)
  : option (string * Value) :=
  let '(field, new_value) := kv in
  if PyStr.mem field PATIENT_FIELDS then
    let old_value := dict_get current field in
    let '(old_value, new_value) :=
      if String.eqb field "address_validated"
      then (VBool (py_truthy old_value), VBool (py_truthy new_value))
      else (old_value, new_value) in
    if negb (py_eq old_value new_value) then Some (field, new_value) else None
  else None.

(** [valid_updates] of [PatientRepository.update]; the statement
    [UPDATE patients] runs when it is not empty. *)
Definition valid_updates (current : gmap string Value)
    (updates : list (string * Value)) : list (string * Value) :=
  omap (update_step current) updates.

(** ** The queries of the repositories *)

(** [ORDER BY date, time] on text columns. *)
Definition slot_leb (a b : ProviderRepo.Appointment) : bool :=
  match String.compare (ProviderRepo.date a) (ProviderRepo.date b) with
  | Lt => true
  | Eq => String.leb (ProviderRepo.time a) (ProviderRepo.time b)
  | Gt => false
  end.

Definition slot_before (a b : ProviderRepo.Appointment) : Prop :=
  slot_leb a b = true.

#[global] Instance slot_before_dec (a b : ProviderRepo.Appointment)
  : Decision (slot_before a b) := decide (slot_leb a b = true).

(** The [WHERE] clause of [get_available_slots]. *)
Definition is_available (provider_id from_date : string)
    (row : ProviderRepo.Appointment) : bool :=
  String.eqb (ProviderRepo.provider_id row) provider_id
  && negb (bool_decide (is_Some (ProviderRepo.patient_id row)))
  && String.eqb (ProviderRepo.status row) "available"
  && String.leb from_date (ProviderRepo.date row).

(** [get_available_slots]; [today] is the date taken when no [from_date]
    is given. *)
Definition get_available_slots (table : list ProviderRepo.Appointment)
    (today : string) (provider_id : string) (from_date : option string)
    (limit : nat) : list ProviderRepo.Appointment :=
  let from_date := default today from_date in
  take limit
    (merge_sort slot_before
       (filter (fun row => is_available provider_id from_date row = true)
          table)).

(** The three lookups of [find_existing_patient], each the first row of
    its query. *)
Definition by_phone (phone : string) (row : PatientRow) : bool :=
  String.eqb (row_phone row) phone.

Definition by_email (email : string) (row : PatientRow) : bool :=
  match row_email row with Some e => String.eqb e email | None => false end.

Definition by_name_dob (first_name last_name date_of_birth : string)
    (row : PatientRow) : bool :=
  String.eqb (row_first_name row) first_name
  && String.eqb (row_last_name row) last_name
  && String.eqb (row_date_of_birth row) date_of_birth.

(** The value of an optional argument when it is truthy. *)
Definition given (o : option string) : option string :=
  match o with
  | Some v => if PyStr.nonempty v then Some v else None
  | None => None
  end.

Definition find_existing_patient (table : list PatientRow)
    (phone email first_name last_name date_of_birth : option string)
  : option Repo.Patient :=
  match p ← given phone; find (by_phone p) table with
  | Some row => Some (_row_to_patient row)
  | None =>
      match e ← given email; find (by_email e) table with
      | Some row => Some (_row_to_patient row)
      | None =>
          match f ← given first_name; l ← given last_name;
                d ← given date_of_birth; find (by_name_dob f l d) table with
          | Some row => Some (_row_to_patient row)
          | None => None
          end
      end
  end.

(** [find_patients_by_name]: [LOWER(first_name) = LOWER(?)] and the same
    for the last name. *)
Definition find_patients_by_name (table : list PatientRow)
    (first_name last_name : string) : list Repo.Patient :=
  map _row_to_patient
    (filter (fun row =>
               String.eqb (PyStr.lower (row_first_name row))
                          (PyStr.lower first_name)
               && String.eqb (PyStr.lower (row_last_name row))
                             (PyStr.lower last_name) = true)
       table).

(** ** conversation.py: the prompt of a collection phase *)

Definition still_need (missing : list string) : string :=
  "I still need your " +:+ str_join ", " (map field_name missing) +:+ ".".

(** [len(missing) == len(PHASE_REQUIREMENTS[current])] *)
Definition all_missing (missing : list string) (current : State) : bool :=
  (length missing =? length (default [] (PHASE_REQUIREMENTS current)))%nat.

Definition generate_collection_prompt (s : ConversationState) : string :=
  let current := current_state s in
  let missing := get_missing_slots s current in
  if negb (nonempty_list missing) then ""
  else
    match current with
    | COLLECT_PATIENT =>
        if all_missing missing current
        then "Let's get you registered. Could you please tell me your full name, date of birth, and phone number?"
        else still_need missing
    | COLLECT_INSURANCE =>
        if all_missing missing current
        then "Now I'll need your insurance information. Who is your insurance provider, and what is your member ID?"
        else still_need missing
    | COLLECT_ADDRESS =>
        if all_missing missing current
        then "What is your home address? Please include street, city, state, and ZIP code."
        else still_need missing
    | COLLECT_MEDICAL => "What is the main reason for your visit today?"
    | _ => ""
    end.

(** ** The foreign keys of a booking

    The table [appointments] refers to [patients] and to [visits], and
    every connection enforces the references.  The update of
    [book_appointment] therefore fails on a row it would change when the
    patient, or a visit that is given, is not in its table; the exception
    leaves the function before the commit.  [ProviderRepo.book_appointment]
    above is the call whose references hold. *)

Inductive StoreError := IntegrityError.

(** The references of the updated row: [patients] and [visits] are the
    identifiers in the two tables. *)
Definition references_hold (patients visits : list string)
    (patient : string) (visit : option string) : bool :=
  PyStr.mem patient patients
  && match visit with Some v => PyStr.mem v visits | None => true end.

(** [book_appointment] in a store: the table after the call, and the
    returned appointment or the error raised. *)
Definition book_appointment_in_store (patients visits : list string)
    (table : list ProviderRepo.Appointment)
    (appointment_id patient : string) (visit reason' : option string)
    (now : string)
  : list ProviderRepo.Appointment
    * (StoreError + option ProviderRepo.Appointment) :=
  if (ProviderRepo.rowcount appointment_id table =? 0)%nat
  then (table, inr None)
  else if references_hold patients visits patient visit
  then
    let booked :=
      ProviderRepo.book_appointment table appointment_id patient visit
        reason' now in
    (booked.1, inr booked.2)
  else (table, inl IntegrityError).

(** ** conversation.py: the subscripts of a generated reply

    [generate_response] is [generate_dynamic_response], which reads the
    slots of its summary by subscript before it asks the language model:
    the slots below, in the order of the reads, by the current phase. *)
Definition response_subscripts (phase : State) : list string :=
  match phase with
  | CONFIRM_PATIENT => ["first_name"; "last_name"; "date_of_birth"; "phone"]
  | CONFIRM_INSURANCE => ["insurance_payer"; "insurance_member_id"]
  | CONFIRM_ADDRESS => ["address_line1"; "city"; "state"; "zip_code"]
  | CONFIRM =>
      [ "chief_complaint"; "first_name"; "last_name"; "date_of_birth";
        "phone"; "insurance_payer"; "insurance_member_id" ]
  | _ => []
  end.

(** The subscript of [generate_dynamic_response] that raises, if any. *)
Definition generate_dynamic_response_error (s : ConversationState)
  : option string :=
  first_missing_key (slots s) (response_subscripts (current_state s)).

(** ** The provenance of the slot values *)

(** The items that [_set_returning_patient] writes for a patient record. *)
Definition patient_items (patient : Repo.Patient) : list (string * Value) :=
  [ ("first_name", VStr (Repo.first_name patient));
    ("last_name", VStr (Repo.last_name patient));
    ("date_of_birth", VStr (Repo.date_of_birth patient));
    ("phone", VStr (Repo.phone patient));
    ("email", of_opt (Repo.email patient));
    ("address_line1", of_opt (Repo.address_line1 patient));
    ("address_line2", of_opt (Repo.address_line2 patient));
    ("city", of_opt (Repo.city patient));
    ("state", of_opt (Repo.state patient));
    ("zip_code", of_opt (Repo.zip_code patient));
    ("address_validated", VBool (Repo.address_validated patient));
    ("insurance_payer", of_opt (Repo.insurance_payer patient));
    ("insurance_plan", of_opt (Repo.insurance_plan patient));
    ("insurance_member_id", of_opt (Repo.insurance_member_id patient));
    ("insurance_group_id", of_opt (Repo.insurance_group_id patient)) ].

(** A turn supplies the value [v] for the slot [k] when one of its
    collaborators gives exactly that value for that slot: the extraction,
    a patient record found by the repository (by the look-up or among the
    candidates by name), the corrected components of the address
    validator, or its suggestion as the parser reads it. *)
Definition supplies (t : Turn) (k : string) (v : Value) : Prop :=
  (k, v) ∈ extracted t
  \/ (exists patient,
        (existing_patient t = Some patient \/ patient ∈ patients_by_name t)
        /\ (k, v) ∈ patient_items patient)
  \/ (exists items,
        corrected_components (validation t) = Some items /\ (k, v) ∈ items)
  \/ (exists suggestion items,
        suggested_address (validation t) = Some suggestion
        /\ parse_suggested_address suggestion = Some items
        /\ (k, v) ∈ items).

(** What a turn can write into a slot other than the validation flag:
    what the turn supplies, a candidate kept from an earlier turn, or the
    suggestion kept from an earlier validation. *)
Definition may_supply (s : ConversationState) (t : Turn) (k : string)
    (v : Value) : Prop :=
  (k, v) ∈ extracted t
  \/ (exists patient,
        (existing_patient t = Some patient
         \/ patient ∈ pending_name_matches s)
        /\ (k, v) ∈ patient_items patient)
  \/ (exists items,
        corrected_components (validation t) = Some items /\ (k, v) ∈ items)
  \/ (exists suggestion items,
        pending_address_suggestion s = Some suggestion
        /\ parse_suggested_address suggestion = Some items
        /\ (k, v) ∈ items).

(** The entry of [k] in [d'] is that in [d], or a value with the
    property [P]. *)
Definition sourced (P : Value -> Prop) (d d' : gmap string Value)
    (k : string) : Prop :=
  d' !! k = d !! k \/ exists v, d' !! k = Some v /\ P v.

(** * Properties *)

(** ** The completion check *)

Lemma fold_collect_filter (p : string -> bool) (l acc : list string) :
  fold_left (fun missing slot => if p slot then (missing ++ [slot])%list else missing)
            l acc
  = (acc ++ filter (fun slot => p slot = true) l)%list.
Proof.
  revert acc. induction l as [|x l IH]; intros acc; simpl.
  - by rewrite app_nil_r.
  - rewrite filter_cons. destruct (p x) eqn:E.
    + rewrite IH, decide_True by done. by rewrite <- app_assoc.
    + rewrite IH, decide_False by done. done.
Qed.

Lemma get_missing_slots_filter (s : ConversationState) (phase : State) :
  get_missing_slots s phase
  = filter (fun slot => slot_is_missing s slot = true)
           (default [] (PHASE_REQUIREMENTS phase)).
Proof.
  unfold get_missing_slots.
  destruct (PHASE_REQUIREMENTS phase) as [required|]; simpl; [|done].
  by rewrite fold_collect_filter.
Qed.

Lemma is_valid_slot_falsy (slot : string) (v : Value) :
  py_truthy v = false -> _is_valid_slot slot v = false.
Proof. intros H. unfold _is_valid_slot. by rewrite H. Qed.

Lemma slot_is_missing_invalid (s : ConversationState) (slot : string) :
  slot_is_missing s slot = negb (_is_valid_slot slot (dict_get (slots s) slot)).
Proof.
  unfold slot_is_missing.
  destruct (py_truthy (dict_get (slots s) slot)) eqn:E; simpl; [done|].
  by rewrite is_valid_slot_falsy.
Qed.

(** C1. For each of the four collection phases the list of missing slots is
    empty exactly when the phase is complete; it is a subsequence, in table
    order, of the phase's required slots; and a required slot is listed
    exactly when its value is absent or fails the validity predicate. *)
Theorem get_missing_slots_complete_subsequence
    (s : ConversationState) (P : State) :
  P ∈ [COLLECT_PATIENT; COLLECT_INSURANCE; COLLECT_ADDRESS; COLLECT_MEDICAL] ->
  exists required,
    PHASE_REQUIREMENTS P = Some required
    /\ (get_missing_slots s P = [] <-> is_phase_complete s P = true)
    /\ sublist (get_missing_slots s P) required
    /\ forall slot,
         slot ∈ get_missing_slots s P <->
         slot ∈ required
         /\ (dict_get (slots s) slot = VNone
             \/ _is_valid_slot slot (dict_get (slots s) slot) = false).
Proof.
  intros HP.
  assert (exists required, PHASE_REQUIREMENTS P = Some required) as [required HR].
  { repeat (apply elem_of_cons in HP as [->|HP]; [by eexists|]).
    by apply elem_of_nil in HP. }
  exists required. split; [done|].
  pose proof (get_missing_slots_filter s P) as HF. rewrite HR in HF. simpl in HF.
  split; [|split].
  - unfold is_phase_complete. destruct (get_missing_slots s P); simpl.
    + done.
    + split; [done|]. intros H. discriminate H.
  - rewrite HF. apply sublist_filter.
  - intros slot. rewrite HF, list_elem_of_filter, slot_is_missing_invalid.
    split.
    + intros [Hm Hin]. split; [done|]. right.
      by destruct (_is_valid_slot slot (dict_get (slots s) slot)).
    + intros [Hin [Hn|Hv]]; split; try done.
      * rewrite Hn. by rewrite is_valid_slot_falsy.
      * by rewrite Hv.
Qed.

Lemma get_missing_slots_complete_subsequence_witness :
  exists required,
    PHASE_REQUIREMENTS COLLECT_PATIENT = Some required
    /\ (get_missing_slots new_state COLLECT_PATIENT = []
        <-> is_phase_complete new_state COLLECT_PATIENT = true)
    /\ sublist (get_missing_slots new_state COLLECT_PATIENT) required
    /\ forall slot,
         slot ∈ get_missing_slots new_state COLLECT_PATIENT <->
         slot ∈ required
         /\ (dict_get (slots new_state) slot = VNone
             \/ _is_valid_slot slot (dict_get (slots new_state) slot) = false).
Proof.
  apply (get_missing_slots_complete_subsequence new_state COLLECT_PATIENT).
  apply elem_of_cons. left. reflexivity.
Defined.

(** ** The merge engine *)

Lemma py_eq_refl (v : Value) : py_eq v v = true.
Proof.
  destruct v as [|x|n|b]; simpl.
  - done.
  - apply String.eqb_refl.
  - apply Z.eqb_refl.
  - by destruct b.
Qed.

Lemma slots_set_slot k v s : slots (set_slot k v s) = <[k := v]> (slots s).
Proof. done. Qed.

Lemma dict_has_true d k : dict_has d k = true <-> is_Some (d !! k).
Proof. unfold dict_has. apply bool_decide_eq_true. Qed.

(** One step of the merge loop, by cases. *)
Lemma merge_step_cases st changed key value :
  (merge_step (st, changed) (key, value) = (st, changed)
   /\ (is_not_None value = true -> is_Some (slots st !! key) ->
       py_eq (dict_get (slots st) key) value = true))
  \/ (merge_step (st, changed) (key, value)
        = (set_slot key value st, (changed ++ [key])%list)
      /\ is_not_None value = true /\ is_Some (slots st !! key)
      /\ py_eq (dict_get (slots st) key) value = false).
Proof.
  unfold merge_step.
  destruct (is_not_None value) eqn:Hn; simpl; [|left; split; [done|discriminate]].
  destruct (dict_has (slots st) key) eqn:Hh; simpl.
  - destruct (py_eq (dict_get (slots st) key) value) eqn:He; simpl.
    + left. done.
    + right. repeat split; try done. by apply dict_has_true.
  - left. split; [done|]. intros _ Hs. apply dict_has_true in Hs. congruence.
Qed.

(** Keys outside the payload keep their entry, and no key leaves or joins
    the dictionary. *)
Lemma merge_fold_frame extracted st changed k :
  k ∉ extracted.*1 ->
  slots (fold_left merge_step extracted (st, changed)).1 !! k = slots st !! k.
Proof.
  revert st changed. induction extracted as [|[key value] ex IH]; intros st changed Hk.
  - done.
  - rewrite fmap_cons in Hk. apply not_elem_of_cons in Hk as [Hne Hk].
    cbn [fold_left].
    destruct (merge_step_cases st changed key value) as [[-> _]|[-> _]].
    + by apply IH.
    + rewrite IH by done. rewrite slots_set_slot. by rewrite lookup_insert_ne.
Qed.

Lemma merge_fold_dom extracted st changed k :
  is_Some (slots (fold_left merge_step extracted (st, changed)).1 !! k)
  <-> is_Some (slots st !! k).
Proof.
  revert st changed. induction extracted as [|[key value] ex IH]; intros st changed.
  - done.
  - cbn [fold_left].
    destruct (merge_step_cases st changed key value) as [[-> _]|[-> (_ & Hs & _)]].
    + apply IH.
    + rewrite IH, slots_set_slot. destruct (decide (key = k)) as [->|Hne].
      * rewrite lookup_insert_eq. split; [done|by eexists].
      * by rewrite lookup_insert_ne.
Qed.

(** The changed list only grows, and what is added does not depend on it. *)
Lemma merge_fold_changed extracted st changed :
  fold_left merge_step extracted (st, changed)
  = ((fold_left merge_step extracted (st, [])).1,
     (changed ++ (fold_left merge_step extracted (st, [])).2)%list).
Proof.
  revert st changed. induction extracted as [|[key value] ex IH]; intros st changed.
  - simpl. by rewrite app_nil_r.
  - cbn [fold_left].
    destruct (merge_step_cases st changed key value) as [[-> H1]|[-> (Hn&Hs&He)]];
    destruct (merge_step_cases st [] key value) as [[-> H2]|[-> (Hn'&Hs'&He')]].
    + apply IH.
    + rewrite (H1 Hn' Hs') in He'. discriminate.
    + rewrite (H2 Hn Hs) in He. discriminate.
    + rewrite (IH _ (changed ++ [key])%list), (IH _ ([] ++ [key])%list). simpl.
      by rewrite <- app_assoc.
Qed.

(** A payload whose entries all agree with the dictionary changes nothing. *)
Lemma merge_fold_stable extracted st changed :
  (forall k v, (k, v) ∈ extracted -> is_not_None v = true ->
               is_Some (slots st !! k) ->
               py_eq (dict_get (slots st) k) v = true) ->
  fold_left merge_step extracted (st, changed) = (st, changed).
Proof.
  revert st changed. induction extracted as [|[key value] ex IH]; intros st changed H.
  - done.
  - cbn [fold_left].
    destruct (merge_step_cases st changed key value) as [[-> _]|[_ (Hn&Hs&He)]].
    + apply IH. intros k v Hin. apply H. by apply elem_of_cons; right.
    + rewrite H in He; [discriminate| |done|done]. apply elem_of_cons. by left.
Qed.

(** After a merge every entry of a payload with distinct keys agrees with
    the dictionary. *)
Lemma merge_fold_agrees extracted st changed :
  NoDup extracted.*1 ->
  forall k v, (k, v) ∈ extracted -> is_not_None v = true ->
    is_Some (slots (fold_left merge_step extracted (st, changed)).1 !! k) ->
    py_eq (dict_get (slots (fold_left merge_step extracted (st, changed)).1) k) v
    = true.
Proof.
  revert st changed. induction extracted as [|[key value] ex IH];
    intros st changed Hnd k v Hin Hn Hs.
  - by apply elem_of_nil in Hin.
  - rewrite fmap_cons in Hnd. apply NoDup_cons in Hnd as [Hfresh Hnd].
    cbn [fold_left] in *. apply elem_of_cons in Hin as [Heq|Hin].
    + injection Heq as -> ->. unfold dict_get in *.
      destruct (merge_step_cases st changed key value) as [[E H]|[E _]];
        rewrite E in *; rewrite merge_fold_frame in * by done.
      * by apply H.
      * rewrite slots_set_slot, lookup_insert_eq. apply py_eq_refl.
    + destruct (merge_step (st, changed) (key, value)) as [st' changed'].
      by apply IH.
Qed.

Lemma merge_slots_second_call s extracted :
  NoDup extracted.*1 ->
  merge_slots (merge_slots s extracted).1 extracted
  = ((merge_slots s extracted).1, []).
Proof.
  intros Hnd. unfold merge_slots. apply merge_fold_stable.
  intros k v Hin Hn Hs. by apply merge_fold_agrees.
Qed.

(** An entry that differs from the stored value is written and reported. *)
Lemma merge_fold_reports extracted st changed k v :
  NoDup extracted.*1 -> (k, v) ∈ extracted -> is_not_None v = true ->
  is_Some (slots st !! k) -> py_eq (dict_get (slots st) k) v = false ->
  k ∈ (fold_left merge_step extracted (st, changed)).2
  /\ slots (fold_left merge_step extracted (st, changed)).1 !! k = Some v.
Proof.
  revert st changed. induction extracted as [|[key value] ex IH];
    intros st changed Hnd Hin Hn Hs He.
  - by apply elem_of_nil in Hin.
  - rewrite fmap_cons in Hnd. apply NoDup_cons in Hnd as [Hfresh Hnd].
    cbn [fold_left]. apply elem_of_cons in Hin as [Heq|Hin].
    + injection Heq as -> ->.
      destruct (merge_step_cases st changed key value) as [[_ H]|[-> _]].
      * rewrite (H Hn Hs) in He. discriminate.
      * rewrite merge_fold_changed. cbn [fst snd]. split.
        -- apply elem_of_app. left. apply elem_of_app. right.
           apply list_elem_of_singleton. done.
        -- rewrite merge_fold_frame by done.
           rewrite slots_set_slot. apply lookup_insert_eq.
    + assert (key <> k) as Hne.
      { intros ->. apply Hfresh. apply list_elem_of_fmap. by exists (k, v). }
      destruct (merge_step_cases st changed key value) as [[-> _]|[-> _]].
      * by apply IH.
      * apply IH; try done.
        -- by rewrite slots_set_slot, lookup_insert_ne.
        -- unfold dict_get. by rewrite slots_set_slot, lookup_insert_ne.
Qed.

(** C2. Merging the same payload twice in a row reports no change the
    second time (and leaves the state as the first merge made it).  The
    payload is a dictionary: its keys are distinct. *)
Theorem merge_slots_idempotent
    (s : ConversationState) (extracted : list (string * Value)) :
  NoDup extracted.*1 ->
  let s1 := (merge_slots s extracted).1 in
  (merge_slots s1 extracted).2 = [] /\ (merge_slots s1 extracted).1 = s1.
Proof.
  intros Hnd s1. unfold s1. by rewrite merge_slots_second_call.
Qed.

Lemma merge_slots_idempotent_witness :
  let s1 := (merge_slots new_state sample_payload).1 in
  (merge_slots s1 sample_payload).2 = []
  /\ (merge_slots s1 sample_payload).1 = s1.
Proof.
  apply (merge_slots_idempotent new_state sample_payload).
  apply (bool_decide_unpack _). vm_compute. reflexivity.
Defined.

(** C10. When a payload maps a recognised slot to the empty string and the
    stored value differs, the merge stores the empty string and reports the
    slot as changed, and the completion check of a phase that requires the
    slot lists it as missing afterwards. *)
Theorem merge_empty_string_changed_yet_missing
    (s : ConversationState) (extracted : list (string * Value))
    (slot : string) (P : State) (required : list string) :
  NoDup extracted.*1 ->
  (slot, VStr "") ∈ extracted ->
  is_Some (slots s !! slot) ->
  py_eq (dict_get (slots s) slot) (VStr "") = false ->
  PHASE_REQUIREMENTS P = Some required ->
  slot ∈ required ->
  slots (merge_slots s extracted).1 !! slot = Some (VStr "")
  /\ slot ∈ (merge_slots s extracted).2
  /\ slot ∈ get_missing_slots (merge_slots s extracted).1 P.
Proof.
  intros Hnd Hin Hs He HP Hreq.
  destruct (merge_fold_reports extracted s [] slot (VStr "") Hnd Hin eq_refl Hs He)
    as [Hch Hst].
  fold (merge_slots s extracted) in Hch, Hst.
  split; [done|]. split; [done|].
  rewrite get_missing_slots_filter, HP. simpl.
  apply list_elem_of_filter. split; [|done].
  unfold slot_is_missing, dict_get. by rewrite Hst.
Qed.

Lemma merge_empty_string_changed_yet_missing_witness :
  slots (merge_slots new_state [("first_name", VStr "")]).1 !! "first_name"
  = Some (VStr "")
  /\ "first_name" ∈ (merge_slots new_state [("first_name", VStr "")]).2
  /\ "first_name"
     ∈ get_missing_slots (merge_slots new_state [("first_name", VStr "")]).1
         COLLECT_PATIENT.
Proof.
  apply (merge_empty_string_changed_yet_missing new_state
           [("first_name", VStr "")] "first_name" COLLECT_PATIENT
           ["first_name"; "last_name"; "date_of_birth"; "phone"]).
  - apply (bool_decide_unpack _). vm_compute. reflexivity.
  - apply elem_of_cons. left. reflexivity.
  - vm_compute. eexists. reflexivity.
  - vm_compute. reflexivity.
  - reflexivity.
  - apply elem_of_cons. left. reflexivity.
Defined.

(** ** Phone normalisation *)

Lemma re_sub_non_digit (v : string) :
  re_sub_class non_digit "" v = PyStr.filter_chars PyStr.is_digit v.
Proof.
  induction v as [|c v IH]; simpl; [done|].
  unfold non_digit at 1. destruct (PyStr.is_digit c); simpl; by rewrite IH.
Qed.

Lemma filter_chars_all (p : ascii -> bool) (v : string) :
  PyStr.all_chars p (PyStr.filter_chars p v) = true.
Proof.
  induction v as [|c v IH]; simpl; [done|].
  destruct (p c) eqn:E; simpl; [by rewrite E|done].
Qed.

(** C9. Phone normalisation keeps exactly the digit characters of the
    input, in order.  No digit at all (in particular the empty input) gives
    the absent value; eleven digits starting with 1 lose the leading digit;
    any other non-empty digit string is returned as it is.  The input
    "+1 (555) 987-6543" gives "5559876543". *)
Theorem normalize_phone_spec (v : string) :
  let digits := PyStr.filter_chars PyStr.is_digit v in
  re_sub_class non_digit "" v = digits
  /\ PyStr.all_chars PyStr.is_digit digits = true
  /\ (digits = "" -> normalize_phone (Some v) = None)
  /\ (forall rest, digits = String "1" rest -> String.length rest = 10%nat ->
      normalize_phone (Some v) = Some rest)
  /\ (digits <> "" ->
      (String.length digits <> 11%nat \/ startswith_char "1" digits = false) ->
      normalize_phone (Some v) = Some digits)
  /\ normalize_phone (Some "") = None
  /\ normalize_phone None = None
  /\ normalize_phone (Some "+1 (555) 987-6543") = Some "5559876543".
Proof.
  intros digits. split; [apply re_sub_non_digit|].
  split; [apply filter_chars_all|].
  assert (normalize_phone (Some v)
          = if negb (PyStr.nonempty digits) then None
            else if (String.length digits =? 11)%nat && startswith_char "1" digits
                 then Some (drop_first digits) else Some digits) as Hn.
  { unfold normalize_phone. rewrite re_sub_non_digit. fold digits.
    destruct v as [|c v]; [done|]. done. }
  repeat split.
  - intros H. rewrite Hn, H. done.
  - intros rest H Hlen. rewrite Hn, H. simpl. rewrite Hlen. done.
  - intros Hne Hor. rewrite Hn. destruct digits as [|d ds]; [done|]. simpl.
    destruct Hor as [Hl|Hs].
    + apply Nat.eqb_neq in Hl. simpl in Hl. by rewrite Hl.
    + simpl in Hs. rewrite Hs. by rewrite andb_false_r.
Qed.

Lemma normalize_phone_spec_witness :
  normalize_phone (Some "+1 (555) 987-6543") = Some "5559876543".
Proof.
  apply (normalize_phone_spec "+1 (555) 987-6543").
Defined.

(** ** The booking update *)

Section Booking.
Import ProviderRepo.


Lemma bookable_id appointment_id row :
  bookable appointment_id row = true -> appt_id row = appointment_id.
Proof.
  unfold bookable. intros H. apply andb_prop in H as [H _].
  apply andb_prop in H as [H _]. by apply String.eqb_eq.
Qed.

Lemma rowcount_zero appointment_id table :
  rowcount appointment_id table = 0%nat
  <-> forall row, row ∈ table -> bookable appointment_id row = false.
Proof.
  unfold rowcount. rewrite length_zero_iff_nil. split.
  - intros H row Hin. destruct (bookable appointment_id row) eqn:E; [|done].
    assert (row ∈ filter (fun r => bookable appointment_id r = true) table) as Hf
      by (apply list_elem_of_filter; done).
    rewrite H in Hf. by apply elem_of_nil in Hf.
  - intros H. induction table as [|r table IH]; [done|].
    rewrite filter_cons, decide_False.
    + apply IH. intros row Hin. apply H. by apply elem_of_cons; right.
    + rewrite H; [done|]. apply elem_of_cons. by left.
Qed.

(** With the primary key, the row found by its id is the only row with
    that id. *)
Lemma find_by_id_unique table appointment_id row row' :
  NoDup (appt_id <$> table) ->
  get_appointment_by_id table appointment_id = Some row ->
  row' ∈ table -> appt_id row' = appointment_id -> row' = row.
Proof.
  unfold get_appointment_by_id.
  induction table as [|r table IH]; intros Hnd Hf Hin Hid; [done|].
  rewrite fmap_cons in Hnd. apply NoDup_cons in Hnd as [Hfresh Hnd].
  simpl in Hf. destruct (String.eqb (appt_id r) appointment_id) eqn:E.
  - injection Hf as <-. apply String.eqb_eq in E.
    apply elem_of_cons in Hin as [->|Hin]; [done|].
    exfalso. apply Hfresh. apply list_elem_of_fmap. exists row'.
    split; [congruence|done].
  - apply elem_of_cons in Hin as [->|Hin].
    + apply String.eqb_neq in E. done.
    + by apply IH.
Qed.


Lemma find_by_id_none table appointment_id row :
  get_appointment_by_id table appointment_id = None ->
  row ∈ table -> appt_id row <> appointment_id.
Proof.
  unfold get_appointment_by_id. intros H Hin.
  apply list_elem_of_In in Hin.
  pose proof (find_none _ _ H row Hin) as E. by apply String.eqb_neq.
Qed.

Lemma find_by_id_update table appointment_id patient visit reason' now :
  get_appointment_by_id
    (update_where appointment_id patient visit reason' now table) appointment_id
  = (fun row => if bookable appointment_id row
                then book_row patient visit reason' now row else row)
    <$> get_appointment_by_id table appointment_id.
Proof.
  unfold get_appointment_by_id, update_where.
  induction table as [|r table IH]; [done|]. simpl.
  destruct (bookable appointment_id r) eqn:E; simpl;
    destruct (String.eqb (appt_id r) appointment_id); simpl;
    rewrite ?E; done || apply IH.
Qed.




End Booking.

(** ** Frame facts of the dispatcher *)

Lemma set_slots_eta s : set_slots (slots s) s = s.
Proof. by destruct s. Qed.

Lemma merge_fold_only_slots extracted st changed :
  (fold_left merge_step extracted (st, changed)).1
  = set_slots (slots (fold_left merge_step extracted (st, changed)).1) st.
Proof.
  revert st changed. induction extracted as [|[key value] ex IH]; intros st changed.
  - simpl. by rewrite set_slots_eta.
  - cbn [fold_left]. unfold merge_step at 2 4.
    destruct (is_not_None value && dict_has (slots st) key); [|apply IH].
    destruct (negb (py_eq (dict_get (slots st) key) value)); [|apply IH].
    rewrite IH at 1. done.
Qed.

Lemma merge_slots_only_slots s extracted :
  (merge_slots s extracted).1 = set_slots (slots (merge_slots s extracted).1) s.
Proof. apply merge_fold_only_slots. Qed.

Lemma merge_slots_attempts s extracted :
  address_validation_attempts (merge_slots s extracted).1
  = address_validation_attempts s.
Proof. by rewrite merge_slots_only_slots. Qed.

Lemma merge_slots_current_state s extracted :
  current_state (merge_slots s extracted).1 = current_state s.
Proof. by rewrite merge_slots_only_slots. Qed.

Lemma final_state_then_say o text : final_state (then_say o text) = final_state o.
Proof. by destruct o. Qed.

Lemma final_state_say_then r o : final_state (say_then r o) = final_state o.
Proof. by destruct o. Qed.

Lemma first_missing_key_none d keys :
  (forall k, k ∈ keys -> is_Some (d !! k)) -> first_missing_key d keys = None.
Proof.
  intros H. unfold first_missing_key. induction keys as [|k keys IH]; [done|].
  simpl. unfold dict_has at 1. rewrite bool_decide_eq_true_2.
  - simpl. apply IH. intros k' Hk'. apply H. by apply elem_of_cons; right.
  - apply H. apply elem_of_cons. by left.
Qed.

(** ** Address validation *)

Lemma do_address_validation_attempts s t newly_filled :
  address_validation_attempts (final_state (do_address_validation s t newly_filled))
  = address_validation_attempts s + 1.
Proof.
  unfold do_address_validation.
  destruct (first_missing_key _ _); [done|].
  destruct (is_valid (validation t)).
  - by destruct (corrected_components (validation t)) as [[|c cs]|].
  - by destruct (2 <=? _).
Qed.

Lemma do_address_validation_failure s t newly_filled :
  (forall k, k ∈ address_fields -> is_Some (slots s !! k)) ->
  is_valid (validation t) = false ->
  2 <= address_validation_attempts s + 1 ->
  exists s' r,
    do_address_validation s t newly_filled = Done s' r
    /\ current_state s' = CONFIRM_ADDRESS
    /\ slots s' !! "address_validated" = Some (VBool false)
    /\ address_validation_attempts s' = address_validation_attempts s + 1.
Proof.
  intros Hk Hv Ha. unfold do_address_validation.
  rewrite first_missing_key_none by exact Hk. rewrite Hv.
  cbn [address_validation_attempts set_attempts].
  destruct (2 <=? address_validation_attempts s + 1) eqn:E.
  - eexists _, _. split; [done|]. repeat split. cbn. apply lookup_insert_eq.
  - apply Z.leb_gt in E. lia.
Qed.

Lemma do_address_validation_first_failure s t newly_filled :
  (forall k, k ∈ address_fields -> is_Some (slots s !! k)) ->
  is_valid (validation t) = false ->
  address_validation_attempts s + 1 < 2 ->
  exists r,
    do_address_validation s t newly_filled
    = Done (set_current_state VALIDATE_ADDRESS
              (set_pending_address_suggestion (suggested_address (validation t))
                 (set_attempts (address_validation_attempts s + 1) s))) r.
Proof.
  intros Hk Hv Ha. unfold do_address_validation.
  rewrite first_missing_key_none by exact Hk. rewrite Hv.
  cbn [address_validation_attempts set_attempts].
  destruct (2 <=? address_validation_attempts s + 1) eqn:E.
  - apply Z.leb_le in E. lia.
  - eexists. done.
Qed.


Lemma phase_complete_not_missing s phase required slot :
  PHASE_REQUIREMENTS phase = Some required -> slot ∈ required ->
  is_phase_complete s phase = true ->
  py_truthy (dict_get (slots s) slot) = true.
Proof.
  intros HP Hin Hc. unfold is_phase_complete in Hc.
  apply Nat.eqb_eq, length_zero_iff_nil in Hc.
  rewrite get_missing_slots_filter, HP in Hc. simpl in Hc.
  destruct (py_truthy (dict_get (slots s) slot)) eqn:E; [done|].
  assert (slot ∈ filter (fun x => slot_is_missing s x = true) required) as Hf.
  { apply list_elem_of_filter. split; [|done]. unfold slot_is_missing. by rewrite E. }
  rewrite Hc in Hf. by apply elem_of_nil in Hf.
Qed.

Lemma address_complete_keys s :
  is_phase_complete s COLLECT_ADDRESS = true ->
  forall k, k ∈ address_fields -> is_Some (slots s !! k).
Proof.
  intros Hc k Hk.
  pose proof (phase_complete_not_missing s COLLECT_ADDRESS _ k eq_refl Hk Hc) as Ht.
  unfold dict_get in Ht. destruct (slots s !! k); [by eexists|done].
Qed.

(** A validation call made with one or more earlier attempts never leaves
    the session in the validation phase. *)
Lemma do_address_validation_no_third_prompt s t newly_filled :
  (forall k, k ∈ address_fields -> is_Some (slots s !! k)) ->
  1 <= address_validation_attempts s ->
  exists s' r,
    do_address_validation s t newly_filled = Done s' r
    /\ current_state s' = CONFIRM_ADDRESS
    /\ (is_valid (validation t) = false ->
        slots s' !! "address_validated" = Some (VBool false)).
Proof.
  intros Hk Ha. destruct (is_valid (validation t)) eqn:Hv.
  - unfold do_address_validation.
    rewrite first_missing_key_none by exact Hk. rewrite Hv.
    eexists _, _. split; [done|]. split; [|done].
    by destruct (corrected_components (validation t)) as [[|c cs]|].
  - destruct (do_address_validation_failure s t newly_filled Hk Hv)
      as (s' & r & H1 & H2 & H3 & _); [lia|].
    by exists s', r.
Qed.

(** C3. A validation call that fails with an incremented counter of two or
    more moves the session to CONFIRM_ADDRESS with address_validated set to
    False.  Hence two failed calls in a row from a counter of zero end in
    CONFIRM_ADDRESS with the flag False, the first one having prompted in
    VALIDATE_ADDRESS; and a turn of the VALIDATE_ADDRESS handler that runs
    the validation after an earlier attempt never stays in VALIDATE_ADDRESS. *)
Theorem address_retry_bound
    (s : ConversationState) (t1 t2 : Turn) (filled1 filled2 : list string) :
  (forall k, k ∈ address_fields -> is_Some (slots s !! k)) ->
  is_valid (validation t1) = false ->
  is_valid (validation t2) = false ->
  (2 <= address_validation_attempts s + 1 ->
   exists s' r,
     do_address_validation s t1 filled1 = Done s' r
     /\ current_state s' = CONFIRM_ADDRESS
     /\ slots s' !! "address_validated" = Some (VBool false))
  /\ (address_validation_attempts s = 0 ->
      exists s1 r1 s2 r2,
        do_address_validation s t1 filled1 = Done s1 r1
        /\ current_state s1 = VALIDATE_ADDRESS
        /\ do_address_validation s1 t2 filled2 = Done s2 r2
        /\ current_state s2 = CONFIRM_ADDRESS
        /\ slots s2 !! "address_validated" = Some (VBool false)
        /\ address_validation_attempts s2 = 2)
  /\ (current_state s = VALIDATE_ADDRESS ->
      1 <= address_validation_attempts s ->
      let s' := final_state (process_input s t1) in
      address_validation_attempts s' = address_validation_attempts s
      \/ (address_validation_attempts s' = address_validation_attempts s + 1
          /\ current_state s' = CONFIRM_ADDRESS
          /\ slots s' !! "address_validated" = Some (VBool false))).
Proof.
  intros Hk Hv1 Hv2. split; [|split].
  - intros Ha.
    destruct (do_address_validation_failure s t1 filled1 Hk Hv1 Ha)
      as (s' & r & H1 & H2 & H3 & _).
    by exists s', r.
  - intros H0.
    destruct (do_address_validation_first_failure s t1 filled1 Hk Hv1) as [r1 H1];
      [lia|].
    set (s1 := set_current_state VALIDATE_ADDRESS _) in H1.
    assert (forall k, k ∈ address_fields -> is_Some (slots s1 !! k)) as Hk1
      by exact Hk.
    assert (address_validation_attempts s1 = 1) as Ha1
      by (cbn; lia).
    destruct (do_address_validation_failure s1 t2 filled2 Hk1 Hv2)
      as (s2 & r2 & H2 & H3 & H4 & H5); [lia|].
    exists s1, r1, s2, r2. repeat split; try done. lia.
  - intros Hc Ha s'. unfold s', process_input. rewrite Hc.
    unfold handle_validate_address.
    destruct (if is_affirmative (intent t1) || says "yes" t1
              then opt_truthy (pending_address_suggestion s) else false).
    { left. by destruct (parse_suggested_address _) as [[|c cs]|]. }
    pose proof (merge_slots_attempts s (extracted t1)) as Hm.
    destruct (merge_slots s (extracted t1)) as [s1 filled]. cbn [fst] in Hm.
    destruct (is_phase_complete (set_pending_address_suggestion None s1)
                COLLECT_ADDRESS) eqn:Hpc.
    + right.
      pose proof (do_address_validation_attempts
                    (set_pending_address_suggestion None s1) t1 filled) as Hd.
      destruct (do_address_validation_no_third_prompt
                  (set_pending_address_suggestion None s1) t1 filled)
        as (s2 & r & E & H2 & H3).
      * by apply address_complete_keys.
      * cbn. lia.
      * rewrite E in *. cbn [final_state] in *. cbn in Hd.
        split; [lia|]. split; [done|]. by apply H3.
    + left. cbn. done.
Qed.

Lemma address_retry_bound_witness :
  exists s1 r1 s2 r2,
    do_address_validation address_complete failing_turn [] = Done s1 r1
    /\ current_state s1 = VALIDATE_ADDRESS
    /\ do_address_validation s1 failing_turn [] = Done s2 r2
    /\ current_state s2 = CONFIRM_ADDRESS
    /\ slots s2 !! "address_validated" = Some (VBool false)
    /\ address_validation_attempts s2 = 2.
Proof.
  refine (proj1 (proj2 (address_retry_bound address_complete failing_turn
                          failing_turn [] [] _ _ _)) _).
  - intros k Hk.
    repeat (apply elem_of_cons in Hk as [->|Hk];
            [vm_compute; eexists; reflexivity|]).
    exfalso. revert Hk. apply not_elem_of_nil.
  - reflexivity.
  - reflexivity.
  - vm_compute. reflexivity.
Defined.
(** ** The attempt counter *)

Ltac merge_pair s t :=
  let Ha := fresh "Ha" in
  let Hc := fresh "Hc" in
  pose proof (merge_slots_attempts s (extracted t)) as Ha;
  pose proof (merge_slots_current_state s (extracted t)) as Hc;
  destruct (merge_slots s (extracted t)) as [?s1 ?filled]; cbn [fst] in Ha, Hc.

Ltac split_branches :=
  repeat (first
    [ rewrite final_state_then_say
    | rewrite final_state_say_then
    | rewrite do_address_validation_attempts
    | match goal with
      | |- context [if ?b then _ else _] => destruct b eqn:?
      | |- context [match ?x with _ => _ end] => destruct x eqn:?
      end ]).

Lemma handle_query_providers_attempts s t :
  address_validation_attempts (final_state (handle_query_providers s t))
  = address_validation_attempts s.
Proof. unfold handle_query_providers. split_branches; done. Qed.

Lemma advance_attempts s t :
  step_or_stay (address_validation_attempts s)
    (address_validation_attempts
       (final_state (advance_to_next_actionable_state s t))).
Proof.
  unfold advance_to_next_actionable_state, step_or_stay.
  destruct (current_state s); split_branches;
    rewrite ?handle_query_providers_attempts; cbn; lia.
Qed.

Lemma handle_phase_confirm_attempts s t phase next_state :
  step_or_stay (address_validation_attempts s)
    (address_validation_attempts
       (final_state (handle_phase_confirm s t phase next_state))).
Proof.
  unfold handle_phase_confirm. merge_pair s t.
  destruct (is_affirmative (intent t) || says "yes" t).
  - apply (advance_attempts (set_current_state next_state s) t).
  - unfold step_or_stay. split_branches; cbn; lia.
Qed.

Lemma handle_collection_attempts s t :
  step_or_stay (address_validation_attempts s)
    (address_validation_attempts (final_state (handle_collection s t))).
Proof.
  unfold handle_collection, step_or_stay. merge_pair s t.
  split_branches; rewrite ?handle_query_providers_attempts; cbn; lia.
Qed.

Lemma handle_validate_address_attempts s t :
  step_or_stay (address_validation_attempts s)
    (address_validation_attempts (final_state (handle_validate_address s t))).
Proof.
  unfold handle_validate_address, step_or_stay. merge_pair s t.
  split_branches; cbn; lia.
Qed.

Lemma handle_check_patient_attempts s t :
  address_validation_attempts (final_state (handle_check_patient s t))
  = address_validation_attempts s.
Proof.
  unfold handle_check_patient, _set_returning_patient.
  rewrite <- (merge_slots_attempts s (extracted t)).
  split_branches; done.
Qed.

Lemma handle_verify_dob_attempts s t :
  address_validation_attempts (final_state (handle_verify_dob s t))
  = address_validation_attempts s.
Proof.
  unfold handle_verify_dob, _set_returning_patient.
  rewrite <- (merge_slots_attempts s (extracted t)).
  split_branches; done.
Qed.

Lemma handle_confirm_attempts s t :
  address_validation_attempts (final_state (handle_confirm s t))
  = address_validation_attempts s.
Proof.
  unfold handle_confirm. merge_pair s t. split_branches; done.
Qed.

Lemma select_provider_attempts s t i :
  address_validation_attempts (final_state (select_provider s t i))
  = address_validation_attempts s.
Proof. unfold select_provider. split_branches; done. Qed.

Lemma select_time_attempts s t i :
  address_validation_attempts (final_state (select_time s t i))
  = address_validation_attempts s.
Proof. unfold select_time. split_branches; done. Qed.

Lemma handle_confirm_returning_attempts s t :
  let a := address_validation_attempts s in
  let a' := address_validation_attempts
              (final_state (handle_confirm_returning s t)) in
  if touches_address (merge_slots s (extracted t)).2
  then a' = 0 \/ a' = 1
  else a' = a.
Proof.
  unfold handle_confirm_returning. merge_pair s t. cbn [snd].
  destruct (touches_address filled) eqn:Ht; split_branches; cbn; lia.
Qed.

Lemma process_input_attempts s t :
  step_or_stay (address_validation_attempts s)
    (address_validation_attempts (final_state (process_input s t)))
  \/ (current_state s = CONFIRM_RETURNING
      /\ touches_address (merge_slots s (extracted t)).2 = true
      /\ (address_validation_attempts (final_state (process_input s t)) = 0
          \/ address_validation_attempts (final_state (process_input s t)) = 1)).
Proof.
  unfold process_input.
  destruct (current_state s) eqn:Hc.
  - left. by left.
  - left. left. apply handle_check_patient_attempts.
  - left. left. apply handle_verify_dob_attempts.
  - pose proof (handle_confirm_returning_attempts s t) as Hr. cbn zeta in Hr.
    destruct (touches_address (merge_slots s (extracted t)).2).
    + right. done.
    + left. by left.
  - left. apply handle_collection_attempts.
  - left. apply handle_phase_confirm_attempts.
  - left. apply handle_collection_attempts.
  - left. apply handle_phase_confirm_attempts.
  - left. apply handle_collection_attempts.
  - left. apply handle_validate_address_attempts.
  - left. apply handle_phase_confirm_attempts.
  - left. apply handle_collection_attempts.
  - left. left. apply handle_query_providers_attempts.
  - left. left. apply select_provider_attempts.
  - left. left. apply select_time_attempts.
  - left. left. apply handle_confirm_attempts.
  - left. by left.
Qed.

(** The counter over one turn from any state, also one that no session
    reaches: every validation call adds exactly one; a turn leaves the
    counter unchanged or adds one, except in the returning-patient
    confirmation, where a change of an address field sets it to zero (and
    to one if the same turn then runs a validation). *)
Lemma attempts_counter_steps
    (s : ConversationState) (t : Turn) (newly_filled : list string) :
  let a := address_validation_attempts s in
  let a' := address_validation_attempts (final_state (process_input s t)) in
  address_validation_attempts
    (final_state (do_address_validation s t newly_filled)) = a + 1
  /\ (a' = a \/ a' = a + 1
      \/ (current_state s = CONFIRM_RETURNING
          /\ touches_address (merge_slots s (extracted t)).2 = true
          /\ (a' = 0 \/ a' = 1)))
  /\ (current_state s = CONFIRM_RETURNING ->
      touches_address (merge_slots s (extracted t)).2 = true ->
      a' = 0 \/ a' = 1).
Proof.
  intros a a'. split; [apply do_address_validation_attempts|].
  unfold a', a. split.
  - destruct (process_input_attempts s t) as [H|H]; [|by right; right].
    destruct H; auto.
  - intros Hc Ht. unfold process_input. rewrite Hc.
    pose proof (handle_confirm_returning_attempts s t) as Hr. cbn zeta in Hr.
    by rewrite Ht in Hr.
Qed.

(** ** Selection turns *)

Lemma valid_index_out_of_range {A} (options : list A) (i : Z) :
  ~ (0 <= i < Z.of_nat (length options)) -> valid_index (Some i) options = None.
Proof.
  intros H. unfold valid_index.
  destruct (0 <=? i) eqn:E1; destruct (i <? Z.of_nat (length options)) eqn:E2;
    simpl; try done.
  apply Z.leb_le in E1. apply Z.ltb_lt in E2. lia.
Qed.

Lemma valid_index_unresolved {A} (options : list A) selected_idx :
  unresolved options selected_idx -> valid_index selected_idx options = None.
Proof.
  intros [->|(i & -> & H)]; [done|]. by apply valid_index_out_of_range.
Qed.

(** The interpreter answers with an index of the list or with nothing. *)
Lemma interpret_selection_in_range {A} user_input (options : list A)
    option_type content i :
  interpret_selection user_input options option_type content = Some i ->
  0 <= i < Z.of_nat (length options).
Proof.
  unfold interpret_selection.
  destruct (negb (nonempty_list options)); [done|].
  destruct (first_number (PyStr.strip content)) as [number|]; [|done].
  destruct (1 <=? PyStr.int_of_digits 0 number) eqn:E1; simpl; [|done].
  destruct (PyStr.int_of_digits 0 number <=? Z.of_nat (length options)) eqn:E2;
    [|done].
  intros [= <-]. apply Z.leb_le in E1. apply Z.leb_le in E2. lia.
Qed.

(** A reply whose first number is zero or above the number of options is
    an unresolved selection. *)
Lemma interpret_selection_number_out_of_range {A} user_input (options : list A)
    option_type content number :
  first_number (PyStr.strip content) = Some number ->
  ~ (1 <= PyStr.int_of_digits 0 number <= Z.of_nat (length options)) ->
  interpret_selection user_input options option_type content = None.
Proof.
  intros Hn Hr. unfold interpret_selection.
  destruct (negb (nonempty_list options)); [done|]. rewrite Hn.
  destruct (1 <=? PyStr.int_of_digits 0 number) eqn:E1; simpl; [|done].
  destruct (PyStr.int_of_digits 0 number <=? Z.of_nat (length options)) eqn:E2;
    [|done].
  apply Z.leb_le in E1. apply Z.leb_le in E2. lia.
Qed.

(** C8. In a provider or time selection turn, an interpreted selection that
    is unresolved or lies outside the current option list leaves the whole
    conversation state, phase included, as it was and only asks again: the
    handler answers exactly as for an unresolved selection.  A reply whose
    number exceeds the number of options, such as 5 for two options, is
    interpreted as unresolved. *)
Theorem selection_out_of_range_is_noop
    (s : ConversationState) (t : Turn) (provider_idx time_idx : option Z) :
  unresolved (matched_providers s) provider_idx ->
  unresolved (available_slots s) time_idx ->
  select_provider s t provider_idx
  = Done s (Llm "Couldn't understand which provider they want. Ask them to pick one from the list by number or name.")
  /\ select_provider s t provider_idx = select_provider s t None
  /\ select_time s t time_idx
     = Done s (Llm "Couldn't understand which time slot they want. Ask them to pick one from the list.")
  /\ select_time s t time_idx = select_time s t None
  /\ (forall number,
        first_number (PyStr.strip (selection_content t)) = Some number ->
        Z.of_nat (length (matched_providers s)) < PyStr.int_of_digits 0 number ->
        final_state (handle_select_provider s t) = s
        /\ handle_select_provider s t = select_provider s t None)
  /\ (forall number,
        first_number (PyStr.strip (selection_content t)) = Some number ->
        Z.of_nat (length (available_slots s)) < PyStr.int_of_digits 0 number ->
        final_state (handle_select_time s t) = s
        /\ handle_select_time s t = select_time s t None)
  /\ interpret_selection "5" two_providers "provider" "5" = None.
Proof.
  intros Hp Ht.
  assert (select_provider s t provider_idx = select_provider s t None) as Ep.
  { unfold select_provider. by rewrite (valid_index_unresolved _ _ Hp). }
  assert (select_time s t time_idx = select_time s t None) as Et.
  { unfold select_time. by rewrite (valid_index_unresolved _ _ Ht). }
  split; [by rewrite Ep|]. split; [done|].
  split; [by rewrite Et|]. split; [done|].
  split; [|split].
  - intros number Hn Hgt. unfold handle_select_provider.
    rewrite (interpret_selection_number_out_of_range _ _ _ _ number Hn) by lia.
    done.
  - intros number Hn Hgt. unfold handle_select_time.
    rewrite (interpret_selection_number_out_of_range _ _ _ _ number Hn) by lia.
    done.
  - reflexivity.
Qed.

Lemma selection_out_of_range_is_noop_witness :
  select_provider choosing_provider city_update (Some 4)
  = Done choosing_provider
      (Llm "Couldn't understand which provider they want. Ask them to pick one from the list by number or name.").
Proof.
  refine (proj1 (selection_out_of_range_is_noop choosing_provider city_update
                   (Some 4) None _ _)).
  - right. exists 4. split; [reflexivity|]. simpl. lia.
  - left. reflexivity.
Defined.

(** ** Regular-expression steps *)

Lemma append_cons c (s t : string) : String c s +:+ t = String c (s +:+ t).
Proof. reflexivity. Qed.

Lemma append_nil_l (t : string) : "" +:+ t = t.
Proof. reflexivity. Qed.

Lemma append_nil_r (s : string) : s +:+ "" = s.
Proof. induction s as [|c s IH]; [done|]. by rewrite append_cons, IH. Qed.

Lemma append_assoc (a b c : string) : (a +:+ b) +:+ c = a +:+ (b +:+ c).
Proof.
  induction a as [|x a IH]; [done|]. by rewrite !append_cons, IH.
Qed.

Ltac sapp := rewrite ?append_cons, ?append_nil_l in *.

Lemma digit_not_space c : PyStr.is_digit c = true -> PyStr.is_space c = false.
Proof.
  unfold PyStr.is_digit, PyStr.is_space, PyStr.in_range. intros H.
  apply andb_prop in H as [H1 H2]. apply N.leb_le in H1. apply N.leb_le in H2.
  repeat (apply orb_false_intro); try apply andb_false_intro2;
    try (apply N.leb_gt; lia); try (apply N.eqb_neq; lia).
Qed.

Lemma eat_digits_sound n s rest :
  eat_digits n s = Some rest ->
  exists d, s = d +:+ rest /\ String.length d = n
            /\ PyStr.all_chars PyStr.is_digit d = true.
Proof.
  revert s. induction n as [|n IH]; intros s H; simpl in H.
  - injection H as <-. by exists "".
  - destruct s as [|c s]; [done|]. destruct (PyStr.is_digit c) eqn:E; [|done].
    destruct (IH _ H) as (d & -> & Hl & Ha). exists (String c d).
    simpl. rewrite E, Hl. done.
Qed.

Lemma eat_digits_complete d rest :
  PyStr.all_chars PyStr.is_digit d = true ->
  eat_digits (String.length d) (d +:+ rest) = Some rest.
Proof.
  induction d as [|c d IH]; simpl; [done|]. intros H.
  apply andb_prop in H as [-> H]. by apply IH.
Qed.

#[local] Arguments eat_digits : simpl never.

Lemma drop_while_spaces ws rest :
  PyStr.all_chars PyStr.is_space ws = true ->
  (forall c r, rest = String c r -> PyStr.is_space c = false) ->
  PyStr.drop_while PyStr.is_space (ws +:+ rest) = rest.
Proof.
  intros Hws Hr. induction ws as [|c ws IH]; simpl.
  - destruct rest as [|c r]; [done|]. simpl. by rewrite (Hr c r).
  - simpl in Hws. apply andb_prop in Hws as [-> Hws]. by apply IH.
Qed.

Lemma drop_while_split p s :
  exists pre, s = pre +:+ PyStr.drop_while p s /\ PyStr.all_chars p pre = true.
Proof.
  induction s as [|c s (pre & IH & Hp)]; simpl.
  - by exists "".
  - destruct (p c) eqn:E.
    + exists (String c pre). simpl. rewrite E, append_cons.
      split; [by f_equal|done].
    + by exists "".
Qed.

Lemma substring_prefix d rest :
  substring 0 (String.length d) (d +:+ rest) = d.
Proof.
  induction d as [|c d IH]; simpl.
  - by destruct rest.
  - by rewrite IH.
Qed.

Lemma at_dollar_iff s : at_dollar s = true <-> s = "" \/ s = line_feed.
Proof.
  unfold at_dollar, line_feed. split.
  - destruct s as [|c [|c' s]]; try done; [by left|].
    intros H. apply Ascii.eqb_eq in H as ->. by right.
  - by intros [->| ->].
Qed.

Lemma match_plus4_end_iff s :
  match_plus4_end s = true <->
  exists plus4 eol,
    s = plus4 +:+ eol
    /\ (plus4 = ""
        \/ exists d, plus4 = "-" +:+ d /\ String.length d = 4%nat
                     /\ PyStr.all_chars PyStr.is_digit d = true)
    /\ (eol = "" \/ eol = line_feed).
Proof.
  unfold match_plus4_end. split.
  - destruct (eat_char "-" s) as [r|] eqn:E1; simpl.
    + destruct s as [|c s]; [done|]. simpl in E1.
      destruct (Ascii.eqb c "-") eqn:Ec; [|done]. injection E1 as ->.
      apply Ascii.eqb_eq in Ec as ->.
      destruct (eat_digits 4 r) as [rest|] eqn:E2.
      * intros H. apply orb_prop in H as [H|H].
        -- apply eat_digits_sound in E2 as (d & -> & Hl & Hd).
           exists ("-" +:+ d), rest. split; [done|]. split.
           ++ right. by exists d.
           ++ by apply at_dollar_iff.
        -- exists "", (String "-" r). split; [done|]. split; [by left|].
           by apply at_dollar_iff.
      * intros H. exists "", (String "-" r). split; [done|]. split; [by left|].
        by apply at_dollar_iff.
    + intros H. exists "", s. split; [done|]. split; [by left|].
      by apply at_dollar_iff.
  - intros (plus4 & eol & -> & [->|(d & -> & Hl & Hd)] & He).
    + rewrite append_nil_l. apply at_dollar_iff in He.
      destruct (x ← eat_char "-" eol; eat_digits 4 x); [|done].
      rewrite He. apply orb_true_r.
    + rewrite append_assoc, append_cons, append_nil_l. cbn [eat_char].
      rewrite Ascii.eqb_refl. cbn [mbind option_bind].
      rewrite <- Hl, eat_digits_complete by done.
      apply at_dollar_iff in He. by rewrite He.
Qed.

Lemma two_chars st :
  String.length st = 2%nat -> exists a b, st = String a (String b "").
Proof. destruct st as [|a [|b [|c st]]]; try done. intros _. by exists a, b. Qed.

Lemma match_state_zip_iff s st zip :
  match_state_zip s = Some (st, zip) <-> state_zip_shape s st zip.
Proof.
  unfold match_state_zip, state_zip_shape. split.
  - destruct (eat_two_upper s) as [[st' r1]|] eqn:E1; [|done].
    unfold eat_two_upper in E1. destruct s as [|a [|b r]]; try done.
    destruct (PyStr.is_upper a && PyStr.is_upper b) eqn:Eu; [|done].
    injection E1 as <- <-. apply andb_prop in Eu as [Ea Eb].
    destruct (eat_spaces1 r) as [r2|] eqn:E2; simpl; [|done].
    unfold eat_spaces1 in E2. destruct r as [|c r]; [done|].
    destruct (PyStr.is_space c) eqn:Ec; [|done]. injection E2 as <-.
    destruct (drop_while_split PyStr.is_space r) as (pre & Hr & Hpre).
    unfold eat_zip.
    destruct (eat_digits 5 (PyStr.drop_while PyStr.is_space r)) as [r3|] eqn:E3;
      [|done].
    destruct (match_plus4_end r3) eqn:E4; [|done].
    intros [= <- <-].
    apply eat_digits_sound in E3 as (d & Hd & Hl & Had).
    apply match_plus4_end_iff in E4 as (plus4 & eol & -> & Hp & He).
    exists (String c pre), plus4, eol.
    rewrite Hd, <- Hl, substring_prefix.
    split.
    { rewrite !append_cons, append_nil_l. do 3 f_equal.
      rewrite <- Hd. exact Hr. }
    simpl. rewrite Ea, Eb, Ec, Hpre. repeat split; try done.
  - intros (ws & plus4 & eol & -> & Hst & Hup & Hws & Hsp & Hzl & Hzd & Hp & He).
    destruct (two_chars st Hst) as (a & b & ->). simpl in Hup.
    apply andb_prop in Hup as [Ea Hup]. apply andb_prop in Hup as [Eb _].
    destruct ws as [|c ws]; [done|]. simpl in Hsp.
    apply andb_prop in Hsp as [Ec Hsp].
    rewrite !append_cons, append_nil_l. cbn [eat_two_upper].
    rewrite Ea, Eb. cbn [andb eat_spaces1]. rewrite Ec.
    cbn [mbind option_bind].
    rewrite drop_while_spaces; [|done|].
    + unfold eat_zip. rewrite <- Hzl at 1.
      rewrite eat_digits_complete by done.
      rewrite <- Hzl, substring_prefix.
      assert (match_plus4_end (plus4 +:+ eol) = true) as ->; [|done].
      apply match_plus4_end_iff. by exists plus4, eol.
    + intros c' r' Heq. destruct zip as [|z zip]; [done|].
      simpl in Heq. injection Heq as <- _. simpl in Hzd.
      apply andb_prop in Hzd as [Hz _]. by apply digit_not_space.
Qed.

Lemma eat_literal_ci_sound lit s rest :
  eat_literal_ci lit s = Some rest ->
  exists tok, s = tok +:+ rest /\ PyStr.lower tok = PyStr.lower lit.
Proof.
  revert s. induction lit as [|l lit IH]; intros s H; simpl in H.
  - injection H as <-. by exists "".
  - destruct s as [|c s]; [done|].
    destruct (Ascii.eqb (PyStr.lower_char c) (PyStr.lower_char l)) eqn:E; [|done].
    apply Ascii.eqb_eq in E. destruct (IH _ H) as (tok & -> & Ht).
    exists (String c tok). split; [done|].
    unfold PyStr.lower in *. simpl. congruence.
Qed.

Lemma eat_literal_ci_complete lit tok rest :
  PyStr.lower tok = PyStr.lower lit ->
  eat_literal_ci lit (tok +:+ rest) = Some rest.
Proof.
  revert tok. induction lit as [|l lit IH]; intros tok H.
  - destruct tok; [done|discriminate].
  - destruct tok as [|c tok]; [discriminate|]. unfold PyStr.lower in *.
    simpl in H. injection H as Hc Ht. rewrite append_cons. simpl.
    rewrite Hc, Ascii.eqb_refl. by apply IH.
Qed.

Lemma lower_length s : String.length (PyStr.lower s) = String.length s.
Proof. unfold PyStr.lower. induction s as [|c s IH]; simpl; congruence. Qed.

Lemma append_length (a b : string) :
  String.length (a +:+ b) = (String.length a + String.length b)%nat.
Proof. induction a as [|c a IH]; [done|]. rewrite append_cons. simpl. lia. Qed.

(** A token of the alternation holds no line feed. *)
Lemma token_no_line_feed tok pre post :
  PyStr.lower tok ∈ country_tokens -> tok <> pre +:+ line_feed +:+ post.
Proof.
  intros Hin ->.
  assert (PyStr.all_chars (fun c => negb (Ascii.eqb c "010"%char))
            (PyStr.lower (pre +:+ line_feed +:+ post)) = true) as H.
  { repeat (apply elem_of_cons in Hin as [->|Hin]; [vm_compute; reflexivity|]).
    by apply elem_of_nil in Hin. }
  clear Hin. induction pre as [|c pre IH].
  - vm_compute in H. discriminate.
  - rewrite append_cons in H. simpl in H. apply andb_prop in H as [_ H]. auto.
Qed.

(** Two ways of reading a text as a token followed by the end of the text
    agree on what is left. *)
Lemma token_rest_unique tok tok' rest rest' :
  tok +:+ rest = tok' +:+ rest' ->
  PyStr.lower tok ∈ country_tokens -> PyStr.lower tok' ∈ country_tokens ->
  (rest = "" \/ rest = line_feed) -> (rest' = "" \/ rest' = line_feed) ->
  rest = rest'.
Proof.
  intros Heq Ht Ht' [->| ->] [->| ->]; try done.
  - rewrite append_nil_r in Heq. exfalso.
    apply (token_no_line_feed tok tok' "" Ht). by rewrite append_nil_r.
  - rewrite append_nil_r in Heq. exfalso.
    apply (token_no_line_feed tok' tok "" Ht'). by rewrite append_nil_r.
Qed.

Lemma match_country_token_unfold s :
  match_country_token s
  = match try_token "USA" s with
    | Some rest => Some rest
    | None =>
        match try_token "US" s with
        | Some rest => Some rest
        | None => try_token "United States" s
        end
    end.
Proof. reflexivity. Qed.

Lemma try_token_sound lit s rest :
  PyStr.lower lit ∈ country_tokens ->
  try_token lit s = Some rest ->
  exists tok, s = tok +:+ rest /\ PyStr.lower tok ∈ country_tokens
              /\ (rest = "" \/ rest = line_feed).
Proof.
  intros Hl. unfold try_token.
  destruct (eat_literal_ci lit s) as [r|] eqn:E; [|done].
  destruct (at_dollar r) eqn:D; [|done]. intros [= ->].
  apply eat_literal_ci_sound in E as (tok & -> & Ht).
  exists tok. rewrite Ht. split; [done|]. split; [done|]. by apply at_dollar_iff.
Qed.

Lemma try_token_complete lit tok rest :
  PyStr.lower tok = PyStr.lower lit -> (rest = "" \/ rest = line_feed) ->
  try_token lit (tok +:+ rest) = Some rest.
Proof.
  intros Ht Hr. unfold try_token. rewrite eat_literal_ci_complete by done.
  apply at_dollar_iff in Hr. by rewrite Hr.
Qed.

Lemma match_country_token_sound s rest :
  match_country_token s = Some rest ->
  exists tok, s = tok +:+ rest /\ PyStr.lower tok ∈ country_tokens
              /\ (rest = "" \/ rest = line_feed).
Proof.
  rewrite match_country_token_unfold.
  destruct (try_token "USA" s) as [r1|] eqn:E1.
  { intros [= <-]. apply (try_token_sound "USA"); [|done].
    apply elem_of_cons. by left. }
  destruct (try_token "US" s) as [r2|] eqn:E2.
  { intros [= <-]. apply (try_token_sound "US"); [|done].
    apply elem_of_cons. right. apply elem_of_cons. by left. }
  intros E3. apply (try_token_sound "United States"); [|done].
  do 2 (apply elem_of_cons; right). apply elem_of_cons. by left.
Qed.

Lemma match_country_token_iff s rest :
  match_country_token s = Some rest <->
  exists tok, s = tok +:+ rest /\ PyStr.lower tok ∈ country_tokens
              /\ (rest = "" \/ rest = line_feed).
Proof.
  split; [apply match_country_token_sound|].
  intros (tok & -> & Ht & Hr).
  destruct (match_country_token (tok +:+ rest)) as [rest'|] eqn:E.
  - apply match_country_token_sound in E as (tok' & Heq & Ht' & Hr').
    f_equal. symmetry. by apply (token_rest_unique tok tok').
  - exfalso. rewrite match_country_token_unfold in E.
    destruct (try_token "USA" (tok +:+ rest)) eqn:E1; [done|].
    destruct (try_token "US" (tok +:+ rest)) eqn:E2; [done|].
    apply elem_of_cons in Ht as [Ht|Ht].
    { rewrite (try_token_complete "USA") in E1; done. }
    apply elem_of_cons in Ht as [Ht|Ht].
    { rewrite (try_token_complete "US") in E2; done. }
    apply elem_of_cons in Ht as [Ht|Ht]; [|by apply elem_of_nil in Ht].
    rewrite (try_token_complete "United States") in E; done.
Qed.

Lemma lower_u_not_space c : PyStr.lower_char c = "u"%char -> PyStr.is_space c = false.
Proof.
  destruct c as [[] [] [] [] [] [] [] []]; vm_compute; intros H;
    try reflexivity; discriminate.
Qed.

Lemma lower_u_not_comma c : PyStr.lower_char c = "u"%char -> c <> ","%char.
Proof. intros H ->. vm_compute in H. discriminate. Qed.

Lemma space_not_comma c : PyStr.is_space c = true -> c <> ","%char.
Proof. intros H ->. vm_compute in H. discriminate. Qed.

(** A token starts with the letter u in either case. *)
Lemma token_first_char tok :
  PyStr.lower tok ∈ country_tokens ->
  exists c r, tok = String c r /\ PyStr.lower_char c = "u"%char.
Proof.
  intros H. destruct tok as [|c r].
  - exfalso. repeat (apply elem_of_cons in H as [H|H]; [discriminate|]).
    by apply elem_of_nil in H.
  - exists c, r. split; [done|]. unfold PyStr.lower in H. simpl in H.
    repeat (apply elem_of_cons in H as [H|H]; [by injection H|]).
    by apply elem_of_nil in H.
Qed.

Lemma match_country_suffix_iff x eol :
  match_country_suffix x = Some eol <-> country_suffix x eol.
Proof.
  unfold match_country_suffix, country_suffix. split.
  - intros H. apply match_country_token_iff in H as (tok & Hx & Ht & He).
    destruct (drop_while_split PyStr.is_space
                match eat_char "," x with Some r => r | None => x end)
      as (ws & Hr & Hws).
    rewrite Hx in Hr.
    destruct x as [|c x].
    + cbn [eat_char] in Hr. exists "", ws, tok.
      rewrite append_nil_l, <- Hr. repeat split; try done. by left.
    + cbn [eat_char] in Hr. destruct (Ascii.eqb c ",") eqn:Ec.
      * apply Ascii.eqb_eq in Ec as ->. exists ",", ws, tok.
        rewrite append_cons, append_nil_l, <- Hr. repeat split; try done. by right.
      * exists "", ws, tok. rewrite append_nil_l, <- Hr. repeat split; try done.
        by left.
  - intros (comma & ws & tok & -> & Hc & Hws & Ht & He).
    destruct (token_first_char tok Ht) as (c & r & -> & Hu).
    assert (PyStr.drop_while PyStr.is_space (ws +:+ String c r +:+ eol)
            = String c r +:+ eol) as Hd.
    { apply drop_while_spaces; [done|]. intros c' r' Heq.
      rewrite append_cons in Heq. injection Heq as <- _.
      by apply lower_u_not_space. }
    destruct Hc as [->| ->].
    + rewrite append_nil_l.
      assert (eat_char "," (ws +:+ String c r +:+ eol) = None) as ->.
      { destruct ws as [|w ws].
        - rewrite append_nil_l, append_cons. cbn [eat_char].
          destruct (Ascii.eqb c ",") eqn:E; [|done].
          apply Ascii.eqb_eq in E. by apply lower_u_not_comma in Hu.
        - rewrite append_cons. cbn [eat_char]. simpl in Hws.
          apply andb_prop in Hws as [Hw _].
          destruct (Ascii.eqb w ",") eqn:E; [|done].
          apply Ascii.eqb_eq in E. by apply space_not_comma in Hw. }
      rewrite Hd. apply match_country_token_iff. by exists (String c r).
    + rewrite append_cons, append_nil_l. cbn [eat_char].
      rewrite Ascii.eqb_refl, Hd.
      apply match_country_token_iff. by exists (String c r).
Qed.

Lemma sub_country_unfold s :
  sub_country s
  = match match_country_suffix s with
    | Some rest => rest
    | None =>
        match s with
        | EmptyString => EmptyString
        | String c r => String c (sub_country r)
        end
    end.
Proof. by destruct s. Qed.

Lemma sub_country_no_match s :
  (forall pre x eol, s = pre +:+ x -> ~ country_suffix x eol) ->
  sub_country s = s.
Proof.
  induction s as [|c s IH]; intros H; rewrite sub_country_unfold.
  - destruct (match_country_suffix "") as [eol|] eqn:E; [|done].
    apply match_country_suffix_iff in E. by apply (H "" "" eol) in E.
  - destruct (match_country_suffix (String c s)) as [eol|] eqn:E.
    + apply match_country_suffix_iff in E. by apply (H "" (String c s) eol) in E.
    + f_equal. apply IH. intros pre x eol -> Hx.
      by apply (H (String c pre) x eol).
Qed.

Lemma sub_country_leftmost pre x eol :
  country_suffix x eol ->
  (forall pre' x' eol', pre +:+ x = pre' +:+ x' ->
     (String.length pre' < String.length pre)%nat -> ~ country_suffix x' eol') ->
  sub_country (pre +:+ x) = pre +:+ eol.
Proof.
  intros Hx. induction pre as [|c pre IH]; intros Hleft.
  - rewrite !append_nil_l, sub_country_unfold.
    apply match_country_suffix_iff in Hx. by rewrite Hx.
  - rewrite !append_cons, sub_country_unfold.
    destruct (match_country_suffix (String c (pre +:+ x))) as [eol'|] eqn:E.
    + apply match_country_suffix_iff in E. exfalso.
      apply (Hleft "" (String c (pre +:+ x)) eol'); [done|simpl; lia|done].
    + f_equal. apply IH. intros pre' x' eol' Heq Hlen.
      apply (Hleft (String c pre') x' eol').
      * by rewrite !append_cons, Heq.
      * simpl. lia.
Qed.

(** ** Stripping white space *)

Lemma lstrip_cases s :
  PyStr.lstrip s = ""
  \/ exists c r, PyStr.lstrip s = String c r /\ PyStr.is_space c = false.
Proof.
  induction s as [|c s IH]; simpl; [by left|].
  destruct (PyStr.is_space c) eqn:E; [done|]. right. by exists c, s.
Qed.

Lemma rstrip_cons_nonspace c r :
  PyStr.is_space c = false ->
  PyStr.rstrip (String c r) = String c (PyStr.rstrip r).
Proof. intros H. simpl. rewrite H. by destruct (PyStr.rstrip r). Qed.

Lemma rstrip_idempotent s : PyStr.rstrip (PyStr.rstrip s) = PyStr.rstrip s.
Proof.
  induction s as [|c s IH]; [done|]. simpl.
  destruct (PyStr.rstrip s) as [|c' r'] eqn:E.
  - destruct (PyStr.is_space c) eqn:Ec; [done|]. simpl. by rewrite Ec.
  - change (PyStr.rstrip (String c (String c' r')) = String c (String c' r')).
    cbn [PyStr.rstrip]. cbn [PyStr.rstrip] in IH. by rewrite IH.
Qed.

Lemma strip_idempotent s : PyStr.strip (PyStr.strip s) = PyStr.strip s.
Proof.
  unfold PyStr.strip.
  destruct (lstrip_cases s) as [->|(c & r & -> & Hc)]; [done|].
  rewrite rstrip_cons_nonspace by done. cbn [PyStr.lstrip]. rewrite Hc.
  rewrite rstrip_cons_nonspace by done. by rewrite rstrip_idempotent.
Qed.

(** ** The reverse parser of suggested addresses *)

(** Reading the state and the ZIP code off the last part fails. *)
Lemma parse_suggested_address_not_last_part :
  ~ (forall suggested parts last_part st zip,
       parts = map PyStr.strip
                 (PyStr.split_on "," (sub_country (PyStr.strip suggested))) ->
       (3 <= length parts)%nat ->
       last parts = Some last_part ->
       match_state_zip last_part = Some (st, zip) ->
       exists items,
         parse_suggested_address suggested = Some items
         /\ ("state", VStr st) ∈ items /\ ("zip_code", VStr zip) ∈ items).
Proof.
  intros H.
  destruct (H "123 Main St, Apt 4, San Francisco, CA 94102"
              ["123 Main St"; "Apt 4"; "San Francisco"; "CA 94102"]
              "CA 94102" "CA" "94102")
    as (items & Hp & _); try reflexivity.
  - simpl. lia.
  - vm_compute in Hp. discriminate Hp.
Qed.

(** C6 (amended). The reverse parser strips the input, removes the
    leftmost suffix that reads as an optional comma, white space and a
    country token (USA, US or United States in any case), splits the rest on
    commas and strips each part.  Fewer than three parts give the absent
    value.  The state and the ZIP code are read off the THIRD part, whatever
    the number of parts: when it has the shape of two upper-case letters,
    white space and five digits (optionally followed by a dash and four
    digits) the result holds both; otherwise a third part of exactly two
    letters gives its upper-case form as the state and no ZIP code; in every
    other case the result is absent. *)
Theorem parse_suggested_address_third_part (suggested : string) :
  let stripped := PyStr.strip suggested in
  let text := sub_country stripped in
  let parts := map PyStr.strip (PyStr.split_on "," text) in
  (forall pre x eol,
     stripped = pre +:+ x -> country_suffix x eol ->
     (forall pre' x' eol', stripped = pre' +:+ x' ->
        (String.length pre' < String.length pre)%nat ->
        ~ country_suffix x' eol') ->
     text = pre +:+ eol)
  /\ ((forall pre x eol, stripped = pre +:+ x -> ~ country_suffix x eol) ->
      text = stripped)
  /\ ((length parts < 3)%nat -> parse_suggested_address suggested = None)
  /\ (forall line1 city third rest,
        parts = line1 :: city :: third :: rest ->
        (forall st zip,
           state_zip_shape third st zip ->
           parse_suggested_address suggested
           = Some [ ("address_line1", VStr line1); ("city", VStr city);
                    ("state", VStr st); ("zip_code", VStr zip) ])
        /\ ((forall st zip, ~ state_zip_shape third st zip) ->
            String.length third = 2%nat -> PyStr.isalpha third = true ->
            parse_suggested_address suggested
            = Some [ ("address_line1", VStr line1); ("city", VStr city);
                     ("state", VStr (PyStr.upper third)) ])
        /\ ((forall st zip, ~ state_zip_shape third st zip) ->
            ~ (String.length third = 2%nat /\ PyStr.isalpha third = true) ->
            parse_suggested_address suggested = None)).
Proof.
  intros stripped text parts. split; [|split; [|split]].
  - intros pre x eol Hs Hx Hleft. unfold text. rewrite Hs.
    apply sub_country_leftmost; [done|]. intros pre' x' eol' Heq.
    apply Hleft. by rewrite Hs.
  - apply sub_country_no_match.
  - intros Hlen. unfold parse_suggested_address. fold stripped text parts.
    destruct parts as [|a [|b [|c l]]]; try done. simpl in Hlen. lia.
  - intros line1 city third rest Hparts.
    assert (PyStr.strip third = third) as Hstrip.
    { unfold parts in Hparts.
      destruct (PyStr.split_on "," text) as [|a [|b [|c l]]]; try done.
      injection Hparts as _ _ <- _. apply strip_idempotent. }
    unfold parse_suggested_address. fold stripped text parts.
    rewrite Hparts, Hstrip. split; [|split].
    + intros st zip Hshape. apply match_state_zip_iff in Hshape.
      by rewrite Hshape.
    + intros Hno Hl Ha.
      destruct (match_state_zip third) as [[st zip]|] eqn:E.
      { apply match_state_zip_iff in E. by apply Hno in E. }
      rewrite Hl, Ha. done.
    + intros Hno Hnot.
      destruct (match_state_zip third) as [[st zip]|] eqn:E.
      { apply match_state_zip_iff in E. by apply Hno in E. }
      destruct ((String.length third =? 2)%nat && PyStr.isalpha third) eqn:Eb;
        [|done].
      apply andb_prop in Eb as [E1 E2]. apply Nat.eqb_eq in E1. exfalso. auto.
Qed.

(** ** Slots that were never provided *)

Ltac proj_state :=
  cbn [final_state slots current_state address_validation_attempts
       pending_address_suggestion pending_name_matches
       set_current_state set_slots set_slot set_attempts
       set_pending_address_suggestion set_pending_name_matches set_returning
       set_matched_providers set_selected_provider set_available_slots
       set_selected_appointment fst snd] in *.

Lemma dict_update_frame d items k :
  k ∉ items.*1 -> dict_update d items !! k = d !! k.
Proof.
  unfold dict_update. revert d. induction items as [|[key v] items IH]; intros d Hk.
  - done.
  - rewrite fmap_cons in Hk. apply not_elem_of_cons in Hk as [Hne Hk].
    cbn [fold_left]. rewrite IH by done. cbn. by rewrite lookup_insert_ne.
Qed.

Lemma merge_slots_frame s extracted k :
  k ∉ extracted.*1 ->
  slots (merge_slots s extracted).1 !! k = slots s !! k.
Proof. apply merge_fold_frame. Qed.

Lemma merge_slots_pending_names s extracted :
  pending_name_matches (merge_slots s extracted).1 = pending_name_matches s.
Proof. by rewrite merge_slots_only_slots. Qed.

Lemma merge_slots_pending_suggestion s extracted :
  pending_address_suggestion (merge_slots s extracted).1
  = pending_address_suggestion s.
Proof. by rewrite merge_slots_only_slots. Qed.

Lemma parse_suggested_address_keys suggested items k :
  parse_suggested_address suggested = Some items ->
  k ∈ items.*1 -> k ∈ address_fields.
Proof.
  unfold parse_suggested_address.
  destruct (map PyStr.strip _) as [|p0 [|p1 [|p2 l]]]; try done.
  destruct (match_state_zip (PyStr.strip p2)) as [[st zip]|].
  - intros [= <-]. cbn. intros H.
    repeat (apply elem_of_cons in H as [->|H];
            [unfold address_fields; set_solver|]).
    by apply elem_of_nil in H.
  - destruct (_ && _); [|done]. intros [= <-]. cbn. intros H.
    repeat (apply elem_of_cons in H as [->|H];
            [unfold address_fields; set_solver|]).
    by apply elem_of_nil in H.
Qed.

Lemma handle_query_providers_slots s t :
  slots (final_state (handle_query_providers s t)) = slots s.
Proof.
  unfold handle_query_providers.
  repeat match goal with
         | |- context [if ?b then _ else _] => destruct b
         end; done.
Qed.

Ltac branch :=
  match goal with
  | |- context [if ?b then _ else _] => destruct b eqn:?
  | |- context [match ?x with _ => _ end] => destruct x eqn:?
  end.

Lemma select_provider_slots s t i :
  slots (final_state (select_provider s t i)) = slots s.
Proof. unfold select_provider. repeat branch; done. Qed.

Lemma select_time_slots s t i :
  slots (final_state (select_time s t i)) = slots s.
Proof. unfold select_time. repeat branch; done. Qed.

Lemma do_address_validation_pending s t newly_filled :
  let s' := final_state (do_address_validation s t newly_filled) in
  pending_name_matches s' = pending_name_matches s
  /\ (pending_address_suggestion s' = pending_address_suggestion s
      \/ pending_address_suggestion s' = suggested_address (validation t)).
Proof.
  unfold do_address_validation. repeat branch; proj_state; auto.
Qed.

Lemma handle_query_providers_pending s t :
  let s' := final_state (handle_query_providers s t) in
  pending_name_matches s' = pending_name_matches s
  /\ pending_address_suggestion s' = pending_address_suggestion s.
Proof. unfold handle_query_providers. repeat branch; done. Qed.

Ltac pending_merge s t :=
  let Hn := fresh "Hn" in
  let Hs := fresh "Hs" in
  pose proof (merge_slots_pending_names s (extracted t)) as Hn;
  pose proof (merge_slots_pending_suggestion s (extracted t)) as Hs;
  destruct (merge_slots s (extracted t)) as [?s1 ?filled]; proj_state.

Ltac pending_validation :=
  repeat match goal with
  | |- context [final_state (then_say _ _)] => rewrite final_state_then_say
  | |- context [final_state (say_then _ _)] => rewrite final_state_say_then
  | |- context [final_state (do_address_validation ?s ?t ?f)] =>
      let H1 := fresh in let H2 := fresh in
      destruct (do_address_validation_pending s t f) as [H1 H2];
      cbn zeta in H1, H2;
      generalize dependent (final_state (do_address_validation s t f)); intros
  | |- context [final_state (handle_query_providers ?s ?t)] =>
      let H1 := fresh in let H2 := fresh in
      destruct (handle_query_providers_pending s t) as [H1 H2];
      cbn zeta in H1, H2;
      generalize dependent (final_state (handle_query_providers s t)); intros
  end.

Ltac pending_close :=
  unfold pending_ok; proj_state;
  split; repeat match goal with H : _ \/ _ |- _ => destruct H end;
  first [ left; congruence | right; left; congruence | right; right; congruence ].

Lemma process_input_pending s t :
  pending_ok s t (final_state (process_input s t)).
Proof.
  unfold process_input.
  destruct (current_state s).
  - unfold handle_greet. pending_close.
  - unfold handle_check_patient, _set_returning_patient. pending_merge s t.
    repeat branch; pending_close.
  - unfold handle_verify_dob, _set_returning_patient. pending_merge s t.
    repeat branch; pending_close.
  - unfold handle_confirm_returning. pending_merge s t.
    repeat branch; pending_validation; pending_close.
  - unfold handle_collection. pending_merge s t.
    repeat branch; pending_validation; pending_close.
  - unfold handle_confirm_patient, handle_phase_confirm,
      advance_to_next_actionable_state. pending_merge s t.
    repeat branch; pending_validation; pending_close.
  - unfold handle_collection. pending_merge s t.
    repeat branch; pending_validation; pending_close.
  - unfold handle_confirm_insurance, handle_phase_confirm,
      advance_to_next_actionable_state. pending_merge s t.
    repeat branch; pending_validation; pending_close.
  - unfold handle_collection. pending_merge s t.
    repeat branch; pending_validation; pending_close.
  - unfold handle_validate_address. pending_merge s t.
    repeat branch; pending_validation; pending_close.
  - unfold handle_confirm_address, handle_phase_confirm,
      advance_to_next_actionable_state. pending_merge s t.
    repeat branch; pending_validation; pending_close.
  - unfold handle_collection. pending_merge s t.
    repeat branch; pending_validation; pending_close.
  - pending_validation; pending_close.
  - unfold handle_select_provider, select_provider. repeat branch; pending_close.
  - unfold handle_select_time, select_time. repeat branch; pending_close.
  - unfold handle_confirm. pending_merge s t. repeat branch; pending_close.
  - pending_close.
Qed.

Lemma run_snoc ts t :
  run (ts ++ [t])%list = final_state (process_input (run ts) t).
Proof. unfold run. by rewrite fold_left_app. Qed.

Lemma default_slots_values k v :
  default_slots !! k = Some v ->
  (k = "address_validated" /\ v = VBool false)
  \/ (k <> "address_validated" /\ v = VNone).
Proof.
  unfold default_slots. intros H. apply elem_of_list_to_map_2 in H.
  repeat (apply elem_of_cons in H as [[= -> ->]|H];
          [first [by left | by right]|]).
  by apply elem_of_nil in H.
Qed.

(** The new slot record holds a value that is not the absent one. *)
Lemma new_state_address_validated_not_none :
  ~ (forall k v, slots new_state !! k = Some v -> v = VNone).
Proof.
  intros H. specialize (H "address_validated" (VBool false)).
  discriminate H. vm_compute. reflexivity.
Qed.

Lemma reachable_run s : reachable s -> exists ts, s = run ts.
Proof.
  induction 1 as [|s t _ [ts ->]].
  - by exists [].
  - exists (ts ++ [t])%list. by rewrite run_snoc.
Qed.

(** ** Normalisers and the completion check *)

Lemma filter_chars_idempotent p s :
  PyStr.filter_chars p (PyStr.filter_chars p s) = PyStr.filter_chars p s.
Proof.
  induction s as [|c s IH]; simpl; [done|].
  destruct (p c) eqn:E; simpl; [by rewrite E, IH|done].
Qed.

Lemma filter_chars_id p s :
  PyStr.all_chars p s = true -> PyStr.filter_chars p s = s.
Proof.
  induction s as [|c s IH]; simpl; [done|]. intros H.
  apply andb_prop in H as [-> H]. by rewrite IH.
Qed.

Lemma remove_char_id x s :
  PyStr.all_chars (fun c => negb (Ascii.eqb c x)) s = true ->
  PyStr.remove_char x s = s.
Proof.
  induction s as [|c s IH]; simpl; [done|]. intros H.
  apply andb_prop in H as [Hc H]. apply negb_true_iff in Hc. rewrite Hc.
  by rewrite IH.
Qed.

Lemma all_chars_impl (p q : ascii -> bool) s :
  (forall c, p c = true -> q c = true) ->
  PyStr.all_chars p s = true -> PyStr.all_chars q s = true.
Proof.
  intros Hpq. induction s as [|c s IH]; simpl; [done|]. intros H.
  apply andb_prop in H as [Hc H]. by rewrite (Hpq c Hc), IH.
Qed.

Lemma digit_not_char c x :
  PyStr.is_digit x = false -> PyStr.is_digit c = true ->
  negb (Ascii.eqb c x) = true.
Proof.
  intros Hx Hc. apply negb_true_iff. destruct (Ascii.eqb c x) eqn:E; [|done].
  apply Ascii.eqb_eq in E. congruence.
Qed.

(** Whatever [normalize_phone] returns is a digit string. *)
Lemma normalize_phone_digits v p :
  normalize_phone v = Some p ->
  PyStr.nonempty p = true /\ PyStr.all_chars PyStr.is_digit p = true.
Proof.
  destruct v as [v|]; [|done]. unfold normalize_phone.
  rewrite re_sub_non_digit.
  pose proof (filter_chars_all PyStr.is_digit v) as Hd.
  destruct (negb (PyStr.nonempty v)); [done|].
  destruct (PyStr.filter_chars PyStr.is_digit v) as [|c d] eqn:E; [done|].
  cbn [PyStr.nonempty negb]. cbn [String.length startswith_char drop_first].
  destruct ((S (String.length d) =? 11)%nat && Ascii.eqb c "1") eqn:Eb.
  - intros [= <-]. simpl in Hd. apply andb_prop in Hd as [_ Hd].
    apply andb_prop in Eb as [El _]. apply Nat.eqb_eq in El.
    split; [|done]. destruct d; [discriminate El|done].
  - intros [= <-]. done.
Qed.

Lemma normalize_phone_eq v :
  normalize_phone (Some v)
  = let digits := PyStr.filter_chars PyStr.is_digit v in
    if negb (PyStr.nonempty digits) then None
    else if (String.length digits =? 11)%nat && startswith_char "1" digits
         then Some (drop_first digits) else Some digits.
Proof.
  unfold normalize_phone. rewrite re_sub_non_digit. by destruct v.
Qed.

Lemma all_digits_tail c d :
  PyStr.all_chars PyStr.is_digit (String c d) = true ->
  PyStr.all_chars PyStr.is_digit d = true.
Proof. simpl. intros H. by apply andb_prop in H as [_ H]. Qed.

(** X1. A phone number returned by the normaliser passes the phone check of
    the completion test, and normalising it again changes nothing. *)
Theorem normalize_phone_valid_and_idempotent (v : option string) :
  (forall p, normalize_phone v = Some p ->
             _is_valid_slot "phone" (VStr p) = true)
  /\ normalize_phone (normalize_phone v) = normalize_phone v.
Proof.
  split.
  - intros p Hp. destruct (normalize_phone_digits v p Hp) as [Hne Hd].
    assert (forall x, PyStr.is_digit x = false -> PyStr.remove_char x p = p)
      as Hrm.
    { intros x Hx. apply remove_char_id. revert Hd. apply all_chars_impl.
      intros c. by apply digit_not_char. }
    unfold _is_valid_slot. cbn [py_truthy py_str]. rewrite Hne.
    cbn [negb String.eqb Ascii.eqb Bool.eqb]. rewrite !Hrm by done.
    unfold PyStr.isdigit. rewrite Hne, Hd. by destruct p.
  - destruct v as [v|]; [|done]. rewrite normalize_phone_eq. cbn zeta.
    pose proof (filter_chars_all PyStr.is_digit v) as Hd.
    destruct (PyStr.filter_chars PyStr.is_digit v) as [|c d] eqn:E; [done|].
    cbn [PyStr.nonempty negb].
    destruct ((String.length (String c d) =? 11)%nat
              && startswith_char "1" (String c d)) eqn:Eb.
    + apply andb_prop in Eb as [El _]. apply Nat.eqb_eq in El.
      cbn [drop_first]. rewrite normalize_phone_eq. cbn zeta.
      rewrite (filter_chars_id _ _ (all_digits_tail c d Hd)).
      simpl in El. destruct d as [|c' d']; [discriminate El|].
      cbn [PyStr.nonempty negb].
      replace (String.length (String c' d') =? 11)%nat with false; [done|].
      symmetry. apply Nat.eqb_neq. simpl in *. lia.
    + rewrite normalize_phone_eq. cbn zeta. rewrite (filter_chars_id _ _ Hd).
      cbn [PyStr.nonempty negb]. by rewrite Eb.
Qed.

#[local] Arguments eat_digits !n !s /.

Lemma eat_digits_1_2_sound s g r :
  eat_digits_1_2 s = Some (g, r) ->
  s = g +:+ r /\ PyStr.all_chars PyStr.is_digit g = true
  /\ (String.length g = 1%nat \/ String.length g = 2%nat).
Proof.
  unfold eat_digits_1_2. destruct s as [|a [|b r']]; [done| |].
  - destruct (PyStr.is_digit a) eqn:Ea; [|done]. intros [= <- <-].
    simpl. rewrite Ea. auto.
  - destruct (PyStr.is_digit a) eqn:Ea; [|done].
    destruct (PyStr.is_digit b) eqn:Eb; intros [= <- <-]; simpl;
      rewrite ?Ea, ?Eb; auto.
Qed.

Lemma eat_char_sound x s r : eat_char x s = Some r -> s = String x r.
Proof.
  destruct s as [|c s]; [done|]. simpl.
  destruct (Ascii.eqb c x) eqn:E; [|done]. intros [= <-].
  by apply Ascii.eqb_eq in E as ->.
Qed.

(** A digit string of one or two characters padded to width two. *)
Lemma zfill_two_digits g :
  PyStr.all_chars PyStr.is_digit g = true ->
  (String.length g = 1%nat \/ String.length g = 2%nat) ->
  String.length (zfill 2 g) = 2%nat
  /\ PyStr.all_chars PyStr.is_digit (zfill 2 g) = true.
Proof.
  intros Hd Hl. destruct g as [|a [|b [|c g]]]; simpl in Hl; try lia.
  - simpl in Hd. apply andb_prop in Hd as [Ha _]. unfold zfill.
    assert (Ascii.eqb a "+" || Ascii.eqb a "-" = false) as ->.
    { apply orb_false_intro; apply negb_true_iff;
        by apply digit_not_char. }
    simpl. by rewrite Ha.
  - simpl in Hd. apply andb_prop in Hd as [Ha Hd].
    apply andb_prop in Hd as [Hb _]. unfold zfill.
    destruct (Ascii.eqb a "+" || Ascii.eqb a "-"); simpl; by rewrite Ha, Hb.
Qed.

Lemma eat_digits_short n g x r :
  (String.length g < n)%nat -> PyStr.is_digit x = false ->
  eat_digits n (g +:+ String x r) = None.
Proof.
  revert g. induction n as [|n IH]; intros g Hl Hx; [lia|].
  destruct g as [|c g].
  - rewrite append_nil_l. simpl. by rewrite Hx.
  - rewrite append_cons. simpl. destruct (PyStr.is_digit c); [|done].
    apply IH; [simpl in Hl; lia|done].
Qed.

(** What a match of the month-day-year pattern says about the text. *)
Lemma match_mdy_sound sep s m d y :
  match_mdy sep s = Some (m, d, y) ->
  exists eol,
    s = m +:+ String sep (d +:+ String sep (y +:+ eol))
    /\ PyStr.all_chars PyStr.is_digit m = true
    /\ (String.length m = 1%nat \/ String.length m = 2%nat)
    /\ PyStr.all_chars PyStr.is_digit d = true
    /\ (String.length d = 1%nat \/ String.length d = 2%nat)
    /\ PyStr.all_chars PyStr.is_digit y = true
    /\ String.length y = 4%nat
    /\ (eol = "" \/ eol = line_feed).
Proof.
  unfold match_mdy.
  destruct (eat_digits_1_2 s) as [[m' r1]|] eqn:E1; [|done].
  destruct (eat_char sep r1) as [r2|] eqn:E2; [|done]. cbn [mbind option_bind].
  destruct (eat_digits_1_2 r2) as [[d' r3]|] eqn:E3; [|done].
  destruct (eat_char sep r3) as [r4|] eqn:E4; [|done].
  destruct (eat_digits 4 r4) as [r5|] eqn:E5; [|done].
  destruct (at_dollar r5) eqn:E6; [|done]. intros [= <- <- <-].
  apply eat_digits_1_2_sound in E1 as (-> & Hm & Hml).
  apply eat_char_sound in E2 as ->.
  apply eat_digits_1_2_sound in E3 as (-> & Hd & Hdl).
  apply eat_char_sound in E4 as ->.
  apply eat_digits_sound in E5 as (y & -> & Hyl & Hy).
  apply at_dollar_iff in E6.
  exists r5. rewrite <- Hyl, substring_prefix. repeat split; try done.
Qed.

Lemma eat_digits_exact n d rest :
  String.length d = n -> PyStr.all_chars PyStr.is_digit d = true ->
  eat_digits n (d +:+ rest) = Some rest.
Proof. intros <-. apply eat_digits_complete. Qed.

Lemma ymd_valid m d y :
  PyStr.all_chars PyStr.is_digit m = true ->
  (String.length m = 1%nat \/ String.length m = 2%nat) ->
  PyStr.all_chars PyStr.is_digit d = true ->
  (String.length d = 1%nat \/ String.length d = 2%nat) ->
  PyStr.all_chars PyStr.is_digit y = true -> String.length y = 4%nat ->
  match_dob (ymd m d y) = true.
Proof.
  intros Hm Hml Hd Hdl Hy Hyl.
  destruct (zfill_two_digits m Hm Hml) as [Lm Dm].
  destruct (zfill_two_digits d Hd Hdl) as [Ld Dd].
  unfold match_dob, ymd.
  rewrite (eat_digits_exact 4 y) by done. cbn [mbind option_bind].
  rewrite append_cons, append_nil_l. cbn [eat_char].
  rewrite Ascii.eqb_refl. cbn [mbind option_bind].
  rewrite (eat_digits_exact 2 (zfill 2 m)) by done. cbn [mbind option_bind].
  rewrite append_cons, append_nil_l. cbn [eat_char].
  rewrite Ascii.eqb_refl. cbn [mbind option_bind].
  rewrite <- (append_nil_r (zfill 2 d)).
  rewrite (eat_digits_exact 2 (zfill 2 d)) by done. done.
Qed.

Lemma match_mdy_not_canonical sep s m d y :
  PyStr.is_digit sep = false ->
  match_mdy sep s = Some (m, d, y) -> match_dob s = false.
Proof.
  intros Hsep H. apply match_mdy_sound in H as (eol & -> & _ & Hml & _).
  unfold match_dob. rewrite eat_digits_short; [done|lia|done].
Qed.

Lemma match_mdy_other_separator sep sep' s m d y :
  sep <> sep' ->
  match_mdy sep s = Some (m, d, y) -> match_mdy sep' s = None.
Proof.
  intros Hne H. unfold match_mdy in *.
  destruct (eat_digits_1_2 s) as [[m' r1]|]; [|done].
  destruct (eat_char sep r1) as [r2|] eqn:E2; [|done].
  apply eat_char_sound in E2 as ->. cbn [eat_char].
  destruct (Ascii.eqb sep sep') eqn:E; [|done].
  by apply Ascii.eqb_eq in E.
Qed.

Lemma match_dob_nonempty s : match_dob s = true -> PyStr.nonempty s = true.
Proof. by destruct s. Qed.

Lemma eat_digits_1_2_complete g x r :
  PyStr.all_chars PyStr.is_digit g = true ->
  (String.length g = 1%nat \/ String.length g = 2%nat) ->
  PyStr.is_digit x = false ->
  eat_digits_1_2 (g +:+ String x r) = Some (g, String x r).
Proof.
  intros Hd Hl Hx. destruct g as [|a [|b [|c g]]]; simpl in Hl; try lia.
  - simpl in Hd. apply andb_prop in Hd as [Ha _].
    rewrite append_cons, append_nil_l. unfold eat_digits_1_2.
    by rewrite Ha, Hx.
  - simpl in Hd. apply andb_prop in Hd as [Ha Hd].
    apply andb_prop in Hd as [Hb _].
    rewrite !append_cons, append_nil_l. unfold eat_digits_1_2.
    by rewrite Ha, Hb.
Qed.

(** Every text of the month-day-year form matches the pattern. *)
Lemma match_mdy_complete sep m d y eol :
  PyStr.is_digit sep = false ->
  PyStr.all_chars PyStr.is_digit m = true ->
  (String.length m = 1%nat \/ String.length m = 2%nat) ->
  PyStr.all_chars PyStr.is_digit d = true ->
  (String.length d = 1%nat \/ String.length d = 2%nat) ->
  PyStr.all_chars PyStr.is_digit y = true -> String.length y = 4%nat ->
  eol = "" \/ eol = line_feed ->
  match_mdy sep (m +:+ String sep (d +:+ String sep (y +:+ eol)))
  = Some (m, d, y).
Proof.
  intros Hsep Hm Hml Hd Hdl Hy Hyl He. unfold match_mdy.
  rewrite eat_digits_1_2_complete by done. cbn [eat_char].
  rewrite Ascii.eqb_refl. cbn [mbind option_bind].
  rewrite eat_digits_1_2_complete by done. cbn [eat_char].
  rewrite Ascii.eqb_refl.
  rewrite (eat_digits_exact 4 y eol) by done.
  apply at_dollar_iff in He. rewrite He.
  by rewrite <- Hyl, substring_prefix.
Qed.

(** X2. A date of birth already written as four digits, two digits and two
    digits joined by dashes is returned unchanged.  A date written as month,
    day and year with slashes or with dashes, the month and the day of one
    or two digits and the year of four, is rewritten as year, month and day
    with dashes, the month and the day padded to two digits: every text of
    that form matches the pattern of the normaliser, as 5/20/1988 and
    12-1-2000 do, and whatever matches is rewritten.  The result passes the
    date check of the completion test.  Normalising a result again changes
    nothing. *)
Theorem normalize_dob_canonical (s : string) :
  (match_dob s = true -> normalize_dob (Some s) = Some s)
  /\ (forall sep m d y,
        sep = "/"%char \/ sep = "-"%char ->
        match_mdy sep s = Some (m, d, y) ->
        normalize_dob (Some s) = Some (ymd m d y)
        /\ _is_valid_slot "date_of_birth" (VStr (ymd m d y)) = true)
  /\ (forall sep m d y eol,
        sep = "/"%char \/ sep = "-"%char ->
        PyStr.all_chars PyStr.is_digit m = true ->
        String.length m = 1%nat \/ String.length m = 2%nat ->
        PyStr.all_chars PyStr.is_digit d = true ->
        String.length d = 1%nat \/ String.length d = 2%nat ->
        PyStr.all_chars PyStr.is_digit y = true -> String.length y = 4%nat ->
        eol = "" \/ eol = line_feed ->
        s = m +:+ String sep (d +:+ String sep (y +:+ eol)) ->
        normalize_dob (Some s) = Some (ymd m d y)
        /\ _is_valid_slot "date_of_birth" (VStr (ymd m d y)) = true)
  /\ normalize_dob (Some "5/20/1988") = Some "1988-05-20"
  /\ normalize_dob (Some "12-1-2000") = Some "2000-12-01"
  /\ normalize_dob (normalize_dob (Some s)) = normalize_dob (Some s).
Proof.
  assert (forall sep m d y,
            sep = "/"%char \/ sep = "-"%char ->
            match_mdy sep s = Some (m, d, y) ->
            normalize_dob (Some s) = Some (ymd m d y)
            /\ match_dob (ymd m d y) = true) as Hmdy.
  { intros sep m d y Hsep H.
    pose proof (match_mdy_sound _ _ _ _ _ H)
      as (eol & Hs & Hm & Hml & Hd & Hdl & Hy & Hyl & _).
    split; [|by apply ymd_valid].
    assert (PyStr.nonempty s = true) as Hne.
    { rewrite Hs. destruct m; [simpl in Hml; lia|done]. }
    unfold normalize_dob. rewrite Hne. cbn [negb].
    rewrite (match_mdy_not_canonical sep s m d y); [|by destruct Hsep as [->| ->]|done].
    destruct Hsep as [->| ->].
    - by rewrite H.
    - by rewrite (match_mdy_other_separator "-" "/" s m d y), H. }
  assert (forall sep m d y,
            sep = "/"%char \/ sep = "-"%char ->
            match_mdy sep s = Some (m, d, y) ->
            normalize_dob (Some s) = Some (ymd m d y)
            /\ _is_valid_slot "date_of_birth" (VStr (ymd m d y)) = true)
    as Hvalid.
  { intros sep m d y Hsep H. destruct (Hmdy sep m d y Hsep H) as [E V].
    split; [done|]. unfold _is_valid_slot. cbn [py_truthy py_str].
    rewrite (match_dob_nonempty _ V). done. }
  split; [|split; [exact Hvalid|split; [|split; [|split]]]].
  - intros H. unfold normalize_dob.
    by rewrite (match_dob_nonempty s H), H.
  - intros sep m d y eol Hsep Hm Hml Hd Hdl Hy Hyl He ->.
    apply (Hvalid sep). { done. }
    apply match_mdy_complete; try done. by destruct Hsep as [->| ->].
  - vm_compute. reflexivity.
  - vm_compute. reflexivity.
  - assert (forall out, match_dob out = true ->
                        normalize_dob (Some out) = Some out) as Hcanon.
    { intros out H. unfold normalize_dob.
      by rewrite (match_dob_nonempty out H), H. }
    unfold normalize_dob at 2 3.
    destruct (negb (PyStr.nonempty s)) eqn:Hne; [done|].
    destruct (match_dob s) eqn:Hc; [by apply Hcanon|].
    destruct (match_mdy "/" s) as [[[m d] y]|] eqn:E1.
    { apply Hcanon. apply (Hmdy "/"%char m d y); auto. }
    destruct (match_mdy "-" s) as [[[m d] y]|] eqn:E2.
    { apply Hcanon. apply (Hmdy "-"%char m d y); auto. }
    unfold normalize_dob. by rewrite Hne, Hc, E1, E2.
Qed.

Lemma upper_char_idempotent c :
  PyStr.upper_char (PyStr.upper_char c) = PyStr.upper_char c.
Proof. destruct c as [[] [] [] [] [] [] [] []]; reflexivity. Qed.

Lemma upper_char_space c : PyStr.is_space (PyStr.upper_char c) = PyStr.is_space c.
Proof. destruct c as [[] [] [] [] [] [] [] []]; reflexivity. Qed.

Lemma upper_char_not_lower c : PyStr.is_lower (PyStr.upper_char c) = false.
Proof. destruct c as [[] [] [] [] [] [] [] []]; reflexivity. Qed.

Lemma upper_idempotent s : PyStr.upper (PyStr.upper s) = PyStr.upper s.
Proof.
  unfold PyStr.upper. induction s as [|c s IH]; simpl; [done|].
  by rewrite upper_char_idempotent, IH.
Qed.

Lemma upper_no_lower s :
  PyStr.all_chars (fun c => negb (PyStr.is_lower c)) (PyStr.upper s) = true.
Proof.
  unfold PyStr.upper. induction s as [|c s IH]; simpl; [done|].
  by rewrite upper_char_not_lower, IH.
Qed.

Lemma upper_length s : String.length (PyStr.upper s) = String.length s.
Proof. unfold PyStr.upper. induction s as [|c s IH]; simpl; congruence. Qed.

Lemma lstrip_upper s : PyStr.lstrip (PyStr.upper s) = PyStr.upper (PyStr.lstrip s).
Proof.
  unfold PyStr.upper. induction s as [|c s IH]; simpl; [done|].
  rewrite upper_char_space. by destruct (PyStr.is_space c).
Qed.

Lemma rstrip_upper s : PyStr.rstrip (PyStr.upper s) = PyStr.upper (PyStr.rstrip s).
Proof.
  unfold PyStr.upper. induction s as [|c s IH]; simpl; [done|].
  rewrite IH, upper_char_space.
  destruct (PyStr.rstrip s); simpl; [by destruct (PyStr.is_space c)|done].
Qed.

Lemma strip_upper s : PyStr.strip (PyStr.upper s) = PyStr.upper (PyStr.strip s).
Proof. unfold PyStr.strip. by rewrite lstrip_upper, rstrip_upper. Qed.

Lemma strip_all_space s :
  PyStr.all_chars PyStr.is_space s = true -> PyStr.strip s = "".
Proof.
  unfold PyStr.strip. induction s as [|c s IH]; simpl; [done|].
  intros H. apply andb_prop in H as [-> H]. by apply IH.
Qed.

(** Every code of the table is two characters long and is left alone by
    stripping and upper-casing. *)
Lemma states_codes key code :
  (key, code) ∈ states ->
  String.length code = 2%nat /\ PyStr.upper (PyStr.strip code) = code.
Proof.
  unfold states. intros H.
  repeat (apply elem_of_cons in H as [[= -> ->]|H]; [by vm_compute|]).
  by apply elem_of_nil in H.
Qed.

Lemma states_get_cases v :
  states_get v = v \/ exists key, (key, states_get v) ∈ states.
Proof.
  unfold states_get.
  destruct (find (fun kv => String.eqb kv.1 v) states) as [[key code]|] eqn:E;
    [|by left].
  right. exists key. apply find_some in E as [Hin _].
  by apply list_elem_of_In.
Qed.

Lemma states_names key code :
  (key, code) ∈ states ->
  PyStr.nonempty key = true /\ (String.length key =? 2)%nat = false
  /\ states_get key = code.
Proof.
  unfold states. intros H.
  repeat (apply elem_of_cons in H as [[= -> ->]|H]; [by vm_compute|]).
  by apply elem_of_nil in H.
Qed.

(** X3. The state normaliser maps a full state name of its table, in any
    letter case and with surrounding white space, to the table's code.  An
    input of white space only gives the empty string, not the absent value.
    Every result is free of lower-case letters, and a non-empty result is a
    fixed point of the normaliser. *)
Theorem normalize_state_edges (s : string) :
  (forall key code,
     (key, code) ∈ states -> PyStr.upper (PyStr.strip s) = key ->
     normalize_state (Some s) = Some code)
  /\ (PyStr.nonempty s = true -> PyStr.all_chars PyStr.is_space s = true ->
      normalize_state (Some s) = Some "")
  /\ (forall out, normalize_state (Some s) = Some out ->
        PyStr.all_chars (fun c => negb (PyStr.is_lower c)) out = true
        /\ (out <> "" -> normalize_state (Some out) = Some out)).
Proof.
  split; [|split].
  - intros key code Hin Hk.
    destruct (states_names key code Hin) as (Hne & Hl & Hg).
    unfold normalize_state. rewrite Hk, Hl, Hg.
    destruct s as [|c s]; [|done]. by rewrite <- Hk in Hne.
  - intros Hne Hsp. unfold normalize_state. rewrite Hne.
    by rewrite (strip_all_space s Hsp).
  - intros out. unfold normalize_state at 1.
    destruct (negb (PyStr.nonempty s)); [done|].
    set (u := PyStr.upper (PyStr.strip s)).
    assert (PyStr.upper (PyStr.strip u) = u) as Hu.
    { unfold u. by rewrite strip_upper, strip_idempotent, upper_idempotent. }
    assert (forall x, x <> "" -> PyStr.upper (PyStr.strip x) = x ->
              String.length x = 2%nat \/ states_get x = x ->
              normalize_state (Some x) = Some x) as Hfix.
    { intros x Hx Hxu Hcase. unfold normalize_state.
      destruct x as [|c x]; [done|]. cbn [PyStr.nonempty negb]. rewrite Hxu.
      destruct Hcase as [->| ->]; [done|]. by destruct (_ =? _)%nat. }
    destruct (String.length u =? 2)%nat eqn:El.
    + intros [= <-]. split; [apply upper_no_lower|]. intros Hne.
      apply Hfix; try done. left. by apply Nat.eqb_eq.
    + intros [= <-]. destruct (states_get_cases u) as [E|[key Hin]].
      * rewrite E. split; [apply upper_no_lower|]. intros Hne.
        apply Hfix; try done. by right.
      * destruct (states_codes _ _ Hin) as [Hl Hc]. split.
        -- rewrite <- Hc. apply upper_no_lower.
        -- intros Hne. apply Hfix; try done. by left.
Qed.

(** ** The transition function *)

(** X4. The transition function never names an earlier phase, with one
    exception: from the address validation it returns to the address
    collection while the validation flag is absent.  It names the current
    phase again only in a collection phase whose required slots are not
    all valid, in the provider query without providers, in a selection
    phase without a selection, and at the end. *)
Theorem get_next_state_progress (s : ConversationState) :
  let next := get_next_state s in
  ((phase_rank (current_state s) <= phase_rank next)%nat
   \/ (current_state s = VALIDATE_ADDRESS
       /\ dict_get (slots s) "address_validated" = VNone
       /\ next = COLLECT_ADDRESS))
  /\ (next = current_state s ->
      (exists required,
         PHASE_REQUIREMENTS (current_state s) = Some required
         /\ is_phase_complete s (current_state s) = false)
      \/ (current_state s = QUERY_PROVIDERS /\ matched_providers s = [])
      \/ (current_state s = SELECT_PROVIDER
          /\ opt_truthy (selected_provider_id s) = false)
      \/ (current_state s = SELECT_TIME
          /\ opt_truthy (selected_appointment_id s) = false)
      \/ current_state s = END).
Proof.
  intros next. unfold next, get_next_state. split.
  - destruct (current_state s) eqn:Hc; simpl;
      repeat match goal with
             | |- context [if ?b then _ else _] => destruct b eqn:?
             end; simpl; try (left; lia).
    right. split; [done|]. split; [|done].
    by destruct (dict_get (slots s) "address_validated").
  - destruct (current_state s) eqn:Hc; try done;
      repeat match goal with
             | |- context [if ?b then _ else _] => destruct b eqn:?
             end; try done; intros _.
    + left. by eexists.
    + left. by eexists.
    + left. by eexists.
    + left. by eexists.
    + right. left. split; [done|]. by destruct (matched_providers s).
    + right. right. left. done.
    + right. right. right. left. done.
    + do 4 right. done.
Qed.

(** ** More on the merge engine *)

Lemma merge_fold_absent extracted st changed k :
  (forall v, (k, v) ∈ extracted -> v = VNone) ->
  slots (fold_left merge_step extracted (st, changed)).1 !! k = slots st !! k.
Proof.
  revert st changed. induction extracted as [|[key value] ex IH];
    intros st changed H; [done|].
  cbn [fold_left].
  assert (forall v, (k, v) ∈ ex -> v = VNone) as H'.
  { intros v Hv. apply H. by apply elem_of_cons; right. }
  destruct (merge_step_cases st changed key value) as [[-> _]|[-> (Hn&_&_)]].
  - by apply IH.
  - rewrite IH by done. rewrite slots_set_slot.
    destruct (decide (key = k)) as [->|Hne]; [|by rewrite lookup_insert_ne].
    rewrite (H value) in Hn; [done|]. apply elem_of_cons. by left.
Qed.

(** X5. Merging a payload changes nothing of the conversation state but
    the slot dictionary, neither adds nor removes a key of it, and leaves
    every slot for which the payload holds no value other than the absent
    one as it was. *)
Theorem merge_slots_frame_and_keys
    (s : ConversationState) (extracted : list (string * Value)) (k : string) :
  let s' := (merge_slots s extracted).1 in
  s' = set_slots (slots s') s
  /\ (is_Some (slots s' !! k) <-> is_Some (slots s !! k))
  /\ ((forall v, (k, v) ∈ extracted -> v = VNone) ->
      slots s' !! k = slots s !! k).
Proof.
  intros s'. split; [apply merge_slots_only_slots|].
  split; [apply merge_fold_dom|apply merge_fold_absent].
Qed.

Lemma merge_fold_changed_sublist extracted st :
  sublist (fold_left merge_step extracted (st, [])).2 extracted.*1.
Proof.
  revert st. induction extracted as [|[key value] ex IH]; intros st; [done|].
  cbn [fold_left]. rewrite fmap_cons.
  destruct (merge_step_cases st [] key value) as [[-> _]|[-> _]].
  - apply sublist_cons, IH.
  - rewrite merge_fold_changed. cbn [snd]. apply sublist_skip, IH.
Qed.

Lemma merge_fold_changed_sound extracted st k :
  k ∈ (fold_left merge_step extracted (st, [])).2 ->
  exists v, (k, v) ∈ extracted /\ is_not_None v = true
            /\ is_Some (slots st !! k)
            /\ py_eq (dict_get (slots st) k) v = false.
Proof.
  revert st. induction extracted as [|[key value] ex IH]; intros st Hk.
  - by apply elem_of_nil in Hk.
  - cbn [fold_left] in Hk.
    destruct (merge_step_cases st [] key value) as [[E _]|[E (Hn&Hs&He)]];
      rewrite E in Hk.
    + destruct (IH _ Hk) as (v & Hin & H). exists v. split; [|done].
      by apply elem_of_cons; right.
    + rewrite merge_fold_changed in Hk. cbn [snd] in Hk.
      destruct (decide (k = key)) as [->|Hne].
      { exists value. split; [apply elem_of_cons; by left|done]. }
      apply elem_of_app in Hk as [Hk|Hk].
      { apply list_elem_of_singleton in Hk. done. }
      destruct (IH _ Hk) as (v & Hin & Hv & Hs' & He').
      exists v. split; [by apply elem_of_cons; right|]. split; [done|].
      unfold dict_get in *. rewrite slots_set_slot in Hs', He'.
      rewrite lookup_insert_ne in Hs', He' by done. done.
Qed.

Lemma nodup_keys_functional (l : list (string * Value)) k v v' :
  NoDup l.*1 -> (k, v) ∈ l -> (k, v') ∈ l -> v = v'.
Proof.
  induction l as [|[key value] l IH]; intros Hnd H1 H2.
  - by apply elem_of_nil in H1.
  - rewrite fmap_cons in Hnd. apply NoDup_cons in Hnd as [Hfresh Hnd].
    assert (forall x, (key, x) ∈ l -> False) as Hno.
    { intros x Hx. apply Hfresh. apply list_elem_of_fmap. by exists (key, x). }
    apply elem_of_cons in H1 as [[= -> ->]|H1];
      apply elem_of_cons in H2 as [[= ->]|H2]; try done.
    + by apply Hno in H2.
    + subst. by apply Hno in H1.
    + by apply IH.
Qed.

(** X6. For a payload without repeated keys, the list of changed slots
    returned by the merge follows the order of the payload and names
    exactly the known slots for which the payload holds a value that is
    present and differs from the stored one.  After the merge every such
    slot equals the value of the payload, and a slot reported as changed
    holds that value. *)
Theorem merge_slots_reports_real_changes
    (s : ConversationState) (extracted : list (string * Value)) :
  NoDup extracted.*1 ->
  let s' := (merge_slots s extracted).1 in
  let changed := (merge_slots s extracted).2 in
  sublist changed extracted.*1
  /\ (forall k,
        k ∈ changed <->
        exists v, (k, v) ∈ extracted /\ is_not_None v = true
                  /\ is_Some (slots s !! k)
                  /\ py_eq (dict_get (slots s) k) v = false)
  /\ (forall k v,
        (k, v) ∈ extracted -> is_not_None v = true -> is_Some (slots s !! k) ->
        py_eq (dict_get (slots s') k) v = true)
  /\ (forall k v, (k, v) ∈ extracted -> k ∈ changed -> slots s' !! k = Some v).
Proof.
  intros Hnd s' changed. unfold s', changed, merge_slots.
  split; [apply merge_fold_changed_sublist|]. split; [|split].
  - intros k. split; [apply merge_fold_changed_sound|].
    intros (v & Hin & Hn & Hs & He).
    by destruct (merge_fold_reports extracted s [] k v).
  - intros k v Hin Hn Hs. apply merge_fold_agrees; try done.
    by apply merge_fold_dom.
  - intros k v Hin Hk.
    destruct (merge_fold_changed_sound _ _ _ Hk) as (v' & Hin' & Hn & Hs & He).
    assert (v' = v) as -> by by apply (nodup_keys_functional extracted k).
    by destruct (merge_fold_reports extracted s [] k v).
Qed.

Lemma merge_slots_reports_real_changes_witness :
  sublist (merge_slots new_state sample_payload).2 sample_payload.*1.
Proof.
  refine (proj1 (merge_slots_reports_real_changes new_state sample_payload _)).
  apply (bool_decide_unpack _). vm_compute. reflexivity.
Defined.

(** ** The interpretation of a selection *)

(** X7. The interpretation of a selection gives nothing for an empty list
    of options and when the reply of the language model holds no number.
    An index it does give lies inside the list, so that the bounds check of
    the selection handlers always accepts it, and it is the first number of
    the reply less one. *)
Theorem interpret_selection_safe {A} (user_input : string)
    (options : list A) (option_type content : string) :
  (options = [] ->
   interpret_selection user_input options option_type content = None)
  /\ (first_number (PyStr.strip content) = None ->
      interpret_selection user_input options option_type content = None)
  /\ (forall i,
        interpret_selection user_input options option_type content = Some i ->
        0 <= i < Z.of_nat (length options)
        /\ is_Some (options !! Z.to_nat i)
        /\ valid_index (Some i) options = Some (Z.to_nat i)
        /\ exists number,
             first_number (PyStr.strip content) = Some number
             /\ PyStr.int_of_digits 0 number = i + 1).
Proof.
  split; [|split].
  - intros ->. done.
  - intros H. unfold interpret_selection. rewrite H. by destruct (negb _).
  - intros i Hi.
    pose proof (interpret_selection_in_range _ _ _ _ _ Hi) as Hr.
    split; [done|]. split; [|split].
    + apply lookup_lt_is_Some. lia.
    + unfold valid_index.
      destruct (0 <=? i) eqn:E1; [|apply Z.leb_gt in E1; lia].
      destruct (i <? Z.of_nat (length options)) eqn:E2;
        [done|apply Z.ltb_ge in E2; lia].
    + unfold interpret_selection in Hi.
      destruct (negb (nonempty_list options)); [done|].
      destruct (first_number (PyStr.strip content)) as [number|]; [|done].
      exists number. split; [done|].
      destruct (_ && _); [|done]. injection Hi as <-. lia.
Qed.

(** ** Booking twice *)

(** ** One booking per slot *)

Section BookingTwice.
Import ProviderRepo.
Variables patients visits : list string.

Lemma book_row_not_bookable appointment_id patient visit reason' now row :
  bookable appointment_id
    (book_row (Some patient) visit reason' now row) = false.
Proof. unfold bookable. cbn. by rewrite andb_false_r. Qed.

Lemma update_where_ids appointment_id patient visit reason' now table :
  appt_id <$> update_where appointment_id patient visit reason' now table
  = appt_id <$> table.
Proof.
  unfold update_where. induction table as [|row table IH]; [done|].
  cbn. rewrite <- IH. f_equal. by destruct (bookable appointment_id row).
Qed.

Lemma update_where_rowcount appointment_id patient visit reason' now table :
  rowcount appointment_id
    (update_where appointment_id (Some patient) visit reason' now table)
  = 0%nat.
Proof.
  apply rowcount_zero. intros row Hin. unfold update_where in Hin.
  apply list_elem_of_fmap in Hin as (row0 & -> & _).
  destruct (bookable appointment_id row0) eqn:Eb; [|done].
  apply book_row_not_bookable.
Qed.

(** X8. A slot is booked at most once: after a call that returns, with or
    without an appointment, a further call for the same slot returns
    nothing and leaves the table as it is, whoever the patient.  A call
    raises the integrity error exactly when a row qualifies for the update
    and the patient, or the visit given, is not in its table; the table
    then stays as it was, so the slot can still be booked.  Every call
    keeps the identifiers of the table and every row of another
    identifier. *)
Theorem book_appointment_once
    (table : list Appointment) (appointment_id patient : string)
    (visit reason' : option string) (now : string) :
  let first :=
    book_appointment_in_store patients visits table appointment_id patient
      visit reason' now in
  (first.2 <> inl IntegrityError ->
   forall patients' visits' patient' visit' reason'' now',
     book_appointment_in_store patients' visits' first.1 appointment_id
       patient' visit' reason'' now'
     = (first.1, inr None))
  /\ (first.2 = inl IntegrityError <->
      rowcount appointment_id table <> 0%nat
      /\ references_hold patients visits patient visit = false)
  /\ (first.2 = inl IntegrityError -> first.1 = table)
  /\ appt_id <$> first.1 = appt_id <$> table
  /\ (forall row, row ∈ table -> appt_id row <> appointment_id ->
                  row ∈ first.1).
Proof.
  intros first. unfold first, book_appointment_in_store, book_appointment.
  destruct (rowcount appointment_id table =? 0)%nat eqn:E; cbn [fst snd].
  - split; [|split; [|split; [|split]]]; try done.
    + intros _ patients' visits' patient' visit' reason'' now'. by rewrite E.
    + split; [done|]. intros [Hr _]. by apply Nat.eqb_eq in E.
  - apply Nat.eqb_neq in E.
    destruct (references_hold patients visits patient visit) eqn:Ef;
      cbn [fst snd].
    + split; [|split; [|split; [|split]]]; try done.
      * intros _ patients' visits' patient' visit' reason'' now'.
        by rewrite update_where_rowcount.
      * split; [done|]. by intros [_ ?].
      * apply update_where_ids.
      * intros row Hin Hne. unfold update_where.
        apply list_elem_of_fmap. exists row. split; [|done].
        destruct (bookable appointment_id row) eqn:Eb; [|done].
        by apply bookable_id in Eb.
    + split; [done|]. split; [done|]. done.
Qed.

End BookingTwice.

(** ** The prompt of a collection phase *)

Lemma get_missing_slots_other s phase :
  PHASE_REQUIREMENTS phase = None -> get_missing_slots s phase = [].
Proof. intros H. by rewrite get_missing_slots_filter, H. Qed.

(** X9. The prompt of a collection phase is empty exactly when the current
    phase is complete; outside the four collection phases it is always
    empty. *)
Theorem generate_collection_prompt_empty_iff_complete (s : ConversationState) :
  (generate_collection_prompt s = ""
   <-> is_phase_complete s (current_state s) = true)
  /\ (PHASE_REQUIREMENTS (current_state s) = None ->
      generate_collection_prompt s = "").
Proof.
  assert (generate_collection_prompt s = ""
          <-> is_phase_complete s (current_state s) = true) as Hiff.
  { unfold generate_collection_prompt, is_phase_complete, still_need.
    destruct (get_missing_slots s (current_state s)) as [|m missing] eqn:E.
    - done.
    - cbn [nonempty_list negb length Nat.eqb]. split; [|done].
      destruct (current_state s) eqn:Hs;
        try (by rewrite get_missing_slots_other in E);
        try destruct (all_missing _ _); try discriminate;
        rewrite append_cons; discriminate. }
  split; [exact Hiff|]. intros Hnone. apply Hiff.
  unfold is_phase_complete. by rewrite get_missing_slots_other.
Qed.

(** ** Progress of the dispatcher *)

Ltac proj_all :=
  cbn [final_state slots current_state address_validation_attempts
       pending_address_suggestion pending_name_matches matched_providers
       available_slots selected_provider_id selected_provider_name
       selected_appointment_id selected_date selected_time patient_id
       is_returning
       set_current_state set_slots set_slot set_attempts
       set_pending_address_suggestion set_pending_name_matches set_returning
       set_matched_providers set_selected_provider set_available_slots
       set_selected_appointment fst snd] in *.

Ltac step_branch :=
  first
    [ match goal with
      | |- context [bool_decide (?a = ?b)] =>
          is_constructor a; is_constructor b;
          let v := eval vm_compute in (bool_decide (a = b)) in
          change (bool_decide (a = b)) with v; cbv beta iota
      end
    | match goal with
      | |- context [is_phase_complete ?a ?b] =>
          destruct (is_phase_complete a b) eqn:?; cbv beta iota
      end
    | match goal with
      | |- context [if ?b then _ else _] => destruct b eqn:?
      | |- context [match ?x with _ => _ end] => destruct x eqn:?
      end ].

Lemma do_address_validation_phase s t newly_filled :
  let s' := final_state (do_address_validation s t newly_filled) in
  current_state s' = CONFIRM_ADDRESS \/ current_state s' = VALIDATE_ADDRESS
  \/ current_state s' = current_state s.
Proof. unfold do_address_validation. repeat step_branch; proj_all; auto. Qed.

Lemma handle_query_providers_phase s t :
  let s' := final_state (handle_query_providers s t) in
  current_state s' = SELECT_PROVIDER \/ current_state s' = CONFIRM.
Proof. unfold handle_query_providers. repeat step_branch; proj_all; auto. Qed.

Ltac phase_calls :=
  repeat match goal with
  | |- context [final_state (then_say _ _)] => rewrite final_state_then_say
  | |- context [final_state (say_then _ _)] => rewrite final_state_say_then
  | |- context [final_state (do_address_validation ?s ?t ?f)] =>
      let H := fresh in
      pose proof (do_address_validation_phase s t f) as H; cbn zeta in H;
      generalize dependent (final_state (do_address_validation s t f)); intros
  | |- context [final_state (handle_query_providers ?s ?t)] =>
      let H := fresh in
      pose proof (handle_query_providers_phase s t) as H; cbn zeta in H;
      generalize dependent (final_state (handle_query_providers s t)); intros
  end.

Ltac phase_close :=
  proj_all;
  repeat match goal with
         | H : _ \/ _ |- _ => destruct H
         end;
  repeat match goal with
         | H : current_state _ = _ |- _ => rewrite H in *
         end;
  cbn [phase_rank]; lia.

Ltac with_merge s t Hs :=
  let Hc := fresh "Hc" in
  pose proof (merge_slots_current_state s (extracted t)) as Hc;
  rewrite Hs in Hc;
  destruct (merge_slots s (extracted t)) as [?s1 ?filled]; proj_all;
  rewrite ?Hc; cbv beta iota.

Lemma process_input_rank (s : ConversationState) (t : Turn) :
  (phase_rank (current_state s)
   <= phase_rank (current_state (final_state (process_input s t))))%nat.
Proof.
  unfold process_input. destruct (current_state s) eqn:Hs.
  - unfold handle_greet. phase_close.
  - unfold handle_check_patient, _set_returning_patient. with_merge s t Hs.
    repeat step_branch; phase_close.
  - unfold handle_verify_dob, _set_returning_patient. with_merge s t Hs.
    repeat step_branch; phase_close.
  - unfold handle_confirm_returning. with_merge s t Hs.
    repeat step_branch; phase_calls; phase_close.
  - unfold handle_collection, get_next_state. with_merge s t Hs.
    repeat step_branch; phase_calls; phase_close.
  - unfold handle_confirm_patient, handle_phase_confirm,
      advance_to_next_actionable_state. with_merge s t Hs.
    repeat step_branch; phase_calls; phase_close.
  - unfold handle_collection, get_next_state. with_merge s t Hs.
    repeat step_branch; phase_calls; phase_close.
  - unfold handle_confirm_insurance, handle_phase_confirm,
      advance_to_next_actionable_state. with_merge s t Hs.
    repeat step_branch; phase_calls; phase_close.
  - unfold handle_collection, get_next_state. with_merge s t Hs.
    repeat step_branch; phase_calls; phase_close.
  - unfold handle_validate_address. with_merge s t Hs.
    repeat step_branch; phase_calls; phase_close.
  - unfold handle_confirm_address, handle_phase_confirm,
      advance_to_next_actionable_state. with_merge s t Hs.
    repeat step_branch; phase_calls; phase_close.
  - unfold handle_collection, get_next_state. with_merge s t Hs.
    repeat step_branch; phase_calls; phase_close.
  - phase_calls; phase_close.
  - unfold handle_select_provider, select_provider. repeat step_branch; phase_close.
  - unfold handle_select_time, select_time. repeat step_branch; phase_close.
  - unfold handle_confirm. with_merge s t Hs. repeat step_branch; phase_close.
  - phase_close.
Qed.

(** X10. No turn moves the conversation to an earlier phase of the
    workflow: in the order of the phases, the phase after a turn is the
    current one or a later one, whatever the collaborators answer.  Hence
    the phase never decreases along a session, and a session that has
    reached the end stays in the same state for ever. *)
Theorem process_input_never_goes_back (s : ConversationState) (t : Turn) :
  (phase_rank (current_state s)
   <= phase_rank (current_state (final_state (process_input s t))))%nat
  /\ (forall ts more,
        (phase_rank (current_state (run ts))
         <= phase_rank (current_state (run (ts ++ more)%list)))%nat)
  /\ (forall ts more,
        current_state (run ts) = END -> run (ts ++ more)%list = run ts).
Proof.
  split; [apply process_input_rank|]. split.
  - intros ts more. induction more as [|t' more IH] using rev_ind.
    + by rewrite app_nil_r.
    + rewrite app_assoc, run_snoc.
      etrans; [exact IH|apply process_input_rank].
  - intros ts more Hend. induction more as [|t' more IH] using rev_ind.
    + by rewrite app_nil_r.
    + rewrite app_assoc, run_snoc, IH. unfold process_input.
      by rewrite Hend.
Qed.

Lemma insert_keeps (d : gmap string Value) i x k :
  is_Some (d !! k) -> is_Some (<[i := x]> d !! k).
Proof.
  intros H. destruct (decide (i = k)) as [->|Hne].
  - rewrite lookup_insert_eq. by eexists.
  - by rewrite lookup_insert_ne.
Qed.

Lemma dict_update_keeps d items k :
  is_Some (d !! k) -> is_Some (dict_update d items !! k).
Proof.
  unfold dict_update. revert d. induction items as [|[i x] items IH]; intros d H.
  - done.
  - cbn [fold_left]. apply IH. by apply insert_keeps.
Qed.

Ltac keys_step :=
  match goal with
  | |- is_Some (dict_update _ _ !! _) => apply dict_update_keeps
  | |- is_Some (<[_ := _]> _ !! _) => apply insert_keeps
  | H : is_Some (slots ?s !! ?k) |- is_Some (slots ?s !! ?k) => exact H
  end.

Lemma do_address_validation_keeps s t newly_filled k :
  is_Some (slots s !! k) ->
  is_Some (slots (final_state (do_address_validation s t newly_filled)) !! k).
Proof.
  intros H. unfold do_address_validation.
  repeat step_branch; proj_all; repeat keys_step.
Qed.

Ltac keys_calls :=
  repeat match goal with
  | |- context [final_state (then_say _ _)] => rewrite final_state_then_say
  | |- context [final_state (say_then _ _)] => rewrite final_state_say_then
  | |- context [slots (final_state (handle_query_providers _ _))] =>
      rewrite handle_query_providers_slots
  end.

Ltac keys_close :=
  keys_calls; proj_all;
  repeat first
    [ keys_step
    | match goal with
      | |- is_Some (slots (final_state (do_address_validation _ _ _)) !! _) =>
          apply do_address_validation_keeps; proj_all
      end ].

Ltac keys_merge s t k H :=
  let Hm := fresh "Hm" in
  pose proof (proj2 (merge_fold_dom (extracted t) s [] k) H) as Hm;
  change (fold_left merge_step (extracted t) (s, []))
    with (merge_slots s (extracted t)) in Hm;
  destruct (merge_slots s (extracted t)) as [?s1 ?filled]; proj_all.

(** No turn removes a key from the slot record. *)
Lemma process_input_keeps_keys s t k :
  is_Some (slots s !! k) ->
  is_Some (slots (final_state (process_input s t)) !! k).
Proof.
  intros H. unfold process_input. destruct (current_state s) eqn:Hs.
  - exact H.
  - unfold handle_check_patient, _set_returning_patient. keys_merge s t k H.
    repeat step_branch; keys_close.
  - unfold handle_verify_dob, _set_returning_patient. keys_merge s t k H.
    repeat step_branch; keys_close.
  - unfold handle_confirm_returning. keys_merge s t k H.
    repeat step_branch; keys_close.
  - unfold handle_collection. keys_merge s t k H. repeat step_branch; keys_close.
  - unfold handle_confirm_patient, handle_phase_confirm,
      advance_to_next_actionable_state. keys_merge s t k H.
    repeat step_branch; keys_close.
  - unfold handle_collection. keys_merge s t k H. repeat step_branch; keys_close.
  - unfold handle_confirm_insurance, handle_phase_confirm,
      advance_to_next_actionable_state. keys_merge s t k H.
    repeat step_branch; keys_close.
  - unfold handle_collection. keys_merge s t k H. repeat step_branch; keys_close.
  - unfold handle_validate_address. keys_merge s t k H.
    repeat step_branch; keys_close.
  - unfold handle_confirm_address, handle_phase_confirm,
      advance_to_next_actionable_state. keys_merge s t k H.
    repeat step_branch; keys_close.
  - unfold handle_collection. keys_merge s t k H. repeat step_branch; keys_close.
  - by rewrite handle_query_providers_slots.
  - unfold handle_select_provider. by rewrite select_provider_slots.
  - unfold handle_select_time. by rewrite select_time_slots.
  - unfold handle_confirm. keys_merge s t k H. repeat step_branch; keys_close.
  - exact H.
Qed.

Lemma run_keeps_keys ts k :
  is_Some (default_slots !! k) -> is_Some (slots (run ts) !! k).
Proof.
  intros H. induction ts as [|t ts IH] using rev_ind; [exact H|].
  rewrite run_snoc. apply process_input_keeps_keys. exact IH.
Qed.

Lemma run_subscripts ts keys :
  (forall k, k ∈ keys -> is_Some (default_slots !! k)) ->
  first_missing_key (slots (run ts)) keys = None.
Proof.
  intros H. apply first_missing_key_none. intros k Hk.
  by apply run_keeps_keys, H.
Qed.

Ltac default_keys :=
  let k := fresh "k" in
  let Hk := fresh "Hk" in
  intros k Hk;
  repeat (apply elem_of_cons in Hk as [->|Hk];
          [vm_compute; eexists; reflexivity|]);
  exfalso; revert Hk; apply not_elem_of_nil.

(** X11. No turn removes a key of the slot dictionary.  Hence in a session,
    which starts with every key of the record present, every key stays
    present, and no subscript of a slot raises a key error: neither those
    of the new patient record in the final confirmation, nor those of a
    generated reply in a confirmation phase, nor those of the address
    validation. *)
Theorem session_keeps_slot_keys (s : ConversationState) (t : Turn) :
  (forall k, is_Some (slots s !! k) ->
             is_Some (slots (final_state (process_input s t)) !! k))
  /\ (forall ts k, is_Some (default_slots !! k) ->
                   is_Some (slots (run ts) !! k))
  /\ (forall ts,
        save_patient_data_error (run ts) = None
        /\ generate_dynamic_response_error (run ts) = None
        /\ first_missing_key (slots (run ts)) address_fields = None).
Proof.
  split; [intros k; apply process_input_keeps_keys|].
  split; [intros ts k; apply run_keeps_keys|].
  intros ts. split; [|split].
  - unfold save_patient_data_error.
    destruct (is_returning (run ts) && opt_truthy (patient_id (run ts)));
      [done|].
    apply run_subscripts. default_keys.
  - unfold generate_dynamic_response_error, response_subscripts.
    destruct (current_state (run ts)); apply run_subscripts; default_keys.
  - apply run_subscripts. unfold address_fields. default_keys.
Qed.

(** ** The attempt counter along a session *)







(** ** The selection phases *)

Lemma nonempty_list_true {A} (l : list A) : nonempty_list l = true -> l <> [].
Proof. by destruct l. Qed.

Lemma merge_slots_choices s extracted :
  let s' := (merge_slots s extracted).1 in
  current_state s' = current_state s
  /\ matched_providers s' = matched_providers s
  /\ available_slots s' = available_slots s
  /\ selected_provider_id s' = selected_provider_id s.
Proof. cbn zeta. by rewrite merge_slots_only_slots. Qed.

Lemma do_address_validation_choices s t newly_filled :
  let s' := final_state (do_address_validation s t newly_filled) in
  (current_state s' = CONFIRM_ADDRESS \/ current_state s' = VALIDATE_ADDRESS
   \/ current_state s' = current_state s)
  /\ matched_providers s' = matched_providers s
  /\ available_slots s' = available_slots s
  /\ selected_provider_id s' = selected_provider_id s.
Proof. unfold do_address_validation. repeat step_branch; proj_all; auto. Qed.

Lemma handle_query_providers_choices s t :
  let s' := final_state (handle_query_providers s t) in
  (current_state s' = SELECT_PROVIDER /\ matched_providers s' <> [])
  \/ current_state s' = CONFIRM.
Proof.
  unfold handle_query_providers.
  repeat step_branch; proj_all; auto; left; (split; [done|]);
    intros E; apply map_eq_nil in E;
    match goal with H : nonempty_list _ = true |- _ =>
      apply nonempty_list_true in H; by apply H end.
Qed.

Ltac choices_merge s t Hs :=
  let Hm := fresh "Hm" in
  pose proof (merge_slots_choices s (extracted t)) as Hm; cbn zeta in Hm;
  rewrite Hs in Hm;
  destruct (merge_slots s (extracted t)) as [?s1 ?filled]; proj_all;
  destruct Hm as (?Hc & ?Hmp & ?Hav & ?Hsel);
  rewrite ?Hc; cbv beta iota.

Ltac choices_calls :=
  repeat match goal with
  | |- context [final_state (then_say _ _)] => rewrite final_state_then_say
  | |- context [final_state (say_then _ _)] => rewrite final_state_say_then
  | |- context [final_state (do_address_validation ?s ?t ?f)] =>
      let H := fresh in
      pose proof (do_address_validation_choices s t f) as H; cbn zeta in H;
      generalize dependent (final_state (do_address_validation s t f)); intros
  | |- context [final_state (handle_query_providers ?s ?t)] =>
      let H := fresh in
      pose proof (handle_query_providers_choices s t) as H; cbn zeta in H;
      generalize dependent (final_state (handle_query_providers s t)); intros
  end.

Ltac choices_close :=
  unfold choices_ready in *; proj_all;
  repeat match goal with
         | H : _ /\ _ |- _ => destruct H
         | H : _ \/ _ |- _ => destruct H
         end;
  split; intros ?Heq;
  repeat match goal with
         | H : current_state _ = _ |- _ => rewrite H in *
         end;
  try discriminate;
  repeat match goal with
         | H : matched_providers _ = _ |- _ => rewrite H in *
         | H : available_slots _ = _ |- _ => rewrite H in *
         | H : selected_provider_id _ = _ |- _ => rewrite H in *
         end;
  auto;
  repeat split;
  first [ by auto | by apply nonempty_list_true | by eexists ].

Lemma process_input_choices s t :
  choices_ready s -> choices_ready (final_state (process_input s t)).
Proof.
  intros Hready. unfold process_input. destruct (current_state s) eqn:Hs.
  - unfold handle_greet. choices_close.
  - unfold handle_check_patient, _set_returning_patient. choices_merge s t Hs.
    repeat step_branch; choices_close.
  - unfold handle_verify_dob, _set_returning_patient. choices_merge s t Hs.
    repeat step_branch; choices_close.
  - unfold handle_confirm_returning. choices_merge s t Hs.
    repeat step_branch; choices_calls; choices_close.
  - unfold handle_collection, get_next_state. choices_merge s t Hs.
    repeat step_branch; choices_calls; choices_close.
  - unfold handle_confirm_patient, handle_phase_confirm,
      advance_to_next_actionable_state. choices_merge s t Hs.
    repeat step_branch; choices_calls; choices_close.
  - unfold handle_collection, get_next_state. choices_merge s t Hs.
    repeat step_branch; choices_calls; choices_close.
  - unfold handle_confirm_insurance, handle_phase_confirm,
      advance_to_next_actionable_state. choices_merge s t Hs.
    repeat step_branch; choices_calls; choices_close.
  - unfold handle_collection, get_next_state. choices_merge s t Hs.
    repeat step_branch; choices_calls; choices_close.
  - unfold handle_validate_address. choices_merge s t Hs.
    repeat step_branch; choices_calls; choices_close.
  - unfold handle_confirm_address, handle_phase_confirm,
      advance_to_next_actionable_state. choices_merge s t Hs.
    repeat step_branch; choices_calls; choices_close.
  - unfold handle_collection, get_next_state. choices_merge s t Hs.
    repeat step_branch; choices_calls; choices_close.
  - choices_calls; choices_close.
  - unfold handle_select_provider, select_provider.
    repeat step_branch; choices_close.
  - unfold handle_select_time, select_time. repeat step_branch; choices_close.
  - unfold handle_confirm. choices_merge s t Hs. repeat step_branch; choices_close.
  - choices_close.
Qed.

(** X13. In every state of a session the selection phases have something
    to select from: in the provider selection the list of matched
    providers is not empty, and in the time selection neither that list
    nor the list of slots is empty and a provider has been chosen. *)
Theorem selection_phases_have_choices (ts : list Turn) :
  choices_ready (run ts).
Proof.
  induction ts as [|t ts IH] using rev_ind.
  - split; intros H; discriminate H.
  - rewrite run_snoc. by apply process_input_choices.
Qed.

(** ** Accepting a suggested address *)

(** X14. When a suggested address is pending and the user accepts it, the
    handler moves to the address confirmation, marks the address as
    validated and drops the suggestion, without another validation attempt.
    Only the four address fields and the validation flag can change: the
    payload of the turn is not merged.  This holds even when the suggestion
    cannot be parsed; then the address slots stay as they were and the
    address is marked as validated all the same. *)
Theorem accepted_suggestion_is_trusted
    (s : ConversationState) (t : Turn) (suggestion : string) :
  pending_address_suggestion s = Some suggestion ->
  suggestion <> "" ->
  is_affirmative (intent t) || says "yes" t = true ->
  let s' := final_state (handle_validate_address s t) in
  (exists r, handle_validate_address s t = Done s' r)
  /\ current_state s' = CONFIRM_ADDRESS
  /\ slots s' !! "address_validated" = Some (VBool true)
  /\ pending_address_suggestion s' = None
  /\ address_validation_attempts s' = address_validation_attempts s
  /\ (forall k, k ∉ address_fields -> k <> "address_validated" ->
        slots s' !! k = slots s !! k)
  /\ (parse_suggested_address suggestion = None ->
      forall k, k <> "address_validated" -> slots s' !! k = slots s !! k).
Proof.
  intros Hp Hne Hyes s'. unfold s', handle_validate_address.
  rewrite Hyes, Hp.
  assert (opt_truthy (Some suggestion) = true) as -> by by destruct suggestion.
  cbn [of_opt py_str].
  destruct (parse_suggested_address suggestion) as [[|c cs]|] eqn:E;
    proj_all.
  - split; [by eexists|]. split; [done|].
    split; [by rewrite lookup_insert_eq|]. split; [done|]. split; [done|].
    split; [|done]. intros k _ Hk. by rewrite lookup_insert_ne.
  - split; [by eexists|]. split; [done|].
    split; [by rewrite lookup_insert_eq|]. split; [done|]. split; [done|].
    split; [|done]. intros k Hk Hv. rewrite lookup_insert_ne by done.
    apply dict_update_frame. intros Hin. apply Hk.
    by apply (parse_suggested_address_keys suggestion (c :: cs)).
  - split; [by eexists|]. split; [done|].
    split; [by rewrite lookup_insert_eq|]. split; [done|]. split; [done|].
    split; intros; by rewrite lookup_insert_ne.
Qed.

Lemma accepted_suggestion_is_trusted_witness :
  let s' := final_state (handle_validate_address suggestion_pending yes_turn) in
  (exists r, handle_validate_address suggestion_pending yes_turn = Done s' r)
  /\ current_state s' = CONFIRM_ADDRESS
  /\ slots s' !! "address_validated" = Some (VBool true)
  /\ pending_address_suggestion s' = None
  /\ address_validation_attempts s'
     = address_validation_attempts suggestion_pending
  /\ (forall k, k ∉ address_fields -> k <> "address_validated" ->
        slots s' !! k = slots suggestion_pending !! k)
  /\ (parse_suggested_address "1 Main St, Oakland, CA 94601, USA" = None ->
      forall k, k <> "address_validated" ->
                slots s' !! k = slots suggestion_pending !! k).
Proof.
  apply (accepted_suggestion_is_trusted suggestion_pending yes_turn
           "1 Main St, Oakland, CA 94601, USA").
  - reflexivity.
  - discriminate.
  - vm_compute. reflexivity.
Defined.

(** ** Verification by date of birth *)

(** X15. The verification by date of birth always returns.  Without a date
    of birth after the merge it changes nothing else.  With one, it drops
    the pending candidates and either loads a candidate held before the
    turn whose date of birth equals the given one, marking the patient as
    returning and moving to the confirmation of a returning patient, or,
    when no candidate has that date of birth, moves to the collection of a
    new patient with the slots as merged. *)
Theorem verify_dob_outcome (s : ConversationState) (t : Turn) :
  let s1 := (merge_slots s (extracted t)).1 in
  let dob := dict_get (slots s1) "date_of_birth" in
  let s' := final_state (handle_verify_dob s t) in
  (exists r, handle_verify_dob s t = Done s' r)
  /\ (py_truthy dob = false -> s' = s1)
  /\ (py_truthy dob = true ->
      pending_name_matches s' = []
      /\ ((current_state s' = CONFIRM_RETURNING
           /\ exists patient,
                patient ∈ pending_name_matches s
                /\ py_eq (VStr (Repo.date_of_birth patient)) dob = true
                /\ patient_id s' = Some (Repo.id patient)
                /\ is_returning s' = true
                /\ slots s' !! "date_of_birth"
                   = Some (VStr (Repo.date_of_birth patient)))
          \/ (current_state s' = COLLECT_PATIENT
              /\ slots s' = slots s1
              /\ forall patient,
                   patient ∈ pending_name_matches s ->
                   py_eq (VStr (Repo.date_of_birth patient)) dob = false))).
Proof.
  intros s1 dob s'. unfold s', handle_verify_dob. fold s1. fold dob.
  pose proof (merge_slots_pending_names s (extracted t)) as Hn. fold s1 in Hn.
  destruct (py_truthy dob) eqn:Ed; cbn [negb].
  - destruct (find _ (pending_name_matches s1)) as [patient|] eqn:Ef.
    + apply find_some in Ef as [Hin Heq]. rewrite Hn in Hin.
      unfold _set_returning_patient. proj_all.
      split; [by eexists|]. split; [done|]. intros _. split; [done|].
      left. split; [done|]. exists patient.
      split; [by apply list_elem_of_In|]. split; [exact Heq|].
      split; [done|]. split; [done|].
      unfold dict_update. cbn [fold_left fst snd].
      repeat (rewrite lookup_insert_ne by discriminate).
      by rewrite lookup_insert_eq.
    + proj_all. split; [by eexists|]. split; [done|]. intros _.
      split; [done|]. right. split; [done|]. split; [done|].
      intros patient Hin. rewrite <- Hn in Hin. apply list_elem_of_In in Hin.
      exact (find_none _ _ Ef patient Hin).
  - split; [by eexists|]. split; [done|]. done.
Qed.

(** ** The address validator *)

Lemma all_chars_append p a b :
  PyStr.all_chars p (a +:+ b) = PyStr.all_chars p a && PyStr.all_chars p b.
Proof.
  induction a as [|c a IH]; [done|].
  rewrite append_cons. cbn [PyStr.all_chars]. by rewrite IH, andb_assoc.
Qed.

Lemma lstrip_not_all_space s :
  PyStr.all_chars PyStr.is_space s = false ->
  exists c r, PyStr.lstrip s = String c r /\ PyStr.is_space c = false.
Proof.
  induction s as [|c s IH]; [done|]. cbn [PyStr.all_chars PyStr.lstrip].
  destruct (PyStr.is_space c) eqn:E; [exact IH|]. intros _. by exists c, s.
Qed.

Lemma strip_not_all_space s :
  PyStr.all_chars PyStr.is_space s = false -> PyStr.strip s <> "".
Proof.
  intros H. destruct (lstrip_not_all_space s H) as (c & r & E & Hc).
  unfold PyStr.strip. rewrite E. cbn [PyStr.rstrip].
  destruct (PyStr.rstrip r); [by rewrite Hc|done].
Qed.

Lemma str_join_cons sep p q qs :
  str_join sep (p :: q :: qs) = p +:+ sep +:+ str_join sep (q :: qs).
Proof. reflexivity. Qed.

Lemma address_parts_comma a1 city st zip a2 :
  PyStr.all_chars PyStr.is_space
    (str_join ", " (address_parts a1 city st zip a2)) = false.
Proof.
  unfold address_parts.
  assert (forall x rest,
            PyStr.all_chars PyStr.is_space (x +:+ ", " +:+ rest) = false) as Hc.
  { intros x rest. rewrite all_chars_append, append_cons.
    cbn [PyStr.all_chars]. by rewrite andb_comm. }
  destruct a2 as [line2|]; [destruct (PyStr.nonempty line2)|];
    cbn [app]; rewrite str_join_cons; apply Hc.
Qed.

(** X16. The address that the validator sends is never empty after
    stripping, so the empty-address rejection of the raw validation never
    applies to it.  The corrected components are present exactly when a
    suggestion is, and are then the components given as input, not those of
    the suggestion.  When the raw validation fails, the result is invalid
    with neither suggestion nor components; a valid result comes from a raw
    result that accepts the address. *)
Theorem validate_address_echoes_input
    (api : string -> option RawValidation)
    (address_line1 city state zip_code : string)
    (address_line2 : option string) :
  let r := validate_address api address_line1 city state zip_code address_line2 in
  address_is_empty (input_address r) = false
  /\ validate_address_raw api (input_address r)
     = api (PyStr.strip (input_address r))
  /\ (is_Some (corrected_components r)
      <-> opt_truthy (suggested_address r) = true)
  /\ (forall items, corrected_components r = Some items ->
        items = [ ("address_line1", VStr address_line1); ("city", VStr city);
                  ("state", VStr state); ("zip_code", VStr zip_code) ])
  /\ (api (PyStr.strip (input_address r)) = None ->
      is_valid r = false /\ suggested_address r = None
      /\ corrected_components r = None)
  /\ (is_valid r = true ->
      exists raw, api (PyStr.strip (input_address r)) = Some raw
                  /\ raw_is_valid raw = true).
Proof.
  intros r.
  set (full := str_join ", "
                 (address_parts address_line1 city state zip_code address_line2)).
  assert (address_is_empty full = false) as Hne.
  { unfold address_is_empty.
    pose proof (address_parts_comma address_line1 city state zip_code
                  address_line2) as Hc. fold full in Hc.
    pose proof (strip_not_all_space full Hc) as Hs.
    destruct full; [done|]. by destruct (PyStr.strip _). }
  assert (input_address r = full) as Hin.
  { unfold r, validate_address. fold full.
    by destruct (validate_address_raw api full). }
  assert (validate_address_raw api full = api (PyStr.strip full)) as Hraw.
  { unfold validate_address_raw. by rewrite Hne. }
  rewrite Hin. split; [exact Hne|]. split; [exact Hraw|].
  unfold r, validate_address. fold full. rewrite Hraw.
  destruct (api (PyStr.strip full)) as [raw|];
    cbn [is_valid suggested_address corrected_components].
  - destruct (opt_truthy (raw_formatted_address raw)).
    + split; [done|]. split; [by intros items [= <-]|].
      split; [done|]. intros Hv. by exists raw.
    + split; [split; [by intros [??]|done]|]. split; [done|].
      split; [done|]. intros Hv. by exists raw.
  - split; [split; [by intros [??]|done]|]. by repeat split.
Qed.

Lemma validate_address_items api a1 city st zip a2 items :
  corrected_components (validate_address api a1 city st zip a2) = Some items ->
  items = [ ("address_line1", VStr a1); ("city", VStr city);
            ("state", VStr st); ("zip_code", VStr zip) ].
Proof.
  unfold validate_address.
  destruct (validate_address_raw api _) as [raw|]; [|done].
  cbn [corrected_components].
  destruct (opt_truthy (raw_formatted_address raw)); [|done].
  by intros [= <-].
Qed.

Lemma dict_update_echo d a1 city st zip :
  d !! "address_line1" = Some (VStr a1) -> d !! "city" = Some (VStr city) ->
  d !! "state" = Some (VStr st) -> d !! "zip_code" = Some (VStr zip) ->
  dict_update d [ ("address_line1", VStr a1); ("city", VStr city);
                  ("state", VStr st); ("zip_code", VStr zip) ] = d.
Proof.
  intros H1 H2 H3 H4. unfold dict_update. cbn [fold_left fst snd].
  rewrite (insert_id d "address_line1" (VStr a1) H1).
  rewrite (insert_id d "city" (VStr city) H2).
  rewrite (insert_id d "state" (VStr st) H3).
  exact (insert_id d "zip_code" (VStr zip) H4).
Qed.

(** X17. When the four address slots hold strings and the validation
    result is the one computed from them, the address validation returns
    and changes no slot but the validation flag: the update by the
    corrected components writes back what the slots already hold. *)
Theorem address_validation_keeps_address_slots
    (s : ConversationState) (t : Turn) (newly_filled : list string)
    (api : string -> option RawValidation)
    (address_line1 city state zip_code : string)
    (address_line2 : option string) :
  slots s !! "address_line1" = Some (VStr address_line1) ->
  slots s !! "city" = Some (VStr city) ->
  slots s !! "state" = Some (VStr state) ->
  slots s !! "zip_code" = Some (VStr zip_code) ->
  validation t
  = validate_address api address_line1 city state zip_code address_line2 ->
  let s' := final_state (do_address_validation s t newly_filled) in
  (exists r, do_address_validation s t newly_filled = Done s' r)
  /\ (forall k, k <> "address_validated" -> slots s' !! k = slots s !! k).
Proof.
  intros H1 H2 H3 H4 Hv s'.
  pose proof (validate_address_items api address_line1 city state zip_code
                address_line2) as Hitems.
  rewrite <- Hv in Hitems.
  unfold s', do_address_validation. rewrite first_missing_key_none.
  2:{ intros k Hk. proj_all.
      repeat (apply elem_of_cons in Hk as [->|Hk]; [by eexists|]).
      exfalso. revert Hk. apply not_elem_of_nil. }
  destruct (is_valid (validation t)).
  - destruct (corrected_components (validation t)) as [items|] eqn:Hc.
    + rewrite (Hitems items eq_refl). proj_all.
      rewrite dict_update_echo by (by rewrite lookup_insert_ne).
      split; [by eexists|]. intros k Hk. by rewrite lookup_insert_ne.
    + proj_all. split; [by eexists|]. intros k Hk.
      by rewrite lookup_insert_ne.
  - proj_all. destruct (2 <=? address_validation_attempts s + 1); proj_all.
    + split; [by eexists|]. intros k Hk. by rewrite lookup_insert_ne.
    + split; [by eexists|]. done.
Qed.

Lemma address_validation_keeps_address_slots_witness :
  (exists r, do_address_validation address_complete accepted_turn []
             = Done (final_state
                       (do_address_validation address_complete accepted_turn []))
                    r)
  /\ (forall k, k <> "address_validated" ->
        slots (final_state
                 (do_address_validation address_complete accepted_turn [])) !! k
        = slots address_complete !! k).
Proof.
  apply (address_validation_keeps_address_slots address_complete accepted_turn
           [] accepting_api "1 Mian St" "Oakland" "CA" "94601" None);
    vm_compute; reflexivity.
Defined.

(** ** The form of a parsed suggestion *)

Lemma upper_is_upper c :
  PyStr.is_upper c = true ->
  PyStr.is_space c = false /\ PyStr.upper_char c = c.
Proof. destruct c as [[] [] [] [] [] [] [] []]; cbv; by try split. Qed.

Lemma alpha_upper_char c :
  PyStr.is_alpha c = true -> PyStr.is_upper (PyStr.upper_char c) = true.
Proof. destruct c as [[] [] [] [] [] [] [] []]; cbv; done. Qed.

Lemma alpha_upper s :
  PyStr.all_chars PyStr.is_alpha s = true ->
  PyStr.all_chars PyStr.is_upper (PyStr.upper s) = true.
Proof.
  unfold PyStr.upper. induction s as [|c s IH]; [done|].
  cbn [PyStr.all_chars PyStr.map_chars]. intros H.
  apply andb_prop in H as [Hc H]. by rewrite alpha_upper_char, IH.
Qed.

Lemma normalize_state_code st :
  String.length st = 2%nat -> PyStr.all_chars PyStr.is_upper st = true ->
  normalize_state (Some st) = Some st.
Proof.
  intros Hl Hu. destruct (two_chars st Hl) as (a & b & ->).
  cbn [PyStr.all_chars] in Hu. apply andb_prop in Hu as [Ha Hb].
  apply andb_prop in Hb as [Hb _].
  destruct (upper_is_upper a Ha) as [Hsa Hua].
  destruct (upper_is_upper b Hb) as [Hsb Hub].
  unfold normalize_state, PyStr.strip, PyStr.upper.
  cbn [PyStr.nonempty negb PyStr.lstrip]. rewrite Hsa.
  cbn [PyStr.rstrip]. rewrite Hsb. cbn [PyStr.map_chars].
  by rewrite Hua, Hub.
Qed.

(** X18. A parsed suggestion has the street and the city stripped of
    surrounding white space, a state of exactly two upper-case letters,
    which the state normaliser of the extraction leaves unchanged, and
    either no ZIP code or one of five digits that passes the ZIP check of
    the completion test; the keys come in the order address_line1, city,
    state, zip_code. *)
Theorem parse_suggested_address_wellformed
    (suggested : string) (items : list (string * Value)) :
  parse_suggested_address suggested = Some items ->
  exists line1 city st,
    PyStr.strip line1 = line1 /\ PyStr.strip city = city
    /\ String.length st = 2%nat
    /\ PyStr.all_chars PyStr.is_upper st = true
    /\ normalize_state (Some st) = Some st
    /\ (items = [ ("address_line1", VStr line1); ("city", VStr city);
                  ("state", VStr st) ]
        \/ exists zip,
             items = [ ("address_line1", VStr line1); ("city", VStr city);
                       ("state", VStr st); ("zip_code", VStr zip) ]
             /\ String.length zip = 5%nat
             /\ _is_valid_slot "zip_code" (VStr zip) = true).
Proof.
  unfold parse_suggested_address.
  destruct (PyStr.split_on "," _) as [|q0 [|q1 [|q2 l]]]; try done.
  cbn [map]. rewrite !strip_idempotent.
  destruct (match_state_zip (PyStr.strip q2)) as [[st zip]|] eqn:E.
  - intros [= <-]. apply match_state_zip_iff in E.
    destruct E as (ws & plus4 & eol & _ & Hl & Hu & _ & _ & Hz & Hd & _).
    exists (PyStr.strip q0), (PyStr.strip q1), st.
    rewrite !strip_idempotent. repeat split; try done.
    { by apply normalize_state_code. }
    right. exists zip. repeat split; try done.
    unfold _is_valid_slot, PyStr.isdigit. cbn [py_truthy py_str].
    rewrite Hd. by destruct zip.
  - destruct (String.length (PyStr.strip q2) =? 2)%nat eqn:El; [|done].
    destruct (PyStr.isalpha (PyStr.strip q2)) eqn:Ea; [|done].
    intros [= <-]. apply Nat.eqb_eq in El.
    unfold PyStr.isalpha in Ea. apply andb_prop in Ea as [_ Ea].
    exists (PyStr.strip q0), (PyStr.strip q1), (PyStr.upper (PyStr.strip q2)).
    rewrite !strip_idempotent.
    assert (String.length (PyStr.upper (PyStr.strip q2)) = 2%nat) as Hl
        by by rewrite upper_length.
    pose proof (alpha_upper _ Ea) as Hu.
    repeat split; try done; [by apply normalize_state_code|by left].
Qed.

Lemma parse_suggested_address_wellformed_witness :
  exists line1 city st,
    PyStr.strip line1 = line1 /\ PyStr.strip city = city
    /\ String.length st = 2%nat
    /\ PyStr.all_chars PyStr.is_upper st = true
    /\ normalize_state (Some st) = Some st
    /\ ([ ("address_line1", VStr "1 Main St"); ("city", VStr "Oakland");
          ("state", VStr "CA"); ("zip_code", VStr "94601") ]
        = [ ("address_line1", VStr line1); ("city", VStr city);
            ("state", VStr st) ]
        \/ exists zip,
             [ ("address_line1", VStr "1 Main St"); ("city", VStr "Oakland");
               ("state", VStr "CA"); ("zip_code", VStr "94601") ]
             = [ ("address_line1", VStr line1); ("city", VStr city);
                 ("state", VStr st); ("zip_code", VStr zip) ]
             /\ String.length zip = 5%nat
             /\ _is_valid_slot "zip_code" (VStr zip) = true).
Proof.
  apply (parse_suggested_address_wellformed
           "1 Main St, Oakland, CA 94601, USA").
  vm_compute. reflexivity.
Defined.

(** ** The update of a returning patient *)

Lemma mem_elem_of x l : PyStr.mem x l = true <-> x ∈ l.
Proof.
  unfold PyStr.mem. rewrite existsb_exists. split.
  - intros (y & Hin & Heq). apply String.eqb_eq in Heq as ->.
    by apply list_elem_of_In.
  - intros Hin. exists x. split; [by apply list_elem_of_In|].
    apply String.eqb_refl.
Qed.

Lemma omap_nil {A B} (f : A -> option B) l :
  (forall x, x ∈ l -> f x = None) -> omap f l = [].
Proof.
  induction l as [|x l IH]; intros H; [done|]. cbn [omap list_omap].
  rewrite (H x) by (apply elem_of_cons; by left).
  apply IH. intros y Hy. apply H. apply elem_of_cons. by right.
Qed.

Lemma updates_elem slots' k v :
  (k, v) ∈ updates slots' ->
  slots' !! k = Some v /\ v <> VNone /\ k ∉ medical_fields.
Proof.
  unfold updates. intros H. apply list_elem_of_filter in H as [Hf Hin].
  apply elem_of_map_to_list in Hin. cbn [fst snd] in Hf.
  apply andb_prop in Hf as [Hv Hm]. split; [done|]. split.
  - intros ->. discriminate Hv.
  - intros Hk. apply mem_elem_of in Hk. rewrite Hk in Hm. discriminate Hm.
Qed.

Lemma loaded_slot row s0 k :
  k ∈ PATIENT_FIELDS ->
  let s := final_state (_set_returning_patient s0 (_row_to_patient row)) in
  exists v, slots s !! k = Some v
            /\ update_step (dict_row row) (k, v) = None.
Proof.
  intros Hk s. unfold s, _set_returning_patient. proj_all.
  unfold dict_update, _row_to_patient.
  cbn [fold_left fst snd Repo.id Repo.first_name Repo.last_name
       Repo.date_of_birth Repo.phone Repo.email Repo.address_line1
       Repo.address_line2 Repo.city Repo.state Repo.zip_code
       Repo.address_validated Repo.insurance_payer Repo.insurance_plan
       Repo.insurance_member_id Repo.insurance_group_id].
  unfold PATIENT_FIELDS in Hk.
  repeat (apply elem_of_cons in Hk as [->|Hk];
          [eexists; split;
           [repeat (rewrite lookup_insert_ne by discriminate);
            apply lookup_insert_eq
           |unfold update_step;
            match goal with
            | |- context [PyStr.mem ?k PATIENT_FIELDS] =>
                let b := eval vm_compute in (PyStr.mem k PATIENT_FIELDS) in
                change (PyStr.mem k PATIENT_FIELDS) with b
            end;
            match goal with
            | |- context [String.eqb ?k "address_validated"] =>
                let b := eval vm_compute in (String.eqb k "address_validated") in
                change (String.eqb k "address_validated") with b
            end;
            match goal with
            | |- context [dict_get (dict_row row) ?k] =>
                let v := eval vm_compute in (dict_get (dict_row row) k) in
                change (dict_get (dict_row row) k) with v
            end;
            cbv beta iota; cbn [py_truthy]; by rewrite py_eq_refl]|]).
  exfalso. revert Hk. apply not_elem_of_nil.
Qed.

(** X19. For a returning patient whose slots are those just loaded from
    the stored row, the update finds nothing to write.  In general an entry
    is written and logged only for a patient field whose slot is present
    and differs from the stored value, the validation flag being compared
    by truth value; a slot holding the absent value is never written, so
    the stored value stays. *)
Theorem returning_patient_update_writes_changes_only
    (row : PatientRow) (s0 : ConversationState)
    (current slots' : gmap string Value) :
  (let s := final_state (_set_returning_patient s0 (_row_to_patient row)) in
   valid_updates (dict_row row) (updates (slots s)) = [])
  /\ (forall k v,
        (k, v) ∈ valid_updates current (updates slots') ->
        k ∈ PATIENT_FIELDS
        /\ exists v0, slots' !! k = Some v0 /\ v0 <> VNone
             /\ (k <> "address_validated" ->
                 v = v0 /\ py_eq (dict_get current k) v0 = false)
             /\ (k = "address_validated" ->
                 v = VBool (py_truthy v0)
                 /\ py_truthy (dict_get current k) <> py_truthy v0))
  /\ (forall k, slots' !! k = Some VNone ->
        k ∉ (valid_updates current (updates slots')).*1).
Proof.
  assert (forall k v,
            (k, v) ∈ valid_updates current (updates slots') ->
            k ∈ PATIENT_FIELDS
            /\ exists v0, slots' !! k = Some v0 /\ v0 <> VNone
                 /\ (k <> "address_validated" ->
                     v = v0 /\ py_eq (dict_get current k) v0 = false)
                 /\ (k = "address_validated" ->
                     v = VBool (py_truthy v0)
                     /\ py_truthy (dict_get current k) <> py_truthy v0)) as Hreal.
  { intros k v H. unfold valid_updates in H.
    apply list_elem_of_omap in H as ([k0 v0] & Hin & Hstep).
    apply updates_elem in Hin as (Hl & Hv & _).
    unfold update_step in Hstep.
    destruct (PyStr.mem k0 PATIENT_FIELDS) eqn:Hm; [|done].
    apply mem_elem_of in Hm.
    destruct (String.eqb k0 "address_validated") eqn:Ek.
    - apply String.eqb_eq in Ek as ->.
      destruct (negb (py_eq _ _)) eqn:Hne; [|done].
      injection Hstep as <- <-. split; [done|]. exists v0.
      split; [done|]. split; [done|]. split; [done|]. intros _.
      split; [done|]. apply negb_true_iff in Hne. cbn [py_eq] in Hne.
      by apply eqb_false_iff in Hne.
    - apply String.eqb_neq in Ek.
      destruct (negb (py_eq _ _)) eqn:Hne; [|done].
      injection Hstep as <- <-. split; [done|]. exists v0.
      split; [done|]. split; [done|]. split; [|done]. intros _.
      split; [done|]. by apply negb_true_iff in Hne. }
  split; [|split; [exact Hreal|]].
  - intros s. apply omap_nil. intros [k v] Hin.
    apply updates_elem in Hin as (Hl & _ & _).
    destruct (PyStr.mem k PATIENT_FIELDS) eqn:Hm.
    + apply mem_elem_of in Hm.
      destruct (loaded_slot row s0 k Hm) as (v' & Hl' & Hstep).
      fold s in Hl'. rewrite Hl in Hl'. by injection Hl' as ->.
    + unfold update_step. by rewrite Hm.
  - intros k Hk Hin. apply list_elem_of_fmap in Hin as ([k' v] & -> & Hin).
    destruct (Hreal k' v Hin) as (_ & v0 & Hl & Hv & _).
    cbn [fst] in Hk. rewrite Hk in Hl. by injection Hl as <-.
Qed.

(** ** The slots offered for a provider *)

Section Offers.
Import ProviderRepo.
Variables patients visits : list string.

Lemma slot_before_total : Total slot_before.
Proof.
  intros a b. unfold slot_before, slot_leb.
  rewrite (String.compare_antisym (date b) (date a)).
  destruct (String.compare (date a) (date b)); cbn [CompOpp]; auto.
  apply String.leb_total.
Qed.

Lemma Sorted_take {A} (R : relation A) n l : Sorted R l -> Sorted R (take n l).
Proof.
  intros H. revert n. induction H as [|x l Hs IH Hd]; intros [|n]; cbn;
    try constructor.
  - apply IH.
  - destruct Hd as [|y l Hxy]; [destruct n; constructor|].
    destruct n; constructor. done.
Qed.

Lemma available_bookable provider from_date row :
  is_available provider from_date row = true ->
  bookable (appt_id row) row = true.
Proof.
  unfold is_available, bookable. intros H.
  apply andb_prop in H as [H _]. apply andb_prop in H as [H Hs].
  apply andb_prop in H as [_ Hp]. by rewrite String.eqb_refl, Hp, Hs.
Qed.

Lemma offered_available table today provider from_date limit row :
  row ∈ get_available_slots table today provider from_date limit ->
  row ∈ table /\ is_available provider (default today from_date) row = true.
Proof.
  unfold get_available_slots. intros H. apply elem_of_take in H as (i & H & _).
  apply list_elem_of_lookup_2 in H. rewrite merge_sort_Permutation in H.
  by apply list_elem_of_filter in H as [? ?].
Qed.

(** X20. The slots offered for a provider are at most as many as the
    limit, ordered by date and time, rows of the table that belong to the
    provider, have no patient, the status available and a date not before
    the starting date.  With unique identifiers, booking an offered slot
    for a patient, and a visit if one is given, that are in their tables
    succeeds and returns the row as booked, and the slot is not offered
    again on the resulting table; for a patient or a visit that is not in
    its table the booking raises the integrity error and the table stays
    as it was. *)
Theorem offered_slots_can_be_booked
    (table : list Appointment) (today provider : string)
    (from_date : option string) (limit : nat) :
  let offers := get_available_slots table today provider from_date limit in
  (length offers <= limit)%nat
  /\ Sorted slot_before offers
  /\ (forall row, row ∈ offers ->
        row ∈ table /\ provider_id row = provider /\ patient_id row = None
        /\ status row = "available"
        /\ String.leb (default today from_date) (date row) = true)
  /\ (NoDup (appt_id <$> table) ->
      forall row patient visit reason' now,
        row ∈ offers ->
        let result :=
          book_appointment_in_store patients visits table (appt_id row)
            patient visit reason' now in
        (references_hold patients visits patient visit = true ->
         result.2
         = inr (Some (book_row (Some patient) visit reason' (Some now) row))
         /\ forall row',
              row' ∈ get_available_slots result.1 today provider from_date
                       limit ->
              appt_id row' <> appt_id row)
        /\ (references_hold patients visits patient visit = false ->
            result = (table, inl IntegrityError))).
Proof.
  intros offers. split; [|split; [|split]].
  - unfold offers, get_available_slots. rewrite length_take. lia.
  - unfold offers, get_available_slots. apply Sorted_take.
    apply Sorted_merge_sort, slot_before_total.
  - intros row Hin. apply offered_available in Hin as [Hin Ha].
    split; [done|]. unfold is_available in Ha.
    apply andb_prop in Ha as [Ha Hd]. apply andb_prop in Ha as [Ha Hs].
    apply andb_prop in Ha as [Hp Hn]. apply String.eqb_eq in Hp, Hs.
    split; [done|]. split; [|done].
    destruct (patient_id row) as [x|]; [|done].
    apply negb_true_iff, bool_decide_eq_false in Hn. exfalso. apply Hn.
    by eexists.
  - intros Hnd row patient visit reason' now Hin result.
    apply offered_available in Hin as [Hin Ha].
    pose proof (available_bookable _ _ _ Ha) as Hb.
    unfold result, book_appointment_in_store, book_appointment.
    destruct (rowcount (appt_id row) table =? 0)%nat eqn:E.
    { apply Nat.eqb_eq in E. rewrite rowcount_zero in E.
      rewrite (E row Hin) in Hb. discriminate. }
    split; intros Hf; rewrite Hf; [|done].
    cbn [fst snd]. rewrite find_by_id_update. split.
    + destruct (get_appointment_by_id table (appt_id row)) as [r|] eqn:Ef.
      * rewrite <- (find_by_id_unique _ _ _ _ Hnd Ef Hin eq_refl).
        cbn. by rewrite Hb.
      * by apply (find_by_id_none _ _ _ Ef) in Hin.
    + intros row' Hin' Hid. apply offered_available in Hin' as [Hin' Ha'].
      pose proof (available_bookable _ _ _ Ha') as Hb'. rewrite Hid in Hb'.
      unfold update_where in Hin'.
      apply list_elem_of_fmap in Hin' as (r & Hr & _).
      destruct (bookable (appt_id row) r) eqn:Er; subst row'.
      * by rewrite book_row_not_bookable in Hb'.
      * congruence.
Qed.

End Offers.

(** ** Finding a patient *)

Lemma find_elem {A} (f : A -> bool) l x :
  find f l = Some x -> x ∈ l /\ f x = true.
Proof.
  intros H. apply find_some in H as [Hin Hf]. split; [|done].
  by apply list_elem_of_In.
Qed.

Lemma find_is_none {A} (f : A -> bool) l :
  find f l = None <-> forall x, x ∈ l -> f x = false.
Proof.
  split.
  - intros H x Hin. apply (find_none _ _ H). by apply list_elem_of_In.
  - intros H. destruct (find f l) as [x|] eqn:E; [|done].
    apply find_elem in E as [Hin Hf]. rewrite (H x Hin) in Hf. discriminate.
Qed.

(** X21. A patient found by the look-up is a row of the table that agrees
    with a given phone number, or a given e-mail address, or the given
    first name, last name and date of birth.  A row that has the given
    phone number decides the look-up by phone, whatever the other
    arguments.  Nothing is found only when no row agrees with any given
    criterion.  An empty phone number or e-mail address counts as not
    given. *)
Theorem find_existing_patient_priority
    (table : list PatientRow)
    (phone email first_name last_name date_of_birth : option string) :
  let result :=
    find_existing_patient table phone email first_name last_name
      date_of_birth in
  (forall patient,
     result = Some patient ->
     exists row,
       row ∈ table /\ patient = _row_to_patient row
       /\ (given phone = Some (row_phone row)
           \/ (is_Some (row_email row) /\ given email = row_email row)
           \/ (given first_name = Some (row_first_name row)
               /\ given last_name = Some (row_last_name row)
               /\ given date_of_birth = Some (row_date_of_birth row))))
  /\ (forall row,
        row ∈ table -> given phone = Some (row_phone row) ->
        exists row', result = Some (_row_to_patient row')
                     /\ row_phone row' = row_phone row)
  /\ (result = None ->
      forall row,
        row ∈ table ->
        given phone <> Some (row_phone row)
        /\ (is_Some (row_email row) -> given email <> row_email row)
        /\ ~ (given first_name = Some (row_first_name row)
              /\ given last_name = Some (row_last_name row)
              /\ given date_of_birth = Some (row_date_of_birth row)))
  /\ find_existing_patient table (Some "") (Some "") first_name last_name
       date_of_birth
     = find_existing_patient table None None first_name last_name
         date_of_birth.
Proof.
  intros result. unfold result, find_existing_patient.
  split; [|split; [|split; [|done]]].
  - intros patient.
    destruct (given phone) as [p|]; cbn [mbind option_bind].
    + destruct (find (by_phone p) table) as [row|] eqn:E1.
      { intros [= <-]. apply find_elem in E1 as [Hin Hf].
        apply String.eqb_eq in Hf. exists row. rewrite Hf. auto. }
      destruct (given email) as [e|]; cbn [mbind option_bind].
      * destruct (find (by_email e) table) as [row|] eqn:E2.
        { intros [= <-]. apply find_elem in E2 as [Hin Hf].
          unfold by_email in Hf.
          destruct (row_email row) as [e'|] eqn:Ee; [|done].
          apply String.eqb_eq in Hf as ->. exists row. rewrite Ee.
          split; [done|]. split; [done|]. right. left.
          split; [by eexists|done]. }
        destruct (given first_name) as [f|], (given last_name) as [l|],
          (given date_of_birth) as [d|]; cbn [mbind option_bind]; try done.
        destruct (find (by_name_dob f l d) table) as [row|] eqn:E3; [|done].
        intros [= <-]. apply find_elem in E3 as [Hin Hf].
        unfold by_name_dob in Hf. apply andb_prop in Hf as [Hf Hd].
        apply andb_prop in Hf as [Hf Hl].
        apply String.eqb_eq in Hf, Hl, Hd. subst. exists row. auto 10.
      * destruct (given first_name) as [f|], (given last_name) as [l|],
          (given date_of_birth) as [d|]; cbn [mbind option_bind]; try done.
        destruct (find (by_name_dob f l d) table) as [row|] eqn:E3; [|done].
        intros [= <-]. apply find_elem in E3 as [Hin Hf].
        unfold by_name_dob in Hf. apply andb_prop in Hf as [Hf Hd].
        apply andb_prop in Hf as [Hf Hl].
        apply String.eqb_eq in Hf, Hl, Hd. subst. exists row. auto 10.
    + destruct (given email) as [e|]; cbn [mbind option_bind].
      * destruct (find (by_email e) table) as [row|] eqn:E2.
        { intros [= <-]. apply find_elem in E2 as [Hin Hf].
          unfold by_email in Hf.
          destruct (row_email row) as [e'|] eqn:Ee; [|done].
          apply String.eqb_eq in Hf as ->. exists row. rewrite Ee.
          split; [done|]. split; [done|]. right. left.
          split; [by eexists|done]. }
        destruct (given first_name) as [f|], (given last_name) as [l|],
          (given date_of_birth) as [d|]; cbn [mbind option_bind]; try done.
        destruct (find (by_name_dob f l d) table) as [row|] eqn:E3; [|done].
        intros [= <-]. apply find_elem in E3 as [Hin Hf].
        unfold by_name_dob in Hf. apply andb_prop in Hf as [Hf Hd].
        apply andb_prop in Hf as [Hf Hl].
        apply String.eqb_eq in Hf, Hl, Hd. subst. exists row. auto 10.
      * destruct (given first_name) as [f|], (given last_name) as [l|],
          (given date_of_birth) as [d|]; cbn [mbind option_bind]; try done.
        destruct (find (by_name_dob f l d) table) as [row|] eqn:E3; [|done].
        intros [= <-]. apply find_elem in E3 as [Hin Hf].
        unfold by_name_dob in Hf. apply andb_prop in Hf as [Hf Hd].
        apply andb_prop in Hf as [Hf Hl].
        apply String.eqb_eq in Hf, Hl, Hd. subst. exists row. auto 10.
  - intros row Hin Hp. rewrite Hp. cbn [mbind option_bind].
    destruct (find (by_phone (row_phone row)) table) as [row'|] eqn:E.
    + apply find_elem in E as [_ Hf]. apply String.eqb_eq in Hf.
      by exists row'.
    + rewrite find_is_none in E. specialize (E row Hin).
      unfold by_phone in E. by rewrite String.eqb_refl in E.
  - intros Hnone row Hin.
    destruct (p ← given phone; find (by_phone p) table) as [?|] eqn:E1;
      [done|].
    destruct (e ← given email; find (by_email e) table) as [?|] eqn:E2;
      [done|].
    destruct (f ← given first_name; l ← given last_name;
              d ← given date_of_birth; find (by_name_dob f l d) table)
      as [?|] eqn:E3; [done|].
    split; [|split].
    + intros Hp. rewrite Hp in E1. cbn [mbind option_bind] in E1.
      rewrite find_is_none in E1. specialize (E1 row Hin).
      unfold by_phone in E1. by rewrite String.eqb_refl in E1.
    + intros [e He] Hg. rewrite Hg, He in E2. cbn [mbind option_bind] in E2.
      rewrite find_is_none in E2. specialize (E2 row Hin).
      unfold by_email in E2. by rewrite He, String.eqb_refl in E2.
    + intros (Hf & Hl & Hd). rewrite Hf, Hl, Hd in E3.
      cbn [mbind option_bind] in E3.
      rewrite find_is_none in E3. specialize (E3 row Hin).
      unfold by_name_dob in E3. by rewrite !String.eqb_refl in E3.
Qed.

Lemma lower_upper_char c :
  PyStr.lower_char (PyStr.upper_char c) = PyStr.lower_char c.
Proof. destruct c as [[] [] [] [] [] [] [] []]; reflexivity. Qed.

Lemma lower_upper s : PyStr.lower (PyStr.upper s) = PyStr.lower s.
Proof.
  unfold PyStr.lower, PyStr.upper. induction s as [|c s IH]; [done|].
  cbn [PyStr.map_chars]. by rewrite lower_upper_char, IH.
Qed.

(** X22. The candidates by name are the rows whose first and last names
    equal the given ones up to letter case; the letter case of the
    arguments does not matter, and a row with exactly the given names is
    among the candidates. *)
Theorem find_patients_by_name_ignores_case
    (table : list PatientRow) (first_name last_name : string) :
  (forall patient,
     patient ∈ find_patients_by_name table first_name last_name <->
     exists row,
       row ∈ table /\ patient = _row_to_patient row
       /\ PyStr.lower (row_first_name row) = PyStr.lower first_name
       /\ PyStr.lower (row_last_name row) = PyStr.lower last_name)
  /\ find_patients_by_name table (PyStr.upper first_name)
       (PyStr.upper last_name)
     = find_patients_by_name table first_name last_name
  /\ (forall row,
        row ∈ table -> row_first_name row = first_name ->
        row_last_name row = last_name ->
        _row_to_patient row
        ∈ find_patients_by_name table first_name last_name).
Proof.
  assert (forall patient,
     patient ∈ find_patients_by_name table first_name last_name <->
     exists row,
       row ∈ table /\ patient = _row_to_patient row
       /\ PyStr.lower (row_first_name row) = PyStr.lower first_name
       /\ PyStr.lower (row_last_name row) = PyStr.lower last_name) as Hiff.
  { intros patient. unfold find_patients_by_name.
    rewrite list_elem_of_fmap. split.
    - intros (row & -> & Hin). apply list_elem_of_filter in Hin as [Hf Hin].
      apply andb_prop in Hf as [Hf Hl]. apply String.eqb_eq in Hf, Hl.
      by exists row.
    - intros (row & Hin & -> & Hf & Hl). exists row. split; [done|].
      apply list_elem_of_filter. split; [|done].
      rewrite Hf, Hl. by rewrite !String.eqb_refl. }
  split; [exact Hiff|]. split.
  - unfold find_patients_by_name. by rewrite !lower_upper.
  - intros row Hin Hf Hl. apply Hiff. exists row. by rewrite Hf, Hl.
Qed.

(** ** Slots hold what was supplied *)

Lemma sourced_refl P d k : sourced P d d k.
Proof. by left. Qed.

Lemma sourced_trans P d1 d2 d3 k :
  sourced P d1 d2 k -> sourced P d2 d3 k -> sourced P d1 d3 k.
Proof.
  intros H12 [H23|H23]; [|by right].
  destruct H12 as [H12|H12]; [left; congruence|right; by rewrite H23].
Qed.

Lemma sourced_impl (P Q : Value -> Prop) d d' k :
  (forall v, P v -> Q v) -> sourced P d d' k -> sourced Q d d' k.
Proof.
  intros HPQ [H|(v & H & HP)]; [by left|right]. exists v. auto.
Qed.

Lemma sourced_insert_flag P d d' k v :
  k <> "address_validated" ->
  sourced P d d' k -> sourced P d (<["address_validated" := v]> d') k.
Proof.
  intros Hk H. unfold sourced in *. by rewrite lookup_insert_ne.
Qed.

Lemma dict_update_sourced d items k :
  sourced (fun v => (k, v) ∈ items) d (dict_update d items) k.
Proof.
  unfold dict_update. revert d.
  induction items as [|[key v] items IH]; intros d; [by left|].
  cbn [fold_left fst snd].
  eapply sourced_trans; [|eapply sourced_impl; [|apply IH]].
  - destruct (decide (k = key)) as [->|Hne].
    + right. exists v. rewrite lookup_insert_eq. split; [done|].
      apply elem_of_cons. by left.
    + left. by rewrite lookup_insert_ne.
  - intros v' Hv'. apply elem_of_cons. by right.
Qed.

Lemma merge_fold_sourced extracted st changed k :
  sourced (fun v => (k, v) ∈ extracted) (slots st)
    (slots (fold_left merge_step extracted (st, changed)).1) k.
Proof.
  revert st changed.
  induction extracted as [|[key value] ex IH]; intros st changed; [by left|].
  cbn [fold_left].
  destruct (merge_step_cases st changed key value) as [[-> _]|[-> _]].
  - eapply sourced_impl; [|apply IH]. intros v Hv.
    apply elem_of_cons. by right.
  - eapply sourced_trans; [|eapply sourced_impl; [|apply IH]].
    + rewrite slots_set_slot. destruct (decide (k = key)) as [->|Hne].
      * right. exists value. rewrite lookup_insert_eq. split; [done|].
        apply elem_of_cons. by left.
      * left. by rewrite lookup_insert_ne.
    + intros v Hv. apply elem_of_cons. by right.
Qed.

Lemma merge_slots_sourced s t k :
  sourced (may_supply s t k) (slots s) (slots (merge_slots s (extracted t)).1) k.
Proof.
  eapply sourced_impl; [|apply merge_fold_sourced]. intros v Hv. by left.
Qed.

Lemma set_returning_patient_items s patient :
  slots (final_state (_set_returning_patient s patient))
  = dict_update (slots s) (patient_items patient).
Proof. reflexivity. Qed.

Lemma set_returning_patient_sourced s0 s t patient k :
  existing_patient t = Some patient \/ patient ∈ pending_name_matches s0 ->
  sourced (may_supply s0 t k) (slots s)
    (slots (final_state (_set_returning_patient s patient))) k.
Proof.
  intros Hp. rewrite set_returning_patient_items.
  eapply sourced_impl; [|apply dict_update_sourced].
  intros v Hv. right. left. by exists patient.
Qed.

Lemma do_address_validation_sourced s0 s t newly_filled k :
  k <> "address_validated" ->
  sourced (may_supply s0 t k) (slots s)
    (slots (final_state (do_address_validation s t newly_filled))) k.
Proof.
  intros Hk. unfold do_address_validation.
  destruct (first_missing_key _ _); [by left|].
  destruct (is_valid (validation t)).
  - destruct (corrected_components (validation t)) as [[|c cs]|] eqn:E;
      proj_all; try (apply sourced_insert_flag; [done|by left]).
    eapply sourced_trans;
      [apply sourced_insert_flag; [done|apply sourced_refl]|].
    eapply sourced_impl; [|apply dict_update_sourced].
    intros v Hv. right. right. left. by exists (c :: cs).
  - destruct (2 <=? _); proj_all; [|by left].
    apply sourced_insert_flag; [done|by left].
Qed.

Ltac sourced_close Hk :=
  rewrite ?final_state_then_say, ?final_state_say_then,
    ?handle_query_providers_slots;
  repeat match goal with
  | |- sourced _ _ (slots (final_state (do_address_validation ?sx ?t ?f))) _ =>
      eapply sourced_trans;
        [|apply (do_address_validation_sourced _ sx t f _ Hk)]
  end;
  proj_all;
  repeat match goal with
  | |- sourced _ _ (<["address_validated" := _]> _) _ =>
      apply sourced_insert_flag; [exact Hk|]
  end;
  first [ match goal with
          | H : sourced ?P ?d ?d' ?k |- sourced ?P ?d ?d' ?k => exact H
          end
        | apply sourced_refl ].

Ltac sourced_merge s t k :=
  let Hm := fresh "Hm" in
  pose proof (merge_slots_sourced s t k) as Hm;
  destruct (merge_slots s (extracted t)) as [?s1 ?filled]; proj_all.

Lemma handle_check_patient_sourced s t k :
  sourced (may_supply s t k) (slots s)
    (slots (final_state (handle_check_patient s t))) k.
Proof.
  unfold handle_check_patient.
  pose proof (merge_slots_sourced s t k) as Hm.
  destruct (existing_patient t) as [patient|] eqn:E.
  - eapply sourced_trans; [exact Hm|].
    apply set_returning_patient_sourced. by left.
  - repeat step_branch; exact Hm.
Qed.

Lemma handle_verify_dob_sourced s t k :
  sourced (may_supply s t k) (slots s)
    (slots (final_state (handle_verify_dob s t))) k.
Proof.
  unfold handle_verify_dob.
  pose proof (merge_slots_sourced s t k) as Hm.
  destruct (negb _); [exact Hm|].
  destruct (find _ _) as [patient|] eqn:E; [|exact Hm].
  eapply sourced_trans; [exact Hm|].
  apply find_some in E as [Hin _].
  rewrite merge_slots_pending_names in Hin.
  change (slots (final_state
            (_set_returning_patient
               (set_pending_name_matches [] (merge_slots s (extracted t)).1)
               patient)))
    with (slots (final_state
            (_set_returning_patient (merge_slots s (extracted t)).1 patient))).
  apply set_returning_patient_sourced. right. by apply list_elem_of_In.
Qed.

Lemma handle_validate_address_sourced s t k :
  k <> "address_validated" ->
  sourced (may_supply s t k) (slots s)
    (slots (final_state (handle_validate_address s t))) k.
Proof.
  intros Hk. unfold handle_validate_address.
  destruct (if is_affirmative (intent t) || says "yes" t
            then opt_truthy (pending_address_suggestion s) else false) eqn:Ea.
  - assert (exists suggestion,
              pending_address_suggestion s = Some suggestion) as [sg Hp].
    { destruct (is_affirmative (intent t) || says "yes" t); [|done].
      destruct (pending_address_suggestion s) as [x|]; [by exists x|done]. }
    rewrite Hp. cbn [of_opt py_str].
    destruct (parse_suggested_address sg) as [[|c cs]|] eqn:Ep; proj_all;
      apply sourced_insert_flag; try done; try apply sourced_refl.
    eapply sourced_impl; [|apply dict_update_sourced].
    intros v Hv. do 3 right. by exists sg, (c :: cs).
  - sourced_merge s t k. repeat step_branch; sourced_close Hk.
Qed.

Lemma advance_sourced s0 s t k :
  k <> "address_validated" ->
  sourced (may_supply s0 t k) (slots s)
    (slots (final_state (advance_to_next_actionable_state s t))) k.
Proof.
  intros Hk. unfold advance_to_next_actionable_state.
  repeat step_branch; sourced_close Hk.
Qed.

Lemma handle_phase_confirm_sourced s t phase next_state k :
  k <> "address_validated" ->
  sourced (may_supply s t k) (slots s)
    (slots (final_state (handle_phase_confirm s t phase next_state))) k.
Proof.
  intros Hk. unfold handle_phase_confirm.
  destruct (is_affirmative (intent t) || says "yes" t).
  - apply (advance_sourced s (set_current_state next_state s) t k Hk).
  - sourced_merge s t k. repeat step_branch; sourced_close Hk.
Qed.

(** A turn leaves a slot other than the validation flag as it was, or
    writes a value that it may supply. *)
Lemma process_input_sourced s t k :
  k <> "address_validated" ->
  sourced (may_supply s t k) (slots s)
    (slots (final_state (process_input s t))) k.
Proof.
  intros Hk. unfold process_input. destruct (current_state s) eqn:Hs.
  - apply sourced_refl.
  - apply handle_check_patient_sourced.
  - apply handle_verify_dob_sourced.
  - unfold handle_confirm_returning. sourced_merge s t k.
    repeat step_branch; sourced_close Hk.
  - unfold handle_collection. sourced_merge s t k.
    repeat step_branch; sourced_close Hk.
  - by apply handle_phase_confirm_sourced.
  - unfold handle_collection. sourced_merge s t k.
    repeat step_branch; sourced_close Hk.
  - by apply handle_phase_confirm_sourced.
  - unfold handle_collection. sourced_merge s t k.
    repeat step_branch; sourced_close Hk.
  - by apply handle_validate_address_sourced.
  - by apply handle_phase_confirm_sourced.
  - unfold handle_collection. sourced_merge s t k.
    repeat step_branch; sourced_close Hk.
  - rewrite handle_query_providers_slots. apply sourced_refl.
  - unfold handle_select_provider. rewrite select_provider_slots.
    apply sourced_refl.
  - unfold handle_select_time. rewrite select_time_slots. apply sourced_refl.
  - unfold handle_confirm. sourced_merge s t k.
    repeat step_branch; sourced_close Hk.
  - apply sourced_refl.
Qed.

Lemma run_pending ts :
  (forall patient,
     patient ∈ pending_name_matches (run ts) ->
     exists t, t ∈ ts /\ patient ∈ patients_by_name t)
  /\ (forall suggestion,
        pending_address_suggestion (run ts) = Some suggestion ->
        exists t, t ∈ ts /\ suggested_address (validation t) = Some suggestion).
Proof.
  induction ts as [|t ts [IHn IHs]] using rev_ind.
  - split; [|done]. intros patient H. by apply elem_of_nil in H.
  - rewrite run_snoc.
    destruct (process_input_pending (run ts) t) as [Hn Hs].
    assert (t ∈ (ts ++ [t])%list) as Hlast.
    { apply elem_of_app. right. by apply list_elem_of_singleton. }
    split.
    + intros patient Hin. destruct Hn as [Hn|[Hn|Hn]]; rewrite Hn in Hin.
      * destruct (IHn patient Hin) as (t0 & Ht0 & Hp). exists t0.
        split; [apply elem_of_app; by left|done].
      * by apply elem_of_nil in Hin.
      * by exists t.
    + intros sg Hsg. destruct Hs as [Hs|[Hs|Hs]]; rewrite Hs in Hsg.
      * destruct (IHs sg Hsg) as (t0 & Ht0 & Hp). exists t0.
        split; [apply elem_of_app; by left|done].
      * discriminate Hsg.
      * by exists t.
Qed.

(** Along a session a slot other than the validation flag holds what the
    new record gave it or a value that a turn supplied. *)
Lemma run_sourced ts k v :
  k <> "address_validated" ->
  slots (run ts) !! k = Some v ->
  default_slots !! k = Some v \/ exists t, t ∈ ts /\ supplies t k v.
Proof.
  intros Hk. revert v. induction ts as [|t ts IH] using rev_ind; intros v Hv.
  - by left.
  - rewrite run_snoc in Hv.
    assert (forall t0, t0 ∈ ts -> t0 ∈ (ts ++ [t])%list) as Hold.
    { intros t0 H. apply elem_of_app. by left. }
    assert (t ∈ (ts ++ [t])%list) as Hlast.
    { apply elem_of_app. right. by apply list_elem_of_singleton. }
    destruct (run_pending ts) as [Hn Hs].
    destruct (process_input_sourced (run ts) t k Hk) as [E|(v' & E & Hsup)].
    + rewrite E in Hv. destruct (IH v Hv) as [H|(t0 & Ht0 & H)]; [by left|].
      right. exists t0. auto.
    + rewrite E in Hv. injection Hv as ->. right.
      destruct Hsup as [H|[(p & [H|H] & Hi)|[H|(sg & items & H & Hp & Hi)]]].
      * exists t. split; [done|]. by left.
      * exists t. split; [done|]. right. left. exists p. auto.
      * destruct (Hn p H) as (t0 & Ht0 & Hp0). exists t0. split; [auto|].
        right. left. exists p. auto.
      * exists t. split; [done|]. right. right. by left.
      * destruct (Hs sg H) as (t0 & Ht0 & Hs0). exists t0. split; [auto|].
        do 3 right. by exists sg, items.
Qed.

(** C4 (amended). The new slot record holds the absent value (None) for
    every field except address_validated, which is created as False.  In
    every state reachable from the session start, a slot other than
    address_validated holds the absent value or a value that a turn so far
    supplied for that very slot, through the extraction, a patient record
    found by the repository, the corrected components of the address
    validator or its suggestion as parsed.  Hence a slot for which no turn
    supplied a value other than the absent one still holds the absent
    value, never an empty string or another placeholder, and a field of
    the record stays a key of the dictionary. *)
Theorem unprovided_slots_hold_none :
  (forall k v, slots new_state !! k = Some v ->
     (k = "address_validated" /\ v = VBool false)
     \/ (k <> "address_validated" /\ v = VNone))
  /\ (forall s, reachable s -> exists ts, s = run ts)
  /\ (forall ts k v,
        k <> "address_validated" ->
        slots (run ts) !! k = Some v ->
        v = VNone \/ exists t, t ∈ ts /\ supplies t k v)
  /\ (forall ts k,
        k <> "address_validated" ->
        (forall t v, t ∈ ts -> supplies t k v -> v = VNone) ->
        dict_get (slots (run ts)) k = VNone
        /\ (is_Some (slots new_state !! k) ->
            slots (run ts) !! k = slots new_state !! k)).
Proof.
  assert (forall ts k v,
            k <> "address_validated" ->
            slots (run ts) !! k = Some v ->
            v = VNone \/ exists t, t ∈ ts /\ supplies t k v) as Hsrc.
  { intros ts k v Hk Hv.
    destruct (run_sourced ts k v Hk Hv) as [H|H]; [left|by right].
    by destruct (default_slots_values k v H) as [[? _]|[_ ->]]. }
  split; [apply default_slots_values|]. split; [apply reachable_run|].
  split; [exact Hsrc|].
  intros ts k Hk Hno.
  assert (forall v, slots (run ts) !! k = Some v -> v = VNone) as Hnone.
  { intros v Hv. destruct (Hsrc ts k v Hk Hv) as [H|(t & Ht & H)]; [done|].
    by apply (Hno t v). }
  split.
  - unfold dict_get. destruct (slots (run ts) !! k) as [v|] eqn:E; [|done].
    by apply Hnone.
  - intros Hsome. destruct (run_keeps_keys ts k Hsome) as [v Hv].
    rewrite Hv, (Hnone v Hv). destruct Hsome as [v0 Hv0]. rewrite Hv0.
    by destruct (default_slots_values k v0 Hv0) as [[? _]|[_ ->]].
Qed.

Lemma unprovided_slots_hold_none_witness :
  dict_get (slots (run [city_update])) "symptoms" = VNone.
Proof.
  refine (proj1 (proj2 (proj2 (proj2 unprovided_slots_hold_none)) [city_update]
                   "symptoms" _ _)).
  - discriminate.
  - intros t v Ht. apply list_elem_of_singleton in Ht as ->.
    intros [H|[(p & [H|H] & _)|[(items & H & _)|(sg & items & H & _)]]].
    + vm_compute in H. apply list_elem_of_singleton in H. discriminate H.
    + discriminate H.
    + by apply elem_of_nil in H.
    + discriminate H.
    + discriminate H.
Defined.
